(** * Athkariapp data-migration scripts: a shallow embedding

    The development follows the five scripts under [scripts/]:
    - [compare_api.py]        (the matcher),
    - [convert_adhkar.py]     (the reclassifier),
    - [sync_official_data.py] (the synchroniser),
    - [smart_deduplicate.py]  (duplicate reconciliation),
    - [generate_revision_html.py] (the revision table).

    Python values are modelled as follows.
    - [str] is a sequence of Unicode code points: [list N].  Slicing
      [s[:n]] is [take n s], [kw in s] is a sub-sequence search.
    - [int] is [Z]; list indices and lengths are [nat].
    - a [dict] whose iteration order matters (the groups of the
      reconciliation pass) is an association list in insertion order;
      a [dict] used only for lookup is a [gmap].
    - the float returned by [SequenceMatcher.ratio] is the rational
      [2*M/T]; see [difflib.ratio]. *)

From Stdlib Require Import ZArith NArith QArith Lia Bool DecimalN.
From stdpp Require Import base tactics option list gmap sorting strings.

Open Scope nat_scope.

(** ** Python strings *)

Abbreviation pystr := (list N).

(** An ASCII literal of the sources, as code points. *)
Definition py (s : string) : pystr :=
  (λ c : Ascii.ascii, Ascii.N_of_ascii c) <$> String.list_ascii_of_string s.

Module Py.

(** [str.isspace] for one code point (Unicode 14, CPython 3.11): the
    characters on which [str.split()] separates and which [str.strip()]
    removes. *)
Definition isspace (c : N) : bool :=
  ((9 <=? c) && (c <=? 13) || (28 <=? c) && (c <=? 32)
   || (c =? 133) || (c =? 160) || (c =? 5760)
   || (8192 <=? c) && (c <=? 8202)
   || (c =? 8232) || (c =? 8233) || (c =? 8239) || (c =? 8287)
   || (c =? 12288))%N.

(** [s.split()]: skip whitespace, collect the next maximal run of
    non-whitespace, repeat.  [cur] is the word being collected, in
    reverse. *)
Fixpoint split_aux (cur : pystr) (s : pystr) : list pystr :=
  match s with
  | [] => match cur with [] => [] | _ => [rev cur] end
  | c :: s' =>
      if isspace c
      then match cur with
           | [] => split_aux [] s'
           | _ => rev cur :: split_aux [] s'
           end
      else split_aux (c :: cur) s'
  end.

Definition split (s : pystr) : list pystr := split_aux [] s.

(** [sep.join(words)]. *)
Fixpoint join (sep : pystr) (words : list pystr) : pystr :=
  match words with
  | [] => []
  | [w] => w
  | w :: ws => w ++ sep ++ join sep ws
  end.

(** [s.lstrip()], [s.rstrip()], [s.strip()]. *)
Fixpoint lstrip (s : pystr) : pystr :=
  match s with
  | c :: s' => if isspace c then lstrip s' else s
  | [] => []
  end.

Definition rstrip (s : pystr) : pystr := rev (lstrip (rev s)).

Definition strip (s : pystr) : pystr := rstrip (lstrip s).

(** [s.replace(c, '')] for a one-character [c]. *)
Definition remove_char (c : N) (s : pystr) : pystr :=
  filter (λ x, x ≠ c) s.

(** [kw.startswith]-style test used by the search below. *)
Fixpoint is_prefix (kw s : pystr) : bool :=
  match kw, s with
  | [], _ => true
  | k :: kw', c :: s' => bool_decide (k = c) && is_prefix kw' s'
  | _ :: _, [] => false
  end.

(** [kw in s]: some suffix of [s] starts with [kw]. *)
Fixpoint contains (kw s : pystr) : bool :=
  is_prefix kw s ||
  match s with
  | [] => false
  | _ :: s' => contains kw s'
  end.

(** [any(kw in s for kw in kws)]. *)
Definition any_in (kws : list pystr) (s : pystr) : bool :=
  existsb (λ kw, contains kw s) kws.

(** Lexicographic [<] on strings, by code point. *)
Fixpoint str_lt (s t : pystr) : bool :=
  match s, t with
  | _, [] => false
  | [], _ :: _ => true
  | c :: s', d :: t' => (c <? d)%N || (c =? d)%N && str_lt s' t'
  end.

(** Decimal digits of a natural number, most significant first
    ([str(n)] for [n >= 0]). *)
Definition digit_char (d : N) : N := (48 + d)%N.

Definition str_of_N (n : N) : pystr :=
  let fix go (u : Decimal.uint) : pystr :=
    match u with
    | Decimal.Nil => []
    | Decimal.D0 u => 48%N :: go u
    | Decimal.D1 u => 49%N :: go u
    | Decimal.D2 u => 50%N :: go u
    | Decimal.D3 u => 51%N :: go u
    | Decimal.D4 u => 52%N :: go u
    | Decimal.D5 u => 53%N :: go u
    | Decimal.D6 u => 54%N :: go u
    | Decimal.D7 u => 55%N :: go u
    | Decimal.D8 u => 56%N :: go u
    | Decimal.D9 u => 57%N :: go u
    end in
  go (N.to_uint n).

(** [str(z)] and [f"{z}"] for an [int]. *)
Definition str_of_int (z : Z) : pystr :=
  if (z <? 0)%Z then 45%N :: str_of_N (Z.abs_N z) else str_of_N (Z.abs_N z).

(** [f"{z:03d}"]: sign, then zeros up to a total width of three. *)
Definition format_03d (z : Z) : pystr :=
  let ds := str_of_N (Z.abs_N z) in
  if (z <? 0)%Z
  then 45%N :: replicate (2 - length ds) 48%N ++ ds
  else replicate (3 - length ds) 48%N ++ ds.

End Py.

(** ** JSON scalars and [int()] *)

(** The scalar values a JSON document can hold in a field such as
    [REPEAT].  Numbers are the integers the documents carry. *)
Inductive jval :=
  | JNull
  | JBool (b : bool)
  | JInt (z : Z)
  | JStr (s : pystr).

(** The exceptions the modelled code can raise. *)
Inductive exn := ValueError | TypeError | AttributeError.

(** Result of an expression that may raise. *)
Inductive res (A : Type) :=
  | Ok (a : A)
  | Raise (e : exn).
Arguments Ok {A} a.
Arguments Raise {A} e.

Module PyInt.

(** Unicode decimal digits (category Nd, Unicode 14): the code point of
    the digit zero of every script; the nine following code points are
    the digits one to nine. *)
Definition decimal_zeros : list N :=
  [48; 1632; 1776; 1984; 2406; 2534; 2662; 2790; 2918; 3046; 3174; 3302;
   3430; 3558; 3664; 3792; 3872; 4160; 4240; 6112; 6160; 6470; 6608; 6784;
   6800; 6992; 7088; 7232; 7248; 42528; 43216; 43264; 43472; 43504; 43600;
   44016; 65296; 66720; 68912; 69734; 69872; 69942; 70096; 70384; 70736;
   70864; 71248; 71360; 71472; 71904; 72016; 72784; 73040; 73120; 92768;
   92864; 93008; 120782; 120792; 120802; 120812; 120822; 123200; 123632;
   125264; 130032]%N.

(** [Py_UNICODE_TODECIMAL]. *)
Definition decimal_value (c : N) : option N :=
  (λ z, (c - z)%N) <$>
  find (λ z, (z <=? c)%N && (c <? z + 10)%N) decimal_zeros.

(** Whitespace as [int()] sees it: C [isspace] below 127, Unicode
    whitespace from 127 on. *)
Definition int_isspace (c : N) : bool :=
  if (c <? 127)%N
  then ((9 <=? c) && (c <=? 13) || (c =? 32))%N
  else Py.isspace c.

(** The digit a character stands for in [int(s)]. *)
Definition int_digit (c : N) : option N :=
  if (c <? 127)%N
  then (if (48 <=? c) && (c <=? 57) then Some (c - 48) else None)%N
  else decimal_value c.

Inductive prev_char := PStart | PDigit | PUnderscore.

(** The digit loop of [PyLong_FromString] in base 10: digits, single
    underscores between digits.  Returns the value, the number of digits
    read, the rest of the input, or [None] on a misplaced underscore. *)
Fixpoint scan_digits (s : pystr) (acc : Z) (ndigits : nat) (prev : prev_char)
  : option (Z * nat * pystr) :=
  match s with
  | [] => match prev with
          | PUnderscore => None
          | _ => Some (acc, ndigits, [])
          end
  | c :: s' =>
      match int_digit c with
      | Some d => scan_digits s' (acc * 10 + Z.of_N d)%Z (S ndigits) PDigit
      | None =>
          if (c =? 95)%N
          then match prev with
               | PDigit => scan_digits s' acc ndigits PUnderscore
               | _ => None
               end
          else match prev with
               | PUnderscore => None
               | _ => Some (acc, ndigits, s)
               end
      end
  end.

(** Leading whitespace and the optional sign: the sign as a factor, and
    the input that follows. *)
Fixpoint skip_space (s : pystr) : pystr :=
  match s with
  | c :: s' => if int_isspace c then skip_space s' else s
  | [] => []
  end.

Definition sign_and_rest (s : pystr) : Z * pystr :=
  match skip_space s with
  | 43%N :: r => (1%Z, r)
  | 45%N :: r => ((-1)%Z, r)
  | r => (1%Z, r)
  end.

(** [sys.get_int_max_str_digits()], the interpreter's default. *)
Definition int_max_str_digits : nat := 4300.

(** [int(s)] for a string [s]. *)
Definition int_of_str (s : pystr) : res Z :=
  let s1 := sign_and_rest s in
  match scan_digits (snd s1) 0 0 PStart with
  | Some (v, nd, rest) =>
      if (nd =? 0) || (int_max_str_digits <? nd) ||
         negb (forallb int_isspace rest)
      then Raise ValueError
      else Ok (fst s1 * v)%Z
  | None => Raise ValueError
  end.

(** [int(v)]. *)
Definition int (v : jval) : res Z :=
  match v with
  | JNull => Raise TypeError
  | JBool b => Ok (if b then 1 else 0)%Z
  | JInt z => Ok z
  | JStr s => int_of_str s
  end.

(** Truth value of [v] in a condition. *)
Definition truthy (v : jval) : bool :=
  match v with
  | JNull => false
  | JBool b => b
  | JInt z => negb (z =? 0)%Z
  | JStr s => negb (bool_decide (s = []))
  end.

End PyInt.

(** ** [list.sort] *)

Module PySort.

(** [list.sort] is stable and compares with [<] only.  The model inserts
    every element before the first later element that is not smaller. *)
Fixpoint insert_sorted {A} (lt : A → A → bool) (x : A) (l : list A) : list A :=
  match l with
  | [] => [x]
  | y :: l' => if lt y x then y :: insert_sorted lt x l' else x :: l
  end.

Definition sort {A} (lt : A → A → bool) (l : list A) : list A :=
  foldr (insert_sorted lt) [] l.

End PySort.

(** ** [difflib.SequenceMatcher(None, a, b).ratio()] *)

Module difflib.

(** A match [(i, j, k)]: [a[i:i+k] == b[j:j+k]]. *)
Abbreviation Match := (nat * nat * nat)%type.

(** Tuple comparison [<] on matches. *)
Definition match_lt (x y : Match) : bool :=
  let '(i1, j1, k1) := x in
  let '(i2, j2, k2) := y in
  (i1 <? i2) || (i1 =? i2) && ((j1 <? j2) || (j1 =? j2) && (k1 <? k2)).

Section SequenceMatcher.

Variables a b : pystr.

(** [__chain_b], first loop: [b2j[x]] lists the indices of [x] in [b],
    ascending. *)
Definition b2j_all : gmap N (list nat) :=
  foldl (λ (b2j : gmap N (list nat)) '(i, elt),
           <[elt := default [] (b2j !! elt) ++ [i]]> b2j)
        ∅ (imap pair b).

(** [isjunk] is [None]: no junk. *)
Definition bjunk : gset N := ∅.

Definition isbjunk (x : N) : bool := bool_decide (x ∈ bjunk).

(** [__chain_b], purge of popular elements ([autojunk] is on). *)
Definition bpopular : gset N :=
  let n := length b in
  if 200 <=? n
  then dom (filter (λ kv : N * list nat, n / 100 + 1 < length kv.2) b2j_all)
  else ∅.

Definition b2j : gmap N (list nat) :=
  filter (λ kv : N * list nat, kv.1 ∉ bpopular) b2j_all.

(** [j2len.get(j-1, 0)]; the key [-1] is never present. *)
Definition j2lenget_pred (j2len : gmap nat nat) (j : nat) : nat :=
  match j with
  | 0 => 0
  | S j' => default 0 (j2len !! j')
  end.

(** Inner loop of [find_longest_match] over [b2j.get(a[i], nothing)].
    [i - k + 1] is written [i + 1 - k]: [k <= i + 1] throughout. *)
Fixpoint flm_row (blo bhi i : nat) (j2len : gmap nat nat) (js : list nat)
    (newj2len : gmap nat nat) (best : Match) : gmap nat nat * Match :=
  match js with
  | [] => (newj2len, best)
  | j :: js' =>
      if j <? blo then flm_row blo bhi i j2len js' newj2len best
      else if bhi <=? j then (newj2len, best)
      else
        let k := j2lenget_pred j2len j + 1 in
        let newj2len := <[j := k]> newj2len in
        let best := if best.2 <? k then (i + 1 - k, j + 1 - k, k) else best in
        flm_row blo bhi i j2len js' newj2len best
  end.

(** Outer loop: [for i in range(alo, ahi)]. *)
Definition flm_scan (alo ahi blo bhi : nat) : gmap nat nat * Match :=
  foldl (λ '(j2len, best) i,
           flm_row blo bhi i j2len (default [] (x ← a !! i; b2j !! x)) ∅ best)
        (∅, (alo, blo, 0)) (seq alo (ahi - alo)).

(** [a[i] == b[j]] with both indices in range. *)
Definition elt_eq (i j : nat) : bool :=
  match a !! i, b !! j with
  | Some x, Some y => bool_decide (x = y)
  | _, _ => false
  end.

(** The junk test of an extension loop: [not isbjunk(b[j])] when [junk] is
    [false], [isbjunk(b[j])] when it is [true]. *)
Definition junk_test (junk : bool) (j : nat) : bool :=
  match b !! j with
  | Some y => bool_decide (isbjunk y = junk)
  | None => false
  end.

(** [while besti > alo and bestj > blo and ... a[besti-1] == b[bestj-1]]. *)
Fixpoint extend_left (junk : bool) (alo blo besti bestj bestsize : nat) : Match :=
  match besti with
  | 0 => (besti, bestj, bestsize)
  | S i' =>
      if (alo <? besti) && (blo <? bestj) && junk_test junk (bestj - 1)
         && elt_eq i' (bestj - 1)
      then extend_left junk alo blo i' (bestj - 1) (bestsize + 1)
      else (besti, bestj, bestsize)
  end.

(** [while besti+bestsize < ahi and bestj+bestsize < bhi and ...].  [room]
    is [ahi - (besti + bestsize)]: the first conjunct holds as long as it
    is not zero. *)
Fixpoint extend_right (junk : bool) (bhi besti bestj room bestsize : nat) : nat :=
  match room with
  | 0 => bestsize
  | S room' =>
      if (bestj + bestsize <? bhi) && junk_test junk (bestj + bestsize)
         && elt_eq (besti + bestsize) (bestj + bestsize)
      then extend_right junk bhi besti bestj room' (bestsize + 1)
      else bestsize
  end.

Definition find_longest_match (alo ahi blo bhi : nat) : Match :=
  let '(besti, bestj, bestsize) := (flm_scan alo ahi blo bhi).2 in
  let '(besti, bestj, bestsize) :=
    extend_left false alo blo besti bestj bestsize in
  let bestsize :=
    extend_right false bhi besti bestj (ahi - (besti + bestsize)) bestsize in
  let '(besti, bestj, bestsize) :=
    extend_left true alo blo besti bestj bestsize in
  let bestsize :=
    extend_right true bhi besti bestj (ahi - (besti + bestsize)) bestsize in
  (besti, bestj, bestsize).

(** The work list of [get_matching_blocks]; the head of [queue] is the end
    of the Python list, where [pop] and [append] work.  [None] when [fuel]
    iterations were not enough. *)
Fixpoint gmb_loop (fuel : nat) (queue : list (nat * nat * nat * nat))
    (matching_blocks : list Match) : option (list Match) :=
  match queue with
  | [] => Some matching_blocks
  | (alo, ahi, blo, bhi) :: queue =>
      match fuel with
      | 0 => None
      | S fuel =>
          let '(i, j, k) := find_longest_match alo ahi blo bhi in
          if k =? 0 then gmb_loop fuel queue matching_blocks
          else
            let queue :=
              if (alo <? i) && (blo <? j) then (alo, i, blo, j) :: queue
              else queue in
            let queue :=
              if (i + k <? ahi) && (j + k <? bhi)
              then (i + k, ahi, j + k, bhi) :: queue
              else queue in
            gmb_loop fuel queue (matching_blocks ++ [(i, j, k)])
      end
  end.

(** The loop that collapses adjacent equal blocks. *)
Fixpoint collapse (blocks : list Match) (cur : Match)
    (non_adjacent : list Match) : Match * list Match :=
  match blocks with
  | [] => (cur, non_adjacent)
  | (i2, j2, k2) :: blocks =>
      let '(i1, j1, k1) := cur in
      if (i1 + k1 =? i2) && (j1 + k1 =? j2)
      then collapse blocks (i1, j1, k1 + k2) non_adjacent
      else collapse blocks (i2, j2, k2)
             (if k1 =? 0 then non_adjacent else non_adjacent ++ [cur])
  end.

(** Iterations granted to the work list; [gmb_loop_terminates] shows that
    they suffice. *)
Definition gmb_fuel : nat := 2 * (length a + length b) + 1.

Definition get_matching_blocks : option (list Match) :=
  matching_blocks ← gmb_loop gmb_fuel [(0, length a, 0, length b)] [];
  let '(cur, non_adjacent) :=
    collapse (PySort.sort match_lt matching_blocks) (0, 0, 0) [] in
  let non_adjacent :=
    if cur.2 =? 0 then non_adjacent else non_adjacent ++ [cur] in
  Some (non_adjacent ++ [(length a, length b, 0)]).

(** [_calculate_ratio(matches, length)]: [2.0 * matches / length], or
    [1.0] when [length] is zero.  The float is its exact rational value. *)
Definition calculate_ratio (matches length : nat) : Q :=
  if length =? 0 then 1%Q
  else Qmake (Z.of_nat (2 * matches)) (Pos.of_nat length).

(** [ratio()].  The [None] branch is never taken
    ([get_matching_blocks_total]). *)
Definition ratio : Q :=
  match get_matching_blocks with
  | Some blocks =>
      calculate_ratio (foldr (λ t s, t.2 + s) 0 blocks) (length a + length b)
  | None => 0%Q
  end.

End SequenceMatcher.

End difflib.

(** ** The records of the two corpora and of the reference service *)

(** [repeat]: the [{min, max, note}] object of a record. *)
Record Repeat := { rmin : Z; rmax : Z; note : option pystr }.

(** A record of [daily_athkar.json] or [hisn.json]. *)
Record TextRecord := {
  id : pystr;
  category : pystr;
  title : pystr;
  text : pystr;
  reference : pystr;
  repeat : Repeat;
  orderIndex : Z;
  benefit : option pystr;
  grading : pystr;
  isOptional : bool
}.

(** A record of the reference service.  A field is [None] when the key is
    absent from the object. *)
Record RemoteItem := {
  TITLE : option pystr;
  ARABIC_TEXT : option pystr;
  REPEAT : option jval;
  REFERENCE : option pystr
}.

(** [x > y] on ratios. *)
Definition Qgtb (x y : Q) : bool := negb (Qle_bool x y).

(** ** compare_api.py *)

Module compare_api.

Definition similar (a b : pystr) : Q := difflib.ratio a b.

(** The decorative marker U+06DD. *)
Definition marker : N := 1757.

Definition clean_text (text : pystr) : pystr :=
  Py.strip (Py.join [32%N] (Py.split (Py.remove_char marker text))).

(** The pieces of an f-string: literal text or a string value, an [int]
    printed in decimal, a ratio printed with [:.2f]. *)
Inductive frag :=
  | FStr (s : pystr)
  | FInt (z : Z)
  | FRatio2 (q : Q).

Record report_item := {
  status : pystr;
  rcategory : pystr;
  rtitle : pystr;
  remote : list frag;
  local : list frag
}.

(** The variables of the body of [for r_item in remote_items], and the
    report under construction.  [l_item] is the loop variable of the
    inner loop. *)
Record state := {
  found : bool;
  best_match : option TextRecord;
  best_ratio : Q;
  l_item : option TextRecord;
  report_items : list report_item
}.

Definition set_l_item (l : TextRecord) (st : state) : state :=
  {| found := found st; best_match := best_match st;
     best_ratio := best_ratio st; l_item := Some l;
     report_items := report_items st |}.

Definition set_best (ratio : Q) (l : TextRecord) (st : state) : state :=
  {| found := found st; best_match := Some l; best_ratio := ratio;
     l_item := l_item st; report_items := report_items st |}.

Definition set_found (st : state) : state :=
  {| found := true; best_match := best_match st;
     best_ratio := best_ratio st; l_item := l_item st;
     report_items := report_items st |}.

Definition append_report (r : report_item) (st : state) : state :=
  {| found := found st; best_match := best_match st;
     best_ratio := best_ratio st; l_item := l_item st;
     report_items := report_items st ++ [r] |}.

(** [int(r_item.get('REPEAT', 1)) if r_item.get('REPEAT') else 1]. *)
Definition r_rep_of (r_item : RemoteItem) : res Z :=
  match REPEAT r_item with
  | Some v => if PyInt.truthy v then PyInt.int v else Ok 1%Z
  | None => Ok 1%Z
  end.

Definition repeat_mismatch (rname r_title r_text l_text : pystr)
    (r_rep l_rep : Z) : report_item :=
  {| status := py "Repeat Mismatch";
     rcategory := rname;
     rtitle := r_title;
     remote := [FStr (py "Text: "); FStr (take 100 r_text);
                FStr (py "... | Repeat: "); FInt r_rep];
     local := [FStr (py "Text: "); FStr (take 100 l_text);
               FStr (py "... | Repeat: "); FInt l_rep] |}.

Definition potential_mismatch (rname r_title r_text : pystr)
    (best : TextRecord) (ratio : Q) : report_item :=
  {| status := py "Potential Mismatch";
     rcategory := rname;
     rtitle := r_title;
     remote := [FStr (take 200 r_text); FStr (py "...")];
     local := [FStr (take 200 (clean_text (text best)));
               FStr (py "... (Ratio: "); FRatio2 ratio; FStr (py ")")] |}.

Definition missing (rname r_title r_text : pystr) : report_item :=
  {| status := py "Missing";
     rcategory := rname;
     rtitle := r_title;
     remote := [FStr (take 200 r_text); FStr (py "...")];
     local := [FStr (py "Not found in app")] |}.

(** [for l_item in local_all: ...] (lines 64-84).  The second component is
    the exception that ended the loop, if any; the state is the one
    reached when it was raised. *)
Fixpoint scan_locals (rname r_title r_text : pystr) (r_item : RemoteItem)
    (local_all : list TextRecord) (st : state) : state * option exn :=
  match local_all with
  | [] => (st, None)
  | l :: rest =>
      let st := set_l_item l st in
      let l_text := clean_text (text l) in
      let ratio := similar (take 200 r_text) (take 200 l_text) in
      let st := if Qgtb ratio (best_ratio st) then set_best ratio l st else st in
      if Qgtb ratio (85 # 100)
      then
        let st := set_found st in
        match r_rep_of r_item with
        | Raise e => (st, Some e)
        | Ok r_rep =>
            let l_rep := rmax (repeat l) in
            if bool_decide (r_rep ≠ l_rep)
            then (append_report
                    (repeat_mismatch rname r_title r_text l_text r_rep l_rep) st,
                  None)
            else (st, None)
        end
      else scan_locals rname r_title r_text r_item rest st
  end.

(** The body of [for r_item in remote_items] (lines 58-102). *)
Definition compare_item (rname : pystr) (local_all : list TextRecord)
    (r_item : RemoteItem) (report_items : list report_item)
  : state * option exn :=
  let r_text := clean_text (default [] (ARABIC_TEXT r_item)) in
  let r_title := default [] (TITLE r_item) in
  let st := {| found := false; best_match := None; best_ratio := 0;
               l_item := None; report_items := report_items |} in
  match scan_locals rname r_title r_text r_item local_all st with
  | (st, Some e) => (st, Some e)
  | (st, None) =>
      if negb (found st)
      then
        if Qgtb (best_ratio st) (1 # 2)
        then match best_match st with
             | Some best =>
                 (append_report
                    (potential_mismatch rname r_title r_text best (best_ratio st))
                    st, None)
             | None => (st, Some AttributeError)
             end
        else (append_report (missing rname r_title r_text) st, None)
      else (st, None)
  end.

(** [for r_item in remote_items: ...]: the report after the items, or the
    exception that stopped the run. *)
Fixpoint compare_items (rname : pystr) (local_all : list TextRecord)
    (remote_items : list RemoteItem) (report_items : list report_item)
  : res (list report_item) :=
  match remote_items with
  | [] => Ok report_items
  | r_item :: rest =>
      match compare_item rname local_all r_item report_items with
      | (_, Some e) => Raise e
      | (st, None) =>
          compare_items rname local_all rest (compare_api.report_items st)
      end
  end.

(** The categories compared, in the order of the [mappings] dict. *)
Definition mappings : list (Z * pystr) :=
  [(27%Z, [1571; 1584; 1603; 1575; 1585; 32; 1575; 1604; 1589; 1576; 1575;
           1581; 32; 1608; 1575; 1604; 1605; 1587; 1575; 1569]%N);
   (28%Z, [1571; 1584; 1603; 1575; 1585; 32; 1575; 1604; 1606; 1608; 1605]%N);
   (1%Z, [1571; 1584; 1603; 1575; 1585; 32; 1575; 1604; 1575; 1587; 1578;
          1610; 1602; 1575; 1592; 32; 1605; 1606; 32; 1575; 1604; 1606; 1608;
          1605]%N);
   (25%Z, [1575; 1604; 1571; 1584; 1603; 1575; 1585; 32; 1576; 1593; 1583;
           32; 1575; 1604; 1587; 1604; 1575; 1605; 32; 1605; 1606; 32; 1575;
           1604; 1589; 1604; 1575; 1577]%N)].

(** [run_comparison] up to the report list.  [local_all] is
    [daily_data + hisn_data]; [fetch rid] is the list of items that
    [fetch_json] delivered for the remote category, [None] when the fetch
    failed or the document was empty. *)
Fixpoint run_categories (local_all : list TextRecord)
    (fetch : Z → option (list RemoteItem)) (cats : list (Z * pystr))
    (report_items : list report_item) : res (list report_item) :=
  match cats with
  | [] => Ok report_items
  | (rid, rname) :: cats =>
      match fetch rid with
      | None => run_categories local_all fetch cats report_items
      | Some remote_items =>
          match compare_items rname local_all remote_items report_items with
          | Raise e => Raise e
          | Ok report_items => run_categories local_all fetch cats report_items
          end
      end
  end.

Definition run_comparison (local_all : list TextRecord)
    (fetch : Z → option (list RemoteItem)) : res (list report_item) :=
  run_categories local_all fetch mappings [].

(** The classes for which the style sheet of the report has a rule
    (lines 118-120). *)
Definition style_classes : list pystr :=
  [py "status-Missing"; py "status-Mismatch"; py "status-Repeat"].

(** ["status-" + item['status'].split()[0]] (line 141); [None] stands for
    the [IndexError] of a status without a word. *)
Definition status_class (item : report_item) : option pystr :=
  match Py.split (status item) with
  | w :: _ => Some (py "status-" ++ w)
  | [] => None
  end.

End compare_api.

(** ** convert_adhkar.py *)

Module convert_adhkar.

(** An item of a source block: [{id, text, count}], [count] optional. *)
Record RawItem := { item_id : Z; item_text : pystr; count : option Z }.

(** A source block: [{id, category, array}]. *)
Record SourceCategory := {
  cat_id : Z;
  cat_name : pystr;
  array : list RawItem
}.

(** A record of the output [adhkar.json]. *)
Record DhikrJSON := {
  id : pystr;
  category : option pystr;
  hisnCategory : option pystr;
  source : pystr;
  title : pystr;
  text : pystr;
  reference : pystr;
  repeat : Repeat;
  orderIndex : Z;
  benefit : option pystr;
  grading : pystr;
  isOptional : bool
}.

(** [CATEGORY_MAP]: source id to (source, category, hisnCategory). *)
Definition CATEGORY_MAP_items
  : list (Z * (pystr * option pystr * option pystr)) :=
  [(1%Z, (py "daily", None, None));
   (2%Z, (py "daily", Some (py "sleep"), None));
   (27%Z, (py "daily", Some (py "after_prayer"), None));
   (3%Z, (py "hisn", Some (py "hisn"), Some (py "waking")));
   (4%Z, (py "hisn", Some (py "hisn"), Some (py "home")));
   (5%Z, (py "hisn", Some (py "hisn"), Some (py "home")));
   (6%Z, (py "hisn", Some (py "hisn"), Some (py "wudu")));
   (7%Z, (py "hisn", Some (py "hisn"), Some (py "wudu")));
   (8%Z, (py "hisn", Some (py "hisn"), Some (py "home")));
   (9%Z, (py "hisn", Some (py "hisn"), Some (py "home")));
   (10%Z, (py "hisn", Some (py "hisn"), Some (py "prayer")));
   (11%Z, (py "hisn", Some (py "hisn"), Some (py "prayer")));
   (12%Z, (py "hisn", Some (py "hisn"), Some (py "prayer")));
   (13%Z, (py "hisn", Some (py "hisn"), Some (py "adhan")));
   (14%Z, (py "hisn", Some (py "hisn"), Some (py "misc")));
   (15%Z, (py "hisn", Some (py "hisn"), Some (py "misc")));
   (16%Z, (py "hisn", Some (py "hisn"), Some (py "misc")));
   (17%Z, (py "hisn", Some (py "hisn"), Some (py "misc")));
   (18%Z, (py "hisn", Some (py "hisn"), Some (py "prayer")));
   (19%Z, (py "hisn", Some (py "hisn"), Some (py "prayer")));
   (20%Z, (py "hisn", Some (py "hisn"), Some (py "prayer")));
   (21%Z, (py "hisn", Some (py "hisn"), Some (py "prayer")));
   (22%Z, (py "hisn", Some (py "hisn"), Some (py "prayer")));
   (23%Z, (py "hisn", Some (py "hisn"), Some (py "prayer")));
   (24%Z, (py "hisn", Some (py "hisn"), Some (py "prayer")));
   (25%Z, (py "hisn", Some (py "hisn"), Some (py "prayer")));
   (26%Z, (py "hisn", Some (py "hisn"), Some (py "prayer")));
   (28%Z, (py "hisn", Some (py "hisn"), Some (py "prayer")));
   (29%Z, (py "hisn", Some (py "hisn"), Some (py "sleeping")));
   (30%Z, (py "hisn", Some (py "hisn"), Some (py "sleeping")));
   (31%Z, (py "hisn", Some (py "hisn"), Some (py "sleeping")));
   (32%Z, (py "hisn", Some (py "hisn"), Some (py "prayer")));
   (33%Z, (py "hisn", Some (py "hisn"), Some (py "prayer")));
   (34%Z, (py "hisn", Some (py "hisn"), Some (py "distress")));
   (35%Z, (py "hisn", Some (py "hisn"), Some (py "distress")));
   (36%Z, (py "hisn", Some (py "hisn"), Some (py "protection")));
   (37%Z, (py "hisn", Some (py "hisn"), Some (py "protection")));
   (38%Z, (py "hisn", Some (py "hisn"), Some (py "protection")));
   (39%Z, (py "hisn", Some (py "hisn"), Some (py "protection")));
   (40%Z, (py "hisn", Some (py "hisn"), Some (py "protection")));
   (41%Z, (py "hisn", Some (py "hisn"), Some (py "distress")));
   (42%Z, (py "hisn", Some (py "hisn"), Some (py "prayer")));
   (43%Z, (py "hisn", Some (py "hisn"), Some (py "distress")));
   (44%Z, (py "hisn", Some (py "hisn"), Some (py "forgiveness")));
   (45%Z, (py "hisn", Some (py "hisn"), Some (py "protection")));
   (46%Z, (py "hisn", Some (py "hisn"), Some (py "misc")));
   (47%Z, (py "hisn", Some (py "hisn"), Some (py "misc")));
   (48%Z, (py "hisn", Some (py "hisn"), Some (py "protection")));
   (49%Z, (py "hisn", Some (py "hisn"), Some (py "illness")));
   (50%Z, (py "hisn", Some (py "hisn"), Some (py "illness")));
   (51%Z, (py "hisn", Some (py "hisn"), Some (py "illness")));
   (52%Z, (py "hisn", Some (py "hisn"), Some (py "illness")));
   (53%Z, (py "hisn", Some (py "hisn"), Some (py "illness")));
   (54%Z, (py "hisn", Some (py "hisn"), Some (py "illness")));
   (55%Z, (py "hisn", Some (py "hisn"), Some (py "illness")));
   (56%Z, (py "hisn", Some (py "hisn"), Some (py "illness")));
   (57%Z, (py "hisn", Some (py "hisn"), Some (py "illness")));
   (58%Z, (py "hisn", Some (py "hisn"), Some (py "illness")));
   (59%Z, (py "hisn", Some (py "hisn"), Some (py "illness")));
   (60%Z, (py "hisn", Some (py "hisn"), Some (py "illness")));
   (61%Z, (py "hisn", Some (py "hisn"), Some (py "misc")));
   (62%Z, (py "hisn", Some (py "hisn"), Some (py "misc")));
   (63%Z, (py "hisn", Some (py "hisn"), Some (py "misc")));
   (64%Z, (py "hisn", Some (py "hisn"), Some (py "misc")));
   (65%Z, (py "hisn", Some (py "hisn"), Some (py "misc")));
   (66%Z, (py "hisn", Some (py "hisn"), Some (py "misc")));
   (67%Z, (py "hisn", Some (py "hisn"), Some (py "misc")));
   (68%Z, (py "hisn", Some (py "hisn"), Some (py "food")));
   (69%Z, (py "hisn", Some (py "hisn"), Some (py "food")));
   (70%Z, (py "hisn", Some (py "hisn"), Some (py "food")));
   (71%Z, (py "hisn", Some (py "hisn"), Some (py "food")));
   (72%Z, (py "hisn", Some (py "hisn"), Some (py "food")));
   (73%Z, (py "hisn", Some (py "hisn"), Some (py "food")));
   (74%Z, (py "hisn", Some (py "hisn"), Some (py "food")));
   (75%Z, (py "hisn", Some (py "hisn"), Some (py "food")));
   (76%Z, (py "hisn", Some (py "hisn"), Some (py "food")));
   (77%Z, (py "hisn", Some (py "hisn"), Some (py "misc")));
   (78%Z, (py "hisn", Some (py "hisn"), Some (py "misc")));
   (79%Z, (py "hisn", Some (py "hisn"), Some (py "misc")));
   (80%Z, (py "hisn", Some (py "hisn"), Some (py "misc")));
   (81%Z, (py "hisn", Some (py "hisn"), Some (py "misc")));
   (82%Z, (py "hisn", Some (py "hisn"), Some (py "protection")));
   (83%Z, (py "hisn", Some (py "hisn"), Some (py "misc")));
   (84%Z, (py "hisn", Some (py "hisn"), Some (py "misc")));
   (85%Z, (py "hisn", Some (py "hisn"), Some (py "misc")));
   (86%Z, (py "hisn", Some (py "hisn"), Some (py "misc")));
   (87%Z, (py "hisn", Some (py "hisn"), Some (py "gratitude")));
   (88%Z, (py "hisn", Some (py "hisn"), Some (py "protection")));
   (89%Z, (py "hisn", Some (py "hisn"), Some (py "misc")));
   (90%Z, (py "hisn", Some (py "hisn"), Some (py "misc")));
   (91%Z, (py "hisn", Some (py "hisn"), Some (py "misc")));
   (92%Z, (py "hisn", Some (py "hisn"), Some (py "protection")));
   (93%Z, (py "hisn", Some (py "hisn"), Some (py "misc")));
   (94%Z, (py "hisn", Some (py "hisn"), Some (py "protection")));
   (95%Z, (py "hisn", Some (py "hisn"), Some (py "travel")));
   (96%Z, (py "hisn", Some (py "hisn"), Some (py "travel")));
   (97%Z, (py "hisn", Some (py "hisn"), Some (py "travel")));
   (98%Z, (py "hisn", Some (py "hisn"), Some (py "travel")));
   (99%Z, (py "hisn", Some (py "hisn"), Some (py "travel")));
   (100%Z, (py "hisn", Some (py "hisn"), Some (py "travel")));
   (101%Z, (py "hisn", Some (py "hisn"), Some (py "travel")));
   (102%Z, (py "hisn", Some (py "hisn"), Some (py "travel")));
   (103%Z, (py "hisn", Some (py "hisn"), Some (py "travel")));
   (104%Z, (py "hisn", Some (py "hisn"), Some (py "travel")));
   (105%Z, (py "hisn", Some (py "hisn"), Some (py "travel")));
   (106%Z, (py "hisn", Some (py "hisn"), Some (py "misc")));
   (107%Z, (py "hisn", Some (py "hisn"), Some (py "prayer")));
   (108%Z, (py "hisn", Some (py "hisn"), Some (py "misc")));
   (109%Z, (py "hisn", Some (py "hisn"), Some (py "misc")));
   (110%Z, (py "hisn", Some (py "hisn"), Some (py "misc")));
   (111%Z, (py "hisn", Some (py "hisn"), Some (py "misc")));
   (112%Z, (py "hisn", Some (py "hisn"), Some (py "forgiveness")));
   (113%Z, (py "hisn", Some (py "hisn"), Some (py "misc")));
   (114%Z, (py "hisn", Some (py "hisn"), Some (py "misc")));
   (115%Z, (py "hisn", Some (py "hisn"), Some (py "misc")));
   (116%Z, (py "hisn", Some (py "hisn"), Some (py "misc")));
   (117%Z, (py "hisn", Some (py "hisn"), Some (py "misc")));
   (118%Z, (py "hisn", Some (py "hisn"), Some (py "misc")));
   (119%Z, (py "hisn", Some (py "hisn"), Some (py "misc")));
   (120%Z, (py "hisn", Some (py "hisn"), Some (py "misc")));
   (121%Z, (py "hisn", Some (py "hisn"), Some (py "misc")));
   (122%Z, (py "hisn", Some (py "hisn"), Some (py "gratitude")));
   (123%Z, (py "hisn", Some (py "hisn"), Some (py "gratitude")));
   (124%Z, (py "hisn", Some (py "hisn"), Some (py "illness")));
   (125%Z, (py "hisn", Some (py "hisn"), Some (py "protection")));
   (126%Z, (py "hisn", Some (py "hisn"), Some (py "protection")));
   (127%Z, (py "hisn", Some (py "hisn"), Some (py "misc")));
   (128%Z, (py "hisn", Some (py "hisn"), Some (py "protection")));
   (129%Z, (py "hisn", Some (py "hisn"), Some (py "forgiveness")));
   (130%Z, (py "hisn", Some (py "hisn"), Some (py "gratitude")));
   (131%Z, (py "hisn", Some (py "hisn"), Some (py "gratitude")));
   (132%Z, (py "hisn", Some (py "hisn"), Some (py "misc")))].

Definition CATEGORY_MAP : gmap Z (pystr * option pystr * option pystr) :=
  list_to_map CATEGORY_MAP_items.

Definition MORNING_KEYWORDS : list pystr :=
  [[1571; 1614; 1589; 1618; 1576; 1614; 1581; 1618; 1606; 1614; 1575];
   [1571; 1614; 1589; 1618; 1576; 1614; 1581; 1618; 1578; 1615];
   [1571; 1614; 1589; 1618; 1576; 1614; 1581; 1614];
   [1573; 1584; 1575; 32; 1571; 1589; 1576; 1581; 1614];
   [1573; 1584; 1575; 32; 1571; 1589; 1576; 1581]]%N.

Definition EVENING_KEYWORDS : list pystr :=
  [[1571; 1614; 1605; 1618; 1587; 1614; 1610; 1618; 1606; 1614; 1575];
   [1571; 1614; 1605; 1618; 1587; 1614; 1610; 1618; 1578; 1615];
   [1571; 1614; 1605; 1618; 1587; 1614; 1609];
   [1573; 1584; 1575; 32; 1571; 1605; 1587; 1609]]%N.

Definition classify_morning_evening (text : pystr) : list pystr :=
  let has_morning := Py.any_in MORNING_KEYWORDS text in
  let has_evening := Py.any_in EVENING_KEYWORDS text in
  if has_morning && negb has_evening then [py "morning"]
  else if has_evening && negb has_morning then [py "evening"]
  else [py "morning"; py "evening"].

(** [make_id]; [suffix] is [None] for the default argument. *)
Definition make_id (source_cat_id item_index : Z) (suffix : option pystr)
  : pystr :=
  let base :=
    py "adhkar-" ++ Py.str_of_int source_cat_id ++ py "-"
      ++ Py.format_03d item_index in
  match suffix with
  | Some (c :: sfx) => base ++ py "-" ++ (c :: sfx)
  | _ => base
  end.

Definition convert_item (source_cat_id : Z) (source_category_name : pystr)
    (item : RawItem) (item_index : Z) (category hisn_category : option pystr)
    (source : pystr) : DhikrJSON :=
  {| id := make_id source_cat_id item_index None;
     category := category;
     hisnCategory := hisn_category;
     source := source;
     title := source_category_name;
     text := item_text item;
     reference := [];
     repeat := {| rmin := default 1%Z (count item);
                  rmax := default 1%Z (count item);
                  note := None |};
     orderIndex := item_index + 1;
     benefit := None;
     grading := py "sahih";
     isOptional := false |}.

(** [entry["id"] = ...]. *)
Definition set_id (new_id : pystr) (entry : DhikrJSON) : DhikrJSON :=
  {| id := new_id; category := category entry;
     hisnCategory := hisnCategory entry; source := source entry;
     title := title entry; text := text entry;
     reference := reference entry; repeat := repeat entry;
     orderIndex := orderIndex entry; benefit := benefit entry;
     grading := grading entry; isOptional := isOptional entry |}.

(** The titles given to the two branches of the split. *)
Definition title_morning : pystr :=
  [1571; 1584; 1603; 1575; 1585; 32; 1575; 1604; 1589; 1576; 1575; 1581]%N.

Definition title_evening : pystr :=
  [1571; 1584; 1603; 1575; 1585; 32; 1575; 1604; 1605; 1587; 1575; 1569]%N.

(** [for cls in classifications: ...] of the split branch of [main]; the
    state is [(all_athkar, morning_index, evening_index)]. *)
Fixpoint split_classes (cat_id : Z) (item : RawItem)
    (classifications : list pystr) (acc : list DhikrJSON * Z * Z)
  : list DhikrJSON * Z * Z :=
  match classifications with
  | [] => acc
  | cls :: rest =>
      let '(all_athkar, morning_index, evening_index) := acc in
      let is_morning := bool_decide (cls = py "morning") in
      let idx := if is_morning then morning_index else evening_index in
      let entry :=
        convert_item cat_id (if is_morning then title_morning else title_evening)
          item idx (Some cls) None (py "daily") in
      let entry :=
        set_id (make_id cat_id (item_id item - 1) (Some (take 1 cls))) entry in
      split_classes cat_id item rest
        (if is_morning
         then (all_athkar ++ [entry], (morning_index + 1)%Z, evening_index)
         else (all_athkar ++ [entry], morning_index, (evening_index + 1)%Z))
  end.

(** [for item in items: ...] of the split branch. *)
Definition split_items (cat_id : Z) (items : list RawItem)
    (all_athkar : list DhikrJSON) : list DhikrJSON * Z * Z :=
  foldl (λ acc item,
           split_classes cat_id item
             (classify_morning_evening (item_text item)) acc)
        (all_athkar, 0%Z, 0%Z) items.

(** [for idx, item in enumerate(items): ...] of the general branch. *)
Definition convert_items (cat_id : Z) (cat_name : pystr)
    (mapping : pystr * option pystr * option pystr) (items : list RawItem)
  : list DhikrJSON :=
  let '(source_type, category, hisn_category) := mapping in
  imap (λ idx item,
          convert_item cat_id cat_name item (Z.of_nat idx)
            category hisn_category source_type) items.

(** One iteration of [for cat in source_data]. *)
Definition convert_category (all_athkar : list DhikrJSON)
    (cat : SourceCategory) : list DhikrJSON :=
  match CATEGORY_MAP !! cat_id cat with
  | None => all_athkar
  | Some mapping =>
      if bool_decide (cat_id cat = 1%Z)
      then (split_items (cat_id cat) (array cat) all_athkar).1.1
      else all_athkar
             ++ convert_items (cat_id cat) (cat_name cat) mapping (array cat)
  end.

(** [main] up to [all_athkar], the list written to the output file. *)
Definition main (source_data : list SourceCategory) : list DhikrJSON :=
  foldl convert_category [] source_data.

End convert_adhkar.

(** ** sync_official_data.py *)

Module sync_official_data.

Definition clean_text (text : pystr) : pystr :=
  match text with
  | [] => []
  | _ => Py.strip (Py.join [32%N] (Py.split (Py.remove_char 1757%N text)))
  end.

(** A category of the index once its content has been fetched: the id
    [int(cat['ID'])], the title, and the items of the content document
    ([None] when [fetch_json] returned nothing). *)
Record IndexEntry := {
  cid : Z;
  ctitle : pystr;
  content : option (list RemoteItem)
}.

(** An entry of the [categories] list of [hisn.json]. *)
Record HisnCategory := { hc_id : pystr; hc_name : pystr; hc_icon : pystr }.

Definition daily_mapping : gmap Z (list pystr) :=
  list_to_map
    [(27%Z, [py "morning"; py "evening"]); (28%Z, [py "sleep"]);
     (1%Z, [py "waking"]); (25%Z, [py "after_prayer"])].

(** The [try: int(item.get('REPEAT', 1)) except: 1] block. *)
Definition rep_val_of (item : RemoteItem) : Z :=
  match PyInt.int (default (JInt 1) (REPEAT item)) with
  | Ok rep_val => rep_val
  | Raise _ => 1%Z
  end.

(** The keywords that steer the split of category 27. *)
Definition kw_sabah : pystr := [1589; 1576; 1575; 1581]%N.
Definition kw_asbah : pystr := [1571; 1589; 1576; 1581]%N.
Definition kw_masa : pystr := [1605; 1587; 1575]%N.
Definition kw_ams : pystr := [1571; 1605; 1587]%N.

Definition with_category (c : pystr) (d : TextRecord) : TextRecord :=
  {| id := id d; category := c; title := title d; text := text d;
     reference := reference d; repeat := repeat d;
     orderIndex := orderIndex d; benefit := benefit d;
     grading := grading d; isOptional := isOptional d |}.

Definition with_id (new_id : pystr) (d : TextRecord) : TextRecord :=
  {| id := new_id; category := category d; title := title d; text := text d;
     reference := reference d; repeat := repeat d;
     orderIndex := orderIndex d; benefit := benefit d;
     grading := grading d; isOptional := isOptional d |}.

(** [dhikr_obj] as built at lines 73-97, its category still empty. *)
Definition dhikr_obj_of (cid : Z) (ctitle : pystr) (n_items idx : nat)
    (item : RemoteItem) : TextRecord :=
  let dhikr_id :=
    py "sync-" ++ Py.str_of_int cid ++ py "-" ++ Py.format_03d (Z.of_nat idx) in
  let text := clean_text (default [] (ARABIC_TEXT item)) in
  let rep_val := rep_val_of item in
  {| id := dhikr_id;
     category := [];
     title := if n_items =? 1 then ctitle
              else ctitle ++ py " (" ++ Py.str_of_int (Z.of_nat idx + 1)
                     ++ py ")";
     text := text;
     reference := default [] (REFERENCE item);
     repeat := {| rmin := rep_val; rmax := rep_val; note := None |};
     orderIndex := Z.of_nat idx + 1;
     benefit := None;
     grading := py "sahih";
     isOptional := false |}.

(** The records that one item of category 27 adds to [final_daily]
    (lines 109-124). *)
Definition split_27 (dhikr_obj : TextRecord) : list TextRecord :=
  let text := text dhikr_obj in
  if Py.contains kw_sabah text || Py.contains kw_asbah text
  then [with_category (py "morning") dhikr_obj]
  else if Py.contains kw_masa text || Py.contains kw_ams text
  then [with_category (py "evening") dhikr_obj]
  else [with_id (id dhikr_obj ++ py "-m")
          (with_category (py "morning") dhikr_obj);
        with_id (id dhikr_obj ++ py "-e")
          (with_category (py "evening") dhikr_obj)].

(** What one item adds to [final_daily] and to [final_hisn_duas]
    (lines 71-130). *)
Definition sync_item (cid : Z) (ctitle : pystr) (n_items idx : nat)
    (item : RemoteItem) : list TextRecord * list TextRecord :=
  let dhikr_obj := dhikr_obj_of cid ctitle n_items idx item in
  match daily_mapping !! cid with
  | Some target_cats =>
      if bool_decide (cid = 27%Z) then (split_27 dhikr_obj, [])
      else ([with_category (default [] (head target_cats)) dhikr_obj], [])
  | None =>
      ([], [with_category (py "cat-" ++ Py.str_of_int cid) dhikr_obj])
  end.

(** The three output lists. *)
Record output := {
  final_daily : list TextRecord;
  final_hisn_duas : list TextRecord;
  final_hisn_categories : list HisnCategory
}.

(** One iteration of [for cat in categories]. *)
Definition sync_category (out : output) (cat : IndexEntry) : output :=
  match content cat with
  | None => out
  | Some items =>
      let cats :=
        match daily_mapping !! cid cat with
        | Some _ => final_hisn_categories out
        | None =>
            final_hisn_categories out
              ++ [{| hc_id := py "hisn-cat-" ++ Py.str_of_int (cid cat);
                     hc_name := ctitle cat;
                     hc_icon := py "leaf.fill" |}]
        end in
      let added :=
        imap (sync_item (cid cat) (ctitle cat) (length items)) items in
      {| final_daily := final_daily out ++ concat (fst <$> added);
         final_hisn_duas := final_hisn_duas out ++ concat (snd <$> added);
         final_hisn_categories := cats |}
  end.

(** [run_sync] up to the three lists written to the two files. *)
Definition run_sync (categories : list IndexEntry) : output :=
  foldl sync_category
    {| final_daily := []; final_hisn_duas := [];
       final_hisn_categories := [] |} categories.

End sync_official_data.

(** ** smart_deduplicate.py *)

Module smart_deduplicate.

Definition essential_keywords : list pystr :=
  [[1570; 1610; 1577; 32; 1575; 1604; 1603; 1585; 1587; 1610];
   [1602; 1615; 1604; 1618; 32; 1607; 1615; 1608; 1614; 32; 1575; 1604;
    1604; 1614; 1617; 1607; 1615; 32; 1571; 1614; 1581; 1614; 1583; 1612];
   [1602; 1615; 1604; 1618; 32; 1571; 1614; 1593; 1615; 1608; 1584; 1615;
    32; 1576; 1616; 1585; 1614; 1576; 1616; 1617; 32; 1575; 1604; 1618;
    1601; 1614; 1604; 1614; 1602; 1616];
   [1602; 1615; 1604; 1618; 32; 1571; 1614; 1593; 1615; 1608; 1584; 1615;
    32; 1576; 1616; 1585; 1614; 1576; 1616; 1617; 32; 1575; 1604; 1606;
    1614; 1617; 1575; 1587; 1616];
   [1587; 1610; 1583; 32; 1575; 1604; 1575; 1587; 1578; 1594; 1601; 1575;
    1585];
   [1571; 1614; 1589; 1618; 1576; 1614; 1581; 1618; 1606; 1614; 1575; 32;
    1608; 1614; 1571; 1614; 1589; 1618; 1576; 1614; 1581; 1614; 32; 1575;
    1604; 1618; 1605; 1615; 1604; 1618; 1603; 1615];
   [1571; 1614; 1605; 1618; 1587; 1614; 1610; 1618; 1606; 1614; 1575; 32;
    1608; 1614; 1571; 1614; 1605; 1618; 1587; 1614; 1609; 32; 1575; 1604;
    1618; 1605; 1615; 1604; 1618; 1603; 1615]]%N.

Definition is_essential (item : TextRecord) : bool :=
  existsb (λ keyword,
             Py.contains keyword (title item) || Py.contains keyword (text item))
          essential_keywords.

(** [item['text'][:100]]. *)
Definition text_key (item : TextRecord) : pystr := take 100 (text item).

(** [text_groups[text_key].append(item)], creating the group at the end of
    the dict when the key is new.  The dict is kept in insertion order. *)
Fixpoint add_to_group (key : pystr) (item : TextRecord)
    (text_groups : list (pystr * list TextRecord))
  : list (pystr * list TextRecord) :=
  match text_groups with
  | [] => [(key, [item])]
  | (k, items) :: rest =>
      if bool_decide (k = key) then (k, items ++ [item]) :: rest
      else (k, items) :: add_to_group key item rest
  end.

Definition group_by_text (athkar : list TextRecord)
  : list (pystr * list TextRecord) :=
  foldl (λ text_groups item, add_to_group (text_key item) item text_groups)
        [] athkar.

(** What one group contributes to [deduplicated] (lines 48-66).  A group
    is never empty. *)
Definition keep (items : list TextRecord) : list TextRecord :=
  match items with
  | [] => []
  | [only] => [only]
  | first :: _ =>
      if is_essential first then items
      else match find (λ i, bool_decide (category i = py "morning")) items with
           | Some morning_item => [morning_item]
           | None => [first]
           end
  end.

Definition deduplicated (athkar : list TextRecord) : list TextRecord :=
  foldl (λ acc group, acc ++ keep group.2) [] (group_by_text athkar).

(** Tuple comparison [(category, orderIndex) < (category, orderIndex)]. *)
Definition key_lt (x y : TextRecord) : bool :=
  if bool_decide (category x = category y)
  then (orderIndex x <? orderIndex y)%Z
  else Py.str_lt (category x) (category y).

(** [smart_deduplicate] up to the list written back to the file. *)
Definition smart_deduplicate (athkar : list TextRecord) : list TextRecord :=
  PySort.sort key_lt (deduplicated athkar).

End smart_deduplicate.

(** ** generate_revision_html.py *)

Module generate_revision_html.

(** [{c['id']: c['name'] for c in hisn_data.get('categories', [])}]: a
    later entry replaces an earlier one with the same id. *)
Definition hisn_cats (categories : list sync_official_data.HisnCategory)
  : gmap pystr pystr :=
  foldl (λ (m : gmap pystr pystr) c,
           <[sync_official_data.hc_id c := sync_official_data.hc_name c]> m)
        ∅ categories.

Definition daily_cat_names : gmap pystr pystr :=
  list_to_map
    [(py "morning",
      [1571; 1584; 1603; 1575; 1585; 32; 1575; 1604; 1589; 1576; 1575;
       1581]%N);
     (py "evening",
      [1571; 1584; 1603; 1575; 1585; 32; 1575; 1604; 1605; 1587; 1575;
       1569]%N);
     (py "after_prayer",
      [1571; 1584; 1603; 1575; 1585; 32; 1576; 1593; 1583; 32; 1575; 1604;
       1589; 1604; 1575; 1577]%N);
     (py "sleep",
      [1571; 1584; 1603; 1575; 1585; 32; 1575; 1604; 1606; 1608; 1605]%N);
     (py "waking",
      [1575; 1604; 1575; 1587; 1578; 1610; 1602; 1575; 1592; 32; 1605; 1606;
       32; 1575; 1604; 1606; 1608; 1605]%N)].

(** The five cells of a table row. *)
Record row := {
  cat_name : pystr;
  row_title : pystr;
  row_text : pystr;
  row_repeat : Z;
  row_reference : pystr
}.

(** The body of the two loops (lines 67-77 and 80-90): the display name
    is [names.get(item['category'], item['category'])]. *)
Definition row_of (names : gmap pystr pystr) (item : TextRecord) : row :=
  {| cat_name := default (category item) (names !! category item);
     row_title := title item;
     row_text := text item;
     row_repeat := rmax (repeat item);
     row_reference := reference item |}.

(** The rows of the table, daily records first. *)
Definition rows (daily_data hisn_duas : list TextRecord)
    (categories : list sync_official_data.HisnCategory) : list row :=
  (row_of daily_cat_names <$> daily_data)
  ++ (row_of (hisn_cats categories) <$> hisn_duas).

End generate_revision_html.

(** * Vocabulary of the statements *)

(** What [b2j] knows about the sequence [l]: every key lists exactly the
    positions of that element, in ascending order. *)
Definition b2j_spec (m : gmap N (list nat)) (l : pystr) : Prop :=
  ∀ c, match m !! c with
       | Some idxs =>
           idxs ≠ [] ∧ StronglySorted lt idxs ∧ ∀ j, j ∈ idxs ↔ l !! j = Some c
       | None => ∀ j, l !! j ≠ Some c
       end.

(** The length the inner loop assigns to column [j]. *)
Definition kf (j2len : gmap nat nat) (j : nat) : nat :=
  difflib.j2lenget_pred j2len j + 1.

Definition row_best (i : nat) (j2len : gmap nat nat) (best : difflib.Match)
    (j : nat) : difflib.Match :=
  if best.2 <? kf j2len j
  then (i + 1 - kf j2len j, j + 1 - kf j2len j, kf j2len j) else best.

(** Position [i] of [x] holds an element that [b2j] still indexes. *)
Definition indexed (x : pystr) (i : nat) : bool :=
  match x !! i with
  | Some c => bool_decide (is_Some (difflib.b2j x !! c))
  | None => false
  end.

(** Length of the run of indexed positions that ends at [i]. *)
Fixpoint run (x : pystr) (i : nat) : nat :=
  if indexed x i
  then S (match i with 0 => 0 | S i' => run x i' end)
  else 0.

(** The columns visited in row [i]. *)
Definition columns (x : pystr) (i : nat) : list nat :=
  default [] (c ← x !! i; difflib.b2j x !! c).

(** The two invariants of the outer loop, before row [i]: [j2len] is the
    row above, [best] the best match so far. *)
Definition row_inv (x : pystr) (i : nat) (j2len : gmap nat nat) : Prop :=
  (∀ j v, j2len !! j = Some v →
          1 ≤ v ∧ v ≤ run x j ∧ ∃ i', i = S i' ∧ v ≤ run x i') ∧
  (∀ i', i = S i' → 0 < run x i' → j2len !! i' = Some (run x i')).

Definition best_inv (x : pystr) (i : nat) (best : difflib.Match) : Prop :=
  ∃ p s, best = (p, p, s) ∧ p + s ≤ length x ∧ ∀ i', i' < i → run x i' ≤ s.

(** [j2len] before row [i]: lengths fit between the window's lower corner
    and the entry. *)
Definition window_row (alo blo : nat) (i : nat) (j2len : gmap nat nat)
  : Prop :=
  ∀ j v, j2len !! j = Some v → v + alo ≤ i ∧ v + blo ≤ j + 1 ∧ blo ≤ j.

Definition in_window (alo ahi blo bhi : nat) (m : difflib.Match) : Prop :=
  alo ≤ m.1.1 ∧ m.1.1 + m.2 ≤ ahi ∧ blo ≤ m.1.2 ∧ m.1.2 + m.2 ≤ bhi.

Definition window_size (w : nat * nat * nat * nat) : nat :=
  let '(alo, ahi, blo, bhi) := w in 2 * ((ahi - alo) + (bhi - blo)) + 1.

Definition window_ok (w : nat * nat * nat * nat) : Prop :=
  let '(alo, ahi, blo, bhi) := w in alo ≤ ahi ∧ blo ≤ bhi.

Definition queue_size (queue : list (nat * nat * nat * nat)) : nat :=
  foldr (λ w n, window_size w + n) 0 queue.

(** Two texts that differ only in whitespace runs or in occurrences of
    the marker: the closure of the five elementary differences below. *)
Inductive ws_marker_step : pystr → pystr → Prop :=
  | step_marker u v :
      ws_marker_step (u ++ v) (u ++ compare_api.marker :: v)
  | step_space_kind u w w' v :
      Py.isspace w = true → Py.isspace w' = true →
      ws_marker_step (u ++ w :: v) (u ++ w' :: v)
  | step_space_longer u w w' v :
      Py.isspace w = true → Py.isspace w' = true →
      ws_marker_step (u ++ w :: v) (u ++ w :: w' :: v)
  | step_space_leading w v :
      Py.isspace w = true → ws_marker_step v (w :: v)
  | step_space_trailing u w :
      Py.isspace w = true → ws_marker_step u (u ++ [w]).

Definition differ_only_ws_marker : pystr → pystr → Prop :=
  rtsc ws_marker_step.

(** The score of a local record against a cleaned remote text: the ratio
    computed at line 66 of compare_api.py. *)
Definition score (r_text : pystr) (l : TextRecord) : Q :=
  compare_api.similar (take 200 r_text)
    (take 200 (compare_api.clean_text (text l))).

(** A record with the given text and repeat count, for examples. *)
Definition sample_record (t : pystr) (cat : pystr) (idx rep : Z) : TextRecord :=
  {| id := py "sample"; category := cat; title := []; text := t;
     reference := []; repeat := {| rmin := rep; rmax := rep; note := None |};
     orderIndex := idx; benefit := None; grading := py "sahih";
     isOptional := false |}.

(** A remote item with the given text and [REPEAT] field. *)
Definition sample_remote (t : pystr) (rep : option jval) : RemoteItem :=
  {| TITLE := None; ARABIC_TEXT := Some t; REPEAT := rep; REFERENCE := None |}.

(** The text of the scenario of the specification. *)
Definition asbahna : pystr :=
  [1571; 1614; 1589; 1618; 1576; 1614; 1581; 1618; 1606; 1614; 1575; 32;
   1608; 1614; 1571; 1614; 1589; 1618; 1576; 1614; 1581; 1614]%N.

(** [idxs] are the numbers 1, 2, ..., n in some order: unique and
    contiguous, starting at 1. *)
Definition contiguous_from_1 (idxs : list Z) : Prop :=
  idxs ≡ₚ seqZ 1 (Z.of_nat (length idxs)).

(** The records of a collection that carry the category [c]. *)
Definition branch (c : pystr) (l : list convert_adhkar.DhikrJSON)
  : list convert_adhkar.DhikrJSON :=
  filter (λ r, convert_adhkar.category r = Some c) l.

(** An item of the raw conversion source, for examples. *)
Definition sample_item (n : Z) (t : pystr) (c : option Z)
  : convert_adhkar.RawItem :=
  {| convert_adhkar.item_id := n; convert_adhkar.item_text := t;
     convert_adhkar.count := c |}.

(** What the split adds for one item. *)
Definition split_entry_ok (cid : Z) (item : convert_adhkar.RawItem)
    (r : convert_adhkar.DhikrJSON) : Prop :=
  convert_adhkar.text r = convert_adhkar.item_text item
  ∧ convert_adhkar.repeat r = {| rmin := default 1%Z (convert_adhkar.count item);
                  rmax := default 1%Z (convert_adhkar.count item); note := None |}
  ∧ convert_adhkar.hisnCategory r = None ∧ convert_adhkar.source r = py "daily"
  ∧ ∃ cls, convert_adhkar.category r = Some cls
           ∧ convert_adhkar.id r = convert_adhkar.make_id cid (convert_adhkar.item_id item - 1) (Some (take 1 cls)).

(** A record with a title, for examples. *)
Definition sample_titled (ttl t cat : pystr) (idx : Z) : TextRecord :=
  {| id := py "sample"; category := cat; title := ttl; text := t;
     reference := []; repeat := {| rmin := 1; rmax := 1; note := None |};
     orderIndex := idx; benefit := None; grading := py "sahih";
     isOptional := false |}.

(** The title "آية الكرسي", the first of the essential markers. *)
Definition ayat_al_kursi : pystr :=
  [1570; 1610; 1577; 32; 1575; 1604; 1603; 1585; 1587; 1610]%N.

(** The members of a collection that share the key [k]. *)
Definition with_key (k : pystr) (l : list TextRecord) : list TextRecord :=
  filter (λ x, smart_deduplicate.text_key x = k) l.

(** The sort key of the final [sort]. *)
Definition sort_key (x : TextRecord) : pystr * Z := (category x, orderIndex x).

(** The groups after the records [l] have been read. *)
Definition groups_of (g : list (pystr * list TextRecord)) (l : list TextRecord)
  : Prop :=
  NoDup g.*1
  ∧ (∀ x, x ∈ l → smart_deduplicate.text_key x ∈ g.*1)
  ∧ ∀ k items, (k, items) ∈ g → items = with_key k l ∧ items ≠ [].

(** [x] may stand before [y]: [y] is not smaller. *)
Definition not_after {A} (lt : A → A → bool) (x y : A) : Prop :=
  lt y x = false.

(** [key_lt] is the strict lexicographic order of the sort keys. *)
Definition key_before (a b : pystr * Z) : Prop :=
  Py.str_lt a.1 b.1 = true ∨ (a.1 = b.1 ∧ (a.2 < b.2)%Z).

(** Number of matched elements of a list of blocks. *)
Definition block_sum (blocks : list difflib.Match) : nat :=
  foldr (λ t s, t.2 + s) 0 blocks.

(** Elements of [a] and of [b] that the windows of the work list cover. *)
Definition a_width (queue : list (nat * nat * nat * nat)) : nat :=
  foldr (λ w n, (w.1.1.2 - w.1.1.1) + n) 0 queue.

Definition b_width (queue : list (nat * nat * nat * nat)) : nat :=
  foldr (λ w n, (w.2 - w.1.2) + n) 0 queue.

(** A word of a cleaned text: not empty, free of whitespace and of the
    marker. *)
Definition clean_word (w : pystr) : Prop :=
  w ≠ [] ∧ Forall (λ c, Py.isspace c = false ∧ c ≠ compare_api.marker) w.

(** The three status labels of the report. *)
Definition statuses : list pystr :=
  [py "Repeat Mismatch"; py "Potential Mismatch"; py "Missing"].

(** The remote items that a run compares, in order, each with the display
    name of its category: the items of the documents that were fetched. *)
Definition fetched (fetch : Z → option (list RemoteItem))
    (cats : list (Z * pystr)) : list (pystr * RemoteItem) :=
  concat ((λ c : Z * pystr, (λ i, (c.2, i)) <$> default [] (fetch c.1))
            <$> cats).

(** A report row written for a remote item of a category. *)
Definition row_for (src : pystr * RemoteItem) (r : compare_api.report_item)
  : Prop :=
  compare_api.rcategory r = src.1
  ∧ compare_api.rtitle r = default [] (TITLE src.2)
  ∧ compare_api.status r ∈ statuses.

(** A local record that the remote item matches: its score is above
    0.85. *)
Definition matches (r_item : RemoteItem) (l : TextRecord) : Prop :=
  (85 # 100
   < score (compare_api.clean_text (default [] (ARABIC_TEXT r_item))) l)%Q.

(** The decimal digits of [str_of_N], as a function of its own. *)
Fixpoint digits_of_uint (u : Decimal.uint) : pystr :=
  match u with
  | Decimal.Nil => []
  | Decimal.D0 u => 48%N :: digits_of_uint u
  | Decimal.D1 u => 49%N :: digits_of_uint u
  | Decimal.D2 u => 50%N :: digits_of_uint u
  | Decimal.D3 u => 51%N :: digits_of_uint u
  | Decimal.D4 u => 52%N :: digits_of_uint u
  | Decimal.D5 u => 53%N :: digits_of_uint u
  | Decimal.D6 u => 54%N :: digits_of_uint u
  | Decimal.D7 u => 55%N :: digits_of_uint u
  | Decimal.D8 u => 56%N :: digits_of_uint u
  | Decimal.D9 u => 57%N :: digits_of_uint u
  end.

(** Reading digits back. *)
Fixpoint uint_of_digits (s : pystr) : Decimal.uint :=
  match s with
  | [] => Decimal.Nil
  | c :: s =>
      match (c - 48)%N with
      | 0%N => Decimal.D0 (uint_of_digits s)
      | 1%N => Decimal.D1 (uint_of_digits s)
      | 2%N => Decimal.D2 (uint_of_digits s)
      | 3%N => Decimal.D3 (uint_of_digits s)
      | 4%N => Decimal.D4 (uint_of_digits s)
      | 5%N => Decimal.D5 (uint_of_digits s)
      | 6%N => Decimal.D6 (uint_of_digits s)
      | 7%N => Decimal.D7 (uint_of_digits s)
      | 8%N => Decimal.D8 (uint_of_digits s)
      | _ => Decimal.D9 (uint_of_digits s)
      end
  end.

Definition is_digit (c : N) : Prop := (48 <= c <= 57)%N.

(** A string that does not go on with a digit. *)
Definition no_digit_ahead (r : pystr) : Prop :=
  match r with
  | [] => True
  | c :: _ => ¬ is_digit c
  end.

(** A decimal numeral as the scripts print it: an optional minus sign and
    a non-empty run of digits. *)
Definition numeral (s : pystr) : Prop :=
  ∃ sg ds, s = sg ++ ds ∧ (sg = [] ∨ sg = [45%N]) ∧ ds ≠ []
           ∧ Forall is_digit ds.

(** What [make_id] appends for a suffix. *)
Definition id_suffix (suffix : option pystr) : pystr :=
  match suffix with
  | Some (c :: sfx) => 45%N :: c :: sfx
  | _ => []
  end.

(** The id of a record of a block names the block. *)
Definition from_block (cid : Z) (r : convert_adhkar.DhikrJSON) : Prop :=
  ∃ i s, convert_adhkar.id r = convert_adhkar.make_id cid i s.

(** The three lists before the first category. *)
Definition no_output : sync_official_data.output :=
  {| sync_official_data.final_daily := [];
     sync_official_data.final_hisn_duas := [];
     sync_official_data.final_hisn_categories := [] |}.

(** What one category of the index adds to the three lists. *)
Definition category_output (cat : sync_official_data.IndexEntry)
  : sync_official_data.output :=
  sync_official_data.sync_category no_output cat.

(** The categories of the daily file. *)
Definition daily_categories : list pystr :=
  [py "morning"; py "evening"; py "sleep"; py "waking"; py "after_prayer"].

(** What every synchronised record satisfies, whatever the remote
    document held. *)
Definition sync_record_ok (r : TextRecord) : Prop :=
  rmin (repeat r) = rmax (repeat r)
  ∧ note (repeat r) = None
  ∧ (1 <= orderIndex r)%Z
  ∧ sync_official_data.clean_text (text r) = text r
  ∧ benefit r = None ∧ grading r = py "sahih" ∧ isOptional r = false.

(** The id of the record of item [idx] of category [cid], with what
    follows the index. *)
Definition sync_id (cid : Z) (idx : nat) (sfx : pystr) : pystr :=
  py "sync-" ++ Py.str_of_int cid
    ++ 45%N :: Py.format_03d (Z.of_nat idx) ++ sfx.

(** A record made for item [idx] of category [cid]. *)
Definition sync_record_of (cid : Z) (idx : nat) (r : TextRecord) : Prop :=
  ∃ sfx, id r = sync_id cid idx sfx ∧ no_digit_ahead sfx.

(** The entry of the category list made for a category of the index. *)
Definition hisn_category_of (cat : sync_official_data.IndexEntry)
  : sync_official_data.HisnCategory :=
  {| sync_official_data.hc_id :=
       py "hisn-cat-" ++ Py.str_of_int (sync_official_data.cid cat);
     sync_official_data.hc_name := sync_official_data.ctitle cat;
     sync_official_data.hc_icon := py "leaf.fill" |}.

(** A category of the index that goes to the library: its content was
    fetched and its id is not one of the daily ids. *)
Definition library_category (cat : sync_official_data.IndexEntry) : bool :=
  match sync_official_data.content cat,
        sync_official_data.daily_mapping !! sync_official_data.cid cat with
  | Some _, None => true
  | _, _ => false
  end.

(** Two strings without a common character. *)
Definition no_common (a b : pystr) : Prop := ∀ c, c ∈ a → c ∉ b.

(** * Properties *)

(** ** The Python layer on examples taken from the interpreter *)

Example py_split_ex :
  Py.split (py "  ab  c ") = [py "ab"; py "c"].
Proof. reflexivity. Qed.

Example py_format_ex :
  Py.format_03d 5 = py "005" ∧ Py.format_03d (-1) = py "-01" ∧
  Py.format_03d 1234 = py "1234" ∧ Py.str_of_int (-120) = py "-120" ∧
  Py.str_of_int 0 = py "0".
Proof. repeat split; reflexivity. Qed.

Example py_int_ex :
  PyInt.int_of_str [1635%N] = Ok 3%Z ∧
  PyInt.int_of_str (py " 1_0 ") = Ok 10%Z ∧
  PyInt.int_of_str (py "1__0") = Raise ValueError ∧
  PyInt.int_of_str (py "_1") = Raise ValueError ∧
  PyInt.int_of_str (py "1_") = Raise ValueError ∧
  PyInt.int_of_str (py "+5") = Ok 5%Z ∧
  PyInt.int_of_str (45%N :: [1635%N]) = Ok (-3)%Z ∧
  PyInt.int_of_str (py "") = Raise ValueError ∧
  PyInt.int_of_str (py "+ 5") = Raise ValueError ∧
  PyInt.int_of_str (py "0x10") = Raise ValueError ∧
  PyInt.int_of_str (py "007") = Ok 7%Z ∧
  PyInt.int_of_str (py "abc") = Raise ValueError ∧
  PyInt.int_of_str (28%N :: py "1") = Raise ValueError.
Proof. repeat split; reflexivity. Qed.

Example difflib_ratio_ex :
  difflib.ratio (py "abcd") (py "bcde") = (6 # 8)%Q ∧
  difflib.get_matching_blocks (py "abxcd") (py "abcd")
    = Some [(0, 0, 2); (3, 2, 2); (5, 4, 0)] ∧
  difflib.find_longest_match (py " abcd") (py "abcd abcd") 0 5 0 9 = (0, 4, 5).
Proof. repeat split; vm_compute; reflexivity. Qed.

(** ** Facts about the index [b2j] *)

Lemma b2j_all_spec (l : pystr) : b2j_spec (difflib.b2j_all l) l.
Proof.
  unfold difflib.b2j_all.
  induction l as [|x l IH] using rev_ind; intros c.
  - simpl. rewrite lookup_empty. intros j. by rewrite lookup_nil.
  - rewrite imap_app. cbn [imap]. rewrite foldl_snoc. cbn beta iota.
    rewrite Nat.add_0_r.
    set (m := foldl _ ∅ (imap pair l)) in *.
    destruct (decide (x = c)) as [->|Hne].
    + rewrite lookup_insert_eq. specialize (IH c).
      destruct (m !! c) as [idxs|] eqn:Hm; simpl.
      * destruct IH as (Hnil & Hsort & Hmem). split_and!.
        -- by destruct idxs.
        -- apply StronglySorted_app_2; [|done|repeat constructor].
           intros j1 j2 Hj1 ->%list_elem_of_singleton.
           apply Hmem in Hj1. by apply lookup_lt_Some in Hj1.
        -- intros j. rewrite elem_of_app, list_elem_of_singleton, Hmem.
           rewrite lookup_snoc_Some. split.
           ++ intros [H| ->]; [left|right; done].
              split; [by apply lookup_lt_Some in H|done].
           ++ intros [[_ H]|[-> _]]; auto.
      * split_and!; [done|repeat constructor|].
        intros j. rewrite list_elem_of_singleton, lookup_snoc_Some. split.
        -- intros ->. by right.
        -- intros [[_ H]|[-> _]]; [|done]. by apply IH in H.
    + rewrite lookup_insert_ne by done. specialize (IH c).
      destruct (m !! c) as [idxs|] eqn:Hm.
      * destruct IH as (Hnil & Hsort & Hmem). split_and!; [done..|].
        intros j. rewrite Hmem, lookup_snoc_Some. split.
        -- intros H. left. split; [by apply lookup_lt_Some in H|done].
        -- intros [[_ H]|[_ ?]]; done.
      * intros j. rewrite lookup_snoc_Some.
        intros [[_ H]|[_ ?]]; [by apply IH in H|done].
Qed.

(** After the purge of popular elements a key that is still present has
    kept its list. *)
Lemma b2j_lookup_Some (l : pystr) c idxs :
  difflib.b2j l !! c = Some idxs →
  idxs ≠ [] ∧ StronglySorted lt idxs ∧ ∀ j, j ∈ idxs ↔ l !! j = Some c.
Proof.
  unfold difflib.b2j. intros [Hm _]%map_lookup_filter_Some.
  pose proof (b2j_all_spec l c) as H. by rewrite Hm in H.
Qed.

(** ** [find_longest_match] as two folds *)

Lemma flm_row_fold bhi i j2len js nm best :
  Forall (λ j, j < bhi) js →
  difflib.flm_row 0 bhi i j2len js nm best
  = (foldl (λ m j, <[j := kf j2len j]> m) nm js,
     foldl (row_best i j2len) best js).
Proof.
  intros Hjs. revert nm best.
  induction Hjs as [|j js Hj _ IH]; intros nm best; [done|].
  cbn [difflib.flm_row foldl].
  replace (j <? 0) with false by (symmetry; apply Nat.ltb_ge; lia).
  replace (bhi <=? j) with false by (symmetry; apply Nat.leb_gt; lia).
  by rewrite IH.
Qed.

Lemma foldl_insert_lookup (f : nat → nat) js (nm : gmap nat nat) j :
  foldl (λ m j, <[j := f j]> m) nm js !! j
  = if bool_decide (j ∈ js) then Some (f j) else nm !! j.
Proof.
  revert nm. induction js as [|j' js IH]; intros nm; cbn [foldl].
  - case_bool_decide as H; [by apply elem_of_nil in H|done].
  - rewrite IH. destruct (decide (j = j')) as [->|Hne].
    + rewrite (bool_decide_eq_true_2 (j' ∈ j' :: js)) by left.
      rewrite lookup_insert_eq. by case_bool_decide.
    + rewrite lookup_insert_ne by done.
      repeat case_bool_decide; try done.
      * exfalso. apply H0. by right.
      * exfalso. apply elem_of_cons in H0 as [?|?]; done.
Qed.

(** ** A sequence matched against itself *)

Section self_match.

Variable x : pystr.

Lemma run_le i : run x i ≤ S i.
Proof. induction i; simpl; destruct (indexed x _); lia. Qed.

Lemma run_indexed i : indexed x i = true →
  run x i = S (match i with 0 => 0 | S i' => run x i' end).
Proof. intros H. destruct i; simpl; by rewrite H. Qed.

Lemma run_not_indexed i : indexed x i = false → run x i = 0.
Proof. intros H. destruct i; simpl; by rewrite H. Qed.

Lemma columns_not_indexed i : indexed x i = false → columns x i = [].
Proof.
  unfold indexed, columns. destruct (x !! i) as [c|]; [|done]. simpl.
  destruct (difflib.b2j x !! c) eqn:Hc; [|done].
  rewrite bool_decide_eq_true_2; [done|eauto].
Qed.

Lemma columns_spec i :
  indexed x i = true →
  StronglySorted lt (columns x i) ∧ i ∈ columns x i ∧
  ∀ j, j ∈ columns x i → j < length x ∧ indexed x j = true.
Proof.
  unfold indexed, columns. destruct (x !! i) as [c|] eqn:Hi; [|done]. simpl.
  destruct (difflib.b2j x !! c) as [idxs|] eqn:Hc.
  - intros _. destruct (b2j_lookup_Some _ _ _ Hc) as (_ & Hs & Hm). simpl.
    split_and!; [done|by apply Hm|].
    intros j Hj%Hm. split; [by apply lookup_lt_Some in Hj|].
    rewrite Hj, Hc. apply bool_decide_eq_true_2. eauto.
  - intros H. apply bool_decide_eq_true_1 in H. by destruct H.
Qed.

Lemma kf_bounds i j2len j :
  row_inv x i j2len → indexed x i = true → indexed x j = true →
  1 ≤ kf j2len j ∧ kf j2len j ≤ run x j ∧ kf j2len j ≤ run x i.
Proof.
  intros [Hv _] Hi Hj. unfold kf, difflib.j2lenget_pred.
  rewrite (run_indexed i Hi), (run_indexed j Hj).
  destruct j as [|j']; [lia|].
  destruct (j2len !! j') as [v|] eqn:E; simpl; [|lia].
  destruct (Hv _ _ E) as (? & ? & i' & -> & ?). lia.
Qed.

Lemma kf_diag i j2len :
  row_inv x i j2len → indexed x i = true → kf j2len i = run x i.
Proof.
  intros [Hv Hd] Hi. unfold kf, difflib.j2lenget_pred.
  rewrite (run_indexed i Hi). destruct i as [|i']; [done|].
  destruct (decide (0 < run x i')) as [Hpos|Hz].
  - rewrite (Hd i' eq_refl Hpos). simpl. lia.
  - destruct (j2len !! i') as [v|] eqn:E; simpl; [|lia].
    destruct (Hv _ _ E) as (? & ? & _). lia.
Qed.

(** The best match stays on the diagonal along one row. *)
Lemma row_best_inv i j2len js best :
  row_inv x i j2len → indexed x i = true → i < length x →
  StronglySorted lt js →
  (∀ j, j ∈ js → indexed x j = true) →
  (∃ p s, best = (p, p, s) ∧ p + s ≤ length x ∧
          (∀ i', i' < i → run x i' ≤ s) ∧ (i ∈ js ∨ run x i ≤ s)) →
  best_inv x (S i) (foldl (row_best i j2len) best js).
Proof.
  intros Hrow Hi Hlt Hs. revert best.
  induction Hs as [|j js Hs IH Hall]; intros best Hjs (p & s & -> & Hps & Hold & Hcur).
  - exists p, s. split_and!; [done..|]. intros i' Hi'.
    destruct Hcur as [Hcur|Hcur]; [by apply elem_of_nil in Hcur|].
    destruct (decide (i' = i)) as [->|]; [done|]. apply Hold. lia.
  - cbn [foldl]. apply IH; [intros; apply Hjs; by right|].
    assert (Hj : indexed x j = true) by (apply Hjs; left).
    destruct (kf_bounds i j2len j Hrow Hi Hj) as (Hk1 & Hk2 & Hk3).
    unfold row_best. cbn [snd].
    destruct (decide (j = i)) as [->|Hne].
    + rewrite (kf_diag i j2len Hrow Hi) in *.
      pose proof (run_le i).
      destruct (Nat.ltb_spec s (run x i)).
      * eexists _, _. split; [done|]. split_and!; [lia| |right; lia].
        intros i' Hi'. specialize (Hold i' Hi'). lia.
      * exists p, s. split_and!; [done..|by right].
    + assert (kf j2len j ≤ s) as Hle.
      { destruct (decide (j < i)) as [Hji|Hji].
        - specialize (Hold j Hji). lia.
        - destruct Hcur as [Hcur|Hcur]; [|lia].
          apply elem_of_cons in Hcur as [->|Hin]; [done|].
          rewrite Forall_forall in Hall. specialize (Hall i Hin). lia. }
      replace (s <? kf j2len j) with false by (symmetry; apply Nat.ltb_ge; lia).
      exists p, s. split_and!; [done..|].
      destruct Hcur as [Hcur|Hcur]; [|by right].
      apply elem_of_cons in Hcur as [->|Hin]; [done|by left].
Qed.

(** One row of the outer loop keeps both invariants. *)
Lemma flm_row_inv i j2len best :
  i < length x → row_inv x i j2len → best_inv x i best →
  let r := difflib.flm_row 0 (length x) i j2len (columns x i) ∅ best in
  row_inv x (S i) r.1 ∧ best_inv x (S i) r.2.
Proof.
  intros Hlt Hrow Hbest. simpl.
  destruct (indexed x i) eqn:Hi.
  - destruct (columns_spec i Hi) as (Hs & Hin & Hcols).
    rewrite flm_row_fold by (apply Forall_forall; intros j Hj; by apply Hcols).
    cbn [fst snd]. split.
    + split.
      * intros j v. rewrite foldl_insert_lookup.
        case_bool_decide as Hj; [|by rewrite lookup_empty].
        intros [= <-].
        destruct (kf_bounds i j2len j Hrow Hi) as (? & ? & ?);
          [by apply Hcols|]. eauto.
      * intros i' [= <-] _. rewrite foldl_insert_lookup.
        rewrite bool_decide_eq_true_2 by done.
        by rewrite (kf_diag i j2len Hrow Hi).
    + apply row_best_inv; [done..|intros j Hj; by apply Hcols|].
      destruct Hbest as (p & s & -> & ? & ?). exists p, s. eauto.
  - rewrite (columns_not_indexed i Hi). cbn [difflib.flm_row fst snd]. split.
    + split; [intros j v; by rewrite lookup_empty|].
      intros i' [= <-]. rewrite (run_not_indexed i Hi). lia.
    + destruct Hbest as (p & s & -> & ? & Hold). exists p, s.
      split_and!; [done..|]. intros i' Hi'.
      destruct (decide (i' = i)) as [->|]; [|apply Hold; lia].
      rewrite (run_not_indexed i Hi). lia.
Qed.

Lemma flm_scan_inv m :
  m ≤ length x →
  let r :=
    foldl (λ '(j2len, best) i,
             difflib.flm_row 0 (length x) i j2len (columns x i) ∅ best)
          (∅, (0, 0, 0)) (seq 0 m) in
  row_inv x m r.1 ∧ best_inv x m r.2.
Proof.
  induction m as [|m IH]; intros Hm; cbv zeta.
  - simpl. split.
    + split; [intros j v; by rewrite lookup_empty|done].
    + exists 0, 0. split_and!; [done|lia|lia].
  - rewrite seq_S, foldl_snoc. specialize (IH ltac:(lia)). cbv zeta in IH.
    destruct (foldl _ _ (seq 0 m)) as [j2len best].
    destruct IH as [Hrow Hbest].
    apply flm_row_inv; [lia|done..].
Qed.

Lemma flm_scan_self :
  ∃ p s, (difflib.flm_scan x x 0 (length x) 0 (length x)).2 = (p, p, s)
         ∧ p + s ≤ length x.
Proof.
  unfold difflib.flm_scan. rewrite Nat.sub_0_r.
  destruct (flm_scan_inv (length x) (le_n _)) as [_ (p & s & Hb & Hps & _)].
  exists p, s. split; [|done]. exact Hb.
Qed.

End self_match.

(** ** The extension loops on the diagonal *)

Lemma junk_test_false (x : pystr) j :
  j < length x → difflib.junk_test x false j = true.
Proof.
  intros [y Hy]%lookup_lt_is_Some_2. unfold difflib.junk_test. by rewrite Hy.
Qed.

Lemma junk_test_true (x : pystr) j : difflib.junk_test x true j = false.
Proof. unfold difflib.junk_test. by destruct (x !! j). Qed.

Lemma elt_eq_diag (x : pystr) j : j < length x → difflib.elt_eq x x j j = true.
Proof.
  intros [y Hy]%lookup_lt_is_Some_2. unfold difflib.elt_eq. rewrite Hy.
  by apply bool_decide_eq_true_2.
Qed.

Lemma extend_left_diag (x : pystr) p s :
  p ≤ length x →
  difflib.extend_left x x false 0 0 p p s = (0, 0, s + p).
Proof.
  revert s. induction p as [|p IH]; intros s Hp; simpl.
  - by rewrite Nat.add_0_r.
  - rewrite Nat.sub_0_r, junk_test_false, elt_eq_diag by lia. simpl.
    rewrite IH by lia. f_equal. lia.
Qed.

Lemma extend_left_junk (x : pystr) alo blo p q s :
  difflib.extend_left x x true alo blo p q s = (p, q, s).
Proof.
  destruct p; simpl; [done|].
  by rewrite junk_test_true, andb_false_r.
Qed.

Lemma extend_right_junk (x : pystr) bhi p q room s :
  difflib.extend_right x x true bhi p q room s = s.
Proof.
  destruct room; simpl; [done|].
  by rewrite junk_test_true, andb_false_r.
Qed.

Lemma extend_right_diag (x : pystr) room s :
  s + room = length x →
  difflib.extend_right x x false (length x) 0 0 room s = length x.
Proof.
  revert s. induction room as [|room IH]; intros s Hs; simpl.
  - lia.
  - replace (s <? length x) with true by (symmetry; apply Nat.ltb_lt; lia).
    rewrite junk_test_false, elt_eq_diag by lia. simpl.
    apply IH. lia.
Qed.

Lemma find_longest_match_self (x : pystr) :
  difflib.find_longest_match x x 0 (length x) 0 (length x)
  = (0, 0, length x).
Proof.
  unfold difflib.find_longest_match.
  destruct (flm_scan_self x) as (p & s & -> & Hps).
  rewrite extend_left_diag by lia.
  rewrite extend_right_diag by lia.
  rewrite extend_left_junk, extend_right_junk. done.
Qed.

Lemma gmb_loop_self (x : pystr) fuel :
  difflib.gmb_loop x x (S fuel) [(0, length x, 0, length x)] []
  = Some (if length x =? 0 then [] else [(0, 0, length x)]).
Proof.
  cbn [difflib.gmb_loop]. rewrite find_longest_match_self.
  destruct (length x =? 0) eqn:E; [by destruct fuel|].
  rewrite Nat.ltb_irrefl. cbn [andb].
  replace (0 + length x <? length x) with false
    by (symmetry; apply Nat.ltb_ge; lia).
  cbn [andb]. by destruct fuel.
Qed.

Lemma get_matching_blocks_self (x : pystr) :
  difflib.get_matching_blocks x x
  = Some (if length x =? 0 then [(0, 0, 0)]
          else [(0, 0, length x); (length x, length x, 0)]).
Proof.
  unfold difflib.get_matching_blocks, difflib.gmb_fuel.
  replace (2 * (length x + length x) + 1) with (S (4 * length x)) by lia.
  rewrite gmb_loop_self.
  destruct (length x =? 0) eqn:E.
  - apply Nat.eqb_eq in E. rewrite E. done.
  - cbn. rewrite E. done.
Qed.

(** A sequence compared with itself has ratio one. *)
Lemma ratio_self (x : pystr) : (difflib.ratio x x == 1)%Q.
Proof.
  unfold difflib.ratio. rewrite get_matching_blocks_self.
  destruct (length x =? 0) eqn:E.
  - apply Nat.eqb_eq in E. rewrite E. done.
  - apply Nat.eqb_neq in E. cbn [foldr snd].
    unfold difflib.calculate_ratio.
    replace (length x + length x =? 0) with false
      by (symmetry; apply Nat.eqb_neq; lia).
    unfold Qeq. cbn [Qnum Qden].
    rewrite Z.mul_1_r, Z.mul_1_l.
    rewrite <- (Znat.positive_nat_Z (Pos.of_nat (length x + length x))).
    rewrite Nat2Pos.id by lia. f_equal. lia.
Qed.

(** ** [find_longest_match] stays inside its window *)

Section flm_bounds.

Variables a b : pystr.
Variables alo ahi blo bhi : nat.

Lemma flm_row_window i j2len js nm best :
  alo ≤ i → i < ahi →
  window_row alo blo i j2len → window_row alo blo (S i) nm → in_window alo ahi blo bhi best →
  let r := difflib.flm_row blo bhi i j2len js nm best in
  window_row alo blo (S i) r.1 ∧ in_window alo ahi blo bhi r.2.
Proof.
  intros Hlo Hhi Hrow. revert nm best.
  induction js as [|j js IH]; intros nm best Hnm Hbest; [done|].
  cbn [difflib.flm_row].
  destruct (Nat.ltb_spec j blo); [by apply IH|].
  destruct (Nat.leb_spec bhi j); [done|].
  assert (difflib.j2lenget_pred j2len j + 1 + alo ≤ S i ∧
          difflib.j2lenget_pred j2len j + 1 + blo ≤ j + 1) as [Hk1 Hk2].
  { unfold difflib.j2lenget_pred. destruct j as [|j']; [lia|].
    destruct (j2len !! j') as [v|] eqn:E; simpl; [|lia].
    destruct (Hrow _ _ E) as (? & ? & ?). lia. }
  apply IH.
  - intros j0 v. destruct (decide (j0 = j)) as [->|Hne].
    + rewrite lookup_insert_eq. intros [= <-]. lia.
    + rewrite lookup_insert_ne by done. apply Hnm.
  - destruct (_ <? _); [|done].
    unfold in_window. cbn [fst snd]. lia.
Qed.

Lemma flm_scan_window :
  alo ≤ ahi → blo ≤ bhi →
  in_window alo ahi blo bhi (difflib.flm_scan a b alo ahi blo bhi).2.
Proof.
  intros Ha Hb. unfold difflib.flm_scan.
  assert (∀ m, alo + m ≤ ahi →
            let r :=
              foldl (λ '(j2len, best) i,
                       difflib.flm_row blo bhi i j2len
                         (default [] (x ← a !! i; difflib.b2j b !! x)) ∅ best)
                    (∅, (alo, blo, 0)) (seq alo m) in
            window_row alo blo (alo + m) r.1 ∧ in_window alo ahi blo bhi r.2) as H.
  { induction m as [|m IH]; intros Hm; cbv zeta.
    - simpl. split; [intros j v; by rewrite lookup_empty|].
      unfold in_window. cbn [fst snd]. lia.
    - rewrite seq_S, foldl_snoc. specialize (IH ltac:(lia)). cbv zeta in IH.
      destruct (foldl _ _ (seq alo m)) as [j2len best].
      destruct IH as [Hrow Hbest]. replace (alo + S m) with (S (alo + m)) by lia.
      apply flm_row_window; [lia|lia|done| |done].
      intros j v. by rewrite lookup_empty. }
  apply (H (ahi - alo)). lia.
Qed.

Lemma extend_left_window junk p q s :
  alo ≤ p → blo ≤ q →
  let r := difflib.extend_left a b junk alo blo p q s in
  alo ≤ r.1.1 ∧ blo ≤ r.1.2 ∧ r.1.1 + r.2 = p + s ∧ r.1.2 + r.2 = q + s.
Proof.
  revert q s. induction p as [|p IH]; intros q s Hp Hq; simpl; [lia|].
  destruct (_ && _) eqn:E; [|simpl; lia].
  apply andb_prop in E as [E _]. apply andb_prop in E as [E _].
  apply andb_prop in E as [E1 E2].
  apply Nat.ltb_lt in E1. apply Nat.ltb_lt in E2.
  specialize (IH (q - 1) (s + 1) ltac:(lia) ltac:(lia)). simpl in IH. lia.
Qed.

Lemma extend_right_window junk p q room s :
  q + s ≤ bhi →
  let r := difflib.extend_right a b junk bhi p q room s in
  s ≤ r ∧ r ≤ s + room ∧ q + r ≤ bhi.
Proof.
  revert s. induction room as [|room IH]; intros s Hq; simpl; [lia|].
  destruct (_ && _) eqn:E; [|lia].
  apply andb_prop in E as [E _]. apply andb_prop in E as [E _].
  apply Nat.ltb_lt in E.
  specialize (IH (s + 1) ltac:(lia)). simpl in IH. lia.
Qed.

Lemma find_longest_match_window :
  alo ≤ ahi → blo ≤ bhi →
  in_window alo ahi blo bhi (difflib.find_longest_match a b alo ahi blo bhi).
Proof.
  intros Ha Hb. unfold difflib.find_longest_match.
  pose proof (flm_scan_window Ha Hb) as H0.
  destruct (difflib.flm_scan a b alo ahi blo bhi).2 as [[p q] s].
  unfold in_window in *. cbn [fst snd] in H0.
  pose proof (extend_left_window false p q s ltac:(lia) ltac:(lia)) as H1.
  destruct (difflib.extend_left a b false alo blo p q s) as [[p1 q1] s1].
  cbn [fst snd] in H1.
  pose proof (extend_right_window false p1 q1 (ahi - (p1 + s1)) s1 ltac:(lia))
    as H2.
  set (s2 := difflib.extend_right a b false bhi p1 q1 _ s1) in *.
  cbv zeta in H2.
  pose proof (extend_left_window true p1 q1 s2 ltac:(lia) ltac:(lia)) as H3.
  destruct (difflib.extend_left a b true alo blo p1 q1 s2) as [[p3 q3] s3].
  cbn [fst snd] in H3.
  pose proof (extend_right_window true p3 q3 (ahi - (p3 + s3)) s3 ltac:(lia))
    as H4.
  set (s4 := difflib.extend_right a b true bhi p3 q3 _ s3) in *.
  cbv zeta in H4. cbn [fst snd]. lia.
Qed.

End flm_bounds.

(** ** The work list of [get_matching_blocks] empties *)

Lemma gmb_loop_terminates (a b : pystr) fuel queue blocks :
  Forall window_ok queue →
  queue_size queue ≤ fuel →
  is_Some (difflib.gmb_loop a b fuel queue blocks).
Proof.
  revert queue blocks.
  induction fuel as [|fuel IH]; intros queue blocks Hok Hfuel.
  - destruct queue as [|[[[alo ahi] blo] bhi] queue]; [by eexists|].
    simpl in Hfuel. lia.
  - destruct queue as [|[[[alo ahi] blo] bhi] queue]; [by eexists|].
    apply Forall_cons in Hok as [[Ha Hb] Hok].
    cbn [difflib.gmb_loop].
    pose proof (find_longest_match_window a b alo ahi blo bhi Ha Hb) as Hw.
    destruct (difflib.find_longest_match a b alo ahi blo bhi) as [[i j] k].
    unfold in_window in Hw. cbn [fst snd] in Hw.
    cbn [queue_size foldr window_size] in Hfuel.
    fold (queue_size queue) in Hfuel.
    destruct (Nat.eqb_spec k 0) as [->|Hk]; [apply IH; [done|lia]|].
    apply IH.
    + destruct ((alo <? i) && (blo <? j)) eqn:E1;
        destruct ((i + k <? ahi) && (j + k <? bhi)) eqn:E2;
        repeat (apply List.Forall_cons); try done.
      all: try (apply andb_prop in E1 as [?%Nat.ltb_lt ?%Nat.ltb_lt]).
      all: try (apply andb_prop in E2 as [?%Nat.ltb_lt ?%Nat.ltb_lt]).
      all: simpl; lia.
    + destruct ((alo <? i) && (blo <? j)) eqn:E1;
        destruct ((i + k <? ahi) && (j + k <? bhi)) eqn:E2;
        cbn [queue_size foldr window_size]; fold (queue_size queue); lia.
Qed.

Lemma get_matching_blocks_total (a b : pystr) :
  is_Some (difflib.get_matching_blocks a b).
Proof.
  unfold difflib.get_matching_blocks.
  destruct (gmb_loop_terminates a b (difflib.gmb_fuel a b)
              [(0, length a, 0, length b)] []) as [blocks ->].
  - apply List.Forall_cons; [simpl; lia|constructor].
  - unfold difflib.gmb_fuel. cbn [queue_size foldr window_size]. lia.
  - simpl. destruct (difflib.collapse _ _ _). by eexists.
Qed.

(** ** Ratios *)

Lemma Qgtb_true x y : Qgtb x y = true ↔ (y < x)%Q.
Proof.
  unfold Qgtb. rewrite negb_true_iff. split.
  - intros H. apply Qnot_le_lt. intros Hle.
    apply Qle_bool_iff in Hle. congruence.
  - intros H. destruct (Qle_bool x y) eqn:E; [|done].
    apply Qle_bool_iff in E. exfalso. by apply (Qlt_not_le y x).
Qed.

Lemma Qgtb_false x y : Qgtb x y = false ↔ (x <= y)%Q.
Proof.
  unfold Qgtb. rewrite negb_false_iff. apply Qle_bool_iff.
Qed.

(** ** [split], [join], [strip] *)

Lemma split_aux_app_space cur u w v :
  Py.isspace w = true →
  Py.split_aux cur (u ++ w :: v) = Py.split_aux cur u ++ Py.split v.
Proof.
  intros Hw. revert cur. induction u as [|c u IH]; intros cur; simpl.
  - rewrite Hw. by destruct cur.
  - destruct (Py.isspace c).
    + destruct cur; by rewrite IH.
    + apply IH.
Qed.

Lemma split_app_space u w v :
  Py.isspace w = true → Py.split (u ++ w :: v) = Py.split u ++ Py.split v.
Proof. apply split_aux_app_space. Qed.

Lemma split_cons_space w v :
  Py.isspace w = true → Py.split (w :: v) = Py.split v.
Proof. apply (split_app_space [] w v). Qed.

Lemma remove_char_app c u v :
  Py.remove_char c (u ++ v) = Py.remove_char c u ++ Py.remove_char c v.
Proof. apply filter_app. Qed.

Lemma remove_marker_space w v :
  Py.isspace w = true →
  Py.remove_char compare_api.marker (w :: v)
  = w :: Py.remove_char compare_api.marker v.
Proof.
  intros Hw. unfold Py.remove_char. rewrite filter_cons_True; [done|].
  intros ->. done.
Qed.

Lemma split_step t1 t2 :
  ws_marker_step t1 t2 →
  Py.split (Py.remove_char compare_api.marker t1)
  = Py.split (Py.remove_char compare_api.marker t2).
Proof.
  intros [u v|u w w' v Hw Hw'|u w w' v Hw Hw'|w v Hw|u w Hw].
  - by rewrite !remove_char_app.
  - rewrite !remove_char_app, !remove_marker_space by done.
    by rewrite !split_app_space.
  - rewrite !remove_char_app, !remove_marker_space by done.
    rewrite (split_app_space _ w) by done.
    rewrite (split_app_space _ w (w' :: _)) by done.
    by rewrite split_cons_space by done.
  - rewrite remove_marker_space by done.
    by rewrite split_cons_space by done.
  - rewrite remove_char_app, remove_marker_space by done.
    rewrite split_app_space by done. symmetry. apply app_nil_r.
Qed.

Lemma clean_text_step t1 t2 :
  ws_marker_step t1 t2 → compare_api.clean_text t1 = compare_api.clean_text t2.
Proof.
  intros H. unfold compare_api.clean_text. by rewrite (split_step t1 t2 H).
Qed.

Lemma clean_text_differ_only t1 t2 :
  differ_only_ws_marker t1 t2 →
  compare_api.clean_text t1 = compare_api.clean_text t2.
Proof.
  intros H. induction H as [t|t1 t2 t3 [H|H] _ IH]; [done|..];
    apply clean_text_step in H; congruence.
Qed.

Lemma clean_text_sync_eq t :
  sync_official_data.clean_text t = compare_api.clean_text t.
Proof. by destruct t. Qed.

(** ** The scan of the local collection *)

Section scan.

Import compare_api.

Variables rname r_title r_text : pystr.
Variable r_item : RemoteItem.

Abbreviation scan := (scan_locals rname r_title r_text r_item).
Abbreviation sc := (score r_text).

(** No candidate above 0.85: the scan runs to the end and records the
    first candidate of maximal score, if one scores above the ratio it
    started with. *)
Lemma scan_unmatched locals st :
  Forall (λ l, (sc l <= 85 # 100)%Q) locals →
  ∃ st', scan locals st = (st', None)
    ∧ found st' = found st ∧ report_items st' = report_items st
    ∧ Forall (λ l, (sc l <= best_ratio st')%Q) locals
    ∧ ((best_ratio st' = best_ratio st ∧ best_match st' = best_match st)
       ∨ ∃ pre l post, locals = pre ++ l :: post
           ∧ best_match st' = Some l ∧ best_ratio st' = sc l
           ∧ (best_ratio st < sc l)%Q
           ∧ Forall (λ x, (sc x < sc l)%Q) pre
           ∧ Forall (λ x, (sc x <= sc l)%Q) post).
Proof.
  intros Hall. revert st.
  induction Hall as [|l rest Hl _ IH]; intros st.
  - exists st. split_and!; [done..|constructor|by left].
  - cbn [scan_locals]. fold (sc l).
    apply Qgtb_false in Hl. rewrite Hl.
    destruct (Qgtb (sc l) (best_ratio (set_l_item l st))) eqn:Hup.
    + apply Qgtb_true in Hup. cbn [set_l_item best_ratio] in Hup.
      destruct (IH (set_best (sc l) l (set_l_item l st)))
        as (st' & -> & Hf & Hr & Hle & Hbest).
      exists st'. split_and!; [done..| |].
      * constructor; [|done].
        destruct Hbest as [[-> _]|(pre & l' & post & _ & _ & -> & Hlt & _)].
        -- apply Qle_refl.
        -- by apply Qlt_le_weak.
      * right.
        destruct Hbest as [[Hr' Hm']|(pre & l' & post & -> & Hm' & Hr' & Hlt & Hpre & Hpost)].
        -- exists [], l, rest. cbn [set_best best_ratio best_match] in *.
           split_and!; [done|done|done|done|constructor|].
           by rewrite Hr' in Hle.
        -- exists (l :: pre), l', post. cbn [set_best best_ratio] in Hlt.
           split_and!; [done|done|done| | |done].
           ++ by apply Qlt_trans with (sc l).
           ++ by constructor.
    + apply Qgtb_false in Hup. cbn [set_l_item best_ratio] in Hup.
      destruct (IH (set_l_item l st)) as (st' & -> & Hf & Hr & Hle & Hbest).
      exists st'. split_and!; [done..| |].
      * constructor; [|done].
        destruct Hbest as [[-> _]|(pre & l' & post & _ & _ & -> & Hlt & _)].
        -- done.
        -- apply Qlt_le_weak. by apply Qle_lt_trans with (best_ratio st).
      * destruct Hbest as [[Hr' Hm']|(pre & l' & post & -> & Hm' & Hr' & Hlt & Hpre & Hpost)].
        -- by left.
        -- right. exists (l :: pre), l', post.
           cbn [set_l_item best_ratio] in Hlt.
           split_and!; [done|done|done|done| |done].
           constructor; [|done]. by apply Qle_lt_trans with (best_ratio st).
Qed.

(** The state a prefix without a match leaves behind does not depend on
    what follows it. *)
Lemma scan_app pre rest st :
  Forall (λ l, (sc l <= 85 # 100)%Q) pre →
  scan (pre ++ rest) st = scan rest (scan pre st).1.
Proof.
  intros Hall. revert st.
  induction Hall as [|l pre Hl _ IH]; intros st; [done|].
  cbn [app scan_locals]. fold (sc l).
  apply Qgtb_false in Hl. rewrite Hl. apply IH.
Qed.

(** The first candidate above 0.85 ends the scan. *)
Lemma scan_matched pre l post st :
  Forall (λ x, (sc x <= 85 # 100)%Q) pre → (85 # 100 < sc l)%Q →
  scan (pre ++ l :: post) st = scan (pre ++ [l]) st
  ∧ ∃ st' e, scan (pre ++ l :: post) st = (st', e)
      ∧ found st' = true ∧ l_item st' = Some l
      ∧ match r_rep_of r_item with
        | Raise e' => e = Some e' ∧ report_items st' = report_items st
        | Ok n =>
            e = None ∧
            report_items st'
            = report_items st
              ++ (if bool_decide (n = rmax (repeat l)) then []
                  else [repeat_mismatch rname r_title r_text
                          (clean_text (text l)) n (rmax (repeat l))])
        end.
Proof.
  intros Hpre Hl. rewrite !(scan_app pre) by done.
  destruct (scan_unmatched pre st Hpre) as (st1 & E & _ & Hr & _).
  rewrite E. cbn [fst]. clear E.
  apply Qgtb_true in Hl.
  cbn [scan_locals]. fold (sc l). rewrite Hl.
  split; [done|].
  assert (∀ b : bool,
            report_items (if b then set_best (sc l) l (set_l_item l st1)
                          else set_l_item l st1) = report_items st)
    as Hrep by (by intros []).
  destruct (Qgtb (sc l) (best_ratio (set_l_item l st1)));
    destruct (r_rep_of r_item) as [n|e']; try case_bool_decide as Hn;
    eexists _, _; (split; [reflexivity|]); cbn;
    rewrite ?Hr, ?app_nil_r; split_and!; try done.
  all: case_bool_decide as Hd; rewrite ?app_nil_r;
    first [done | exfalso; tauto].
Qed.

(** The best candidate is never missing once a positive ratio has been
    recorded. *)
Lemma scan_best_recorded locals st :
  (best_match st = None → (best_ratio st <= 0)%Q) →
  let st' := (scan locals st).1 in
  best_match st' = None → (best_ratio st' <= 0)%Q.
Proof.
  revert st. induction locals as [|l rest IH]; intros st Hst; [done|].
  cbn [scan_locals]. fold (sc l).
  set (st2 := if Qgtb (sc l) (best_ratio (set_l_item l st))
              then set_best (sc l) l (set_l_item l st) else set_l_item l st).
  assert (best_match st2 = None → (best_ratio st2 <= 0)%Q) as H2.
  { unfold st2. destruct (Qgtb _ _); [done|]. apply Hst. }
  destruct (Qgtb (sc l) (85 # 100)).
  - destruct (r_rep_of r_item); [case_bool_decide|]; apply H2.
  - by apply IH.
Qed.

End scan.

Ltac Qcompute :=
  vm_compute; first [reflexivity | discriminate | (intro; discriminate)].

(** ** The decision of the matcher *)

Lemma first_max_unique (sc : TextRecord → Q) pre b post pre' b' post' :
  pre ++ b :: post = pre' ++ b' :: post' →
  Forall (λ x, (sc x < sc b)%Q) pre → Forall (λ x, (sc x <= sc b)%Q) post →
  Forall (λ x, (sc x < sc b')%Q) pre' → Forall (λ x, (sc x <= sc b')%Q) post' →
  b = b'.
Proof.
  intros Heq Hpre Hpost Hpre' Hpost'.
  destruct (Nat.lt_trichotomy (length pre) (length pre')) as [Hlt|[Hlen|Hlt]].
  - exfalso.
    assert ((pre' ++ b' :: post') !! length pre = Some b) as Hb
      by (rewrite <- Heq; by apply list_lookup_middle).
    rewrite lookup_app_l in Hb by done.
    assert ((pre ++ b :: post) !! length pre' = Some b') as Hb'
      by (rewrite Heq; by apply list_lookup_middle).
    rewrite lookup_app_r in Hb' by lia.
    destruct (length pre' - length pre) as [|k] eqn:E; [lia|].
    cbn in Hb'.
    rewrite Forall_forall in Hpre'. rewrite Forall_forall in Hpost.
    apply (Qlt_not_le (sc b) (sc b')).
    + apply Hpre'. by eapply list_elem_of_lookup_2.
    + apply Hpost. by eapply list_elem_of_lookup_2.
  - apply app_inj_1 in Heq as [_ [=]]; done.
  - exfalso.
    assert ((pre ++ b :: post) !! length pre' = Some b') as Hb'
      by (rewrite Heq; by apply list_lookup_middle).
    rewrite lookup_app_l in Hb' by done.
    assert ((pre' ++ b' :: post') !! length pre = Some b) as Hb
      by (rewrite <- Heq; by apply list_lookup_middle).
    rewrite lookup_app_r in Hb by lia.
    destruct (length pre - length pre') as [|k] eqn:E; [lia|].
    cbn in Hb.
    rewrite Forall_forall in Hpre. rewrite Forall_forall in Hpost'.
    apply (Qlt_not_le (sc b') (sc b)).
    + apply Hpre. by eapply list_elem_of_lookup_2.
    + apply Hpost'. by eapply list_elem_of_lookup_2.
Qed.

Lemma first_match_exists (sc : TextRecord → Q) (q : Q) locals :
  Exists (λ l, (q < sc l)%Q) locals →
  ∃ pre l post, locals = pre ++ l :: post
    ∧ Forall (λ x, (sc x <= q)%Q) pre ∧ (q < sc l)%Q.
Proof.
  induction locals as [|x locals IH]; intros H; [by apply Exists_nil in H|].
  destruct (Qlt_le_dec q (sc x)) as [Hx|Hx].
  - exists [], x, locals. split_and!; [done|constructor|done].
  - apply Exists_cons in H as [H|H]; [by apply Qlt_not_le in H|].
    destruct (IH H) as (pre & l & post & -> & Hpre & Hl).
    exists (x :: pre), l, post. split_and!; [done|by constructor|done].
Qed.

Lemma int_exn v e : PyInt.int v = Raise e → e = ValueError ∨ e = TypeError.
Proof.
  destruct v as [|b|z|s]; simpl; try (intros [= <-]; auto); try done.
  unfold PyInt.int_of_str.
  destruct (PyInt.scan_digits _ _ _ _) as [[[v nd] rest]|];
    [destruct (_ || _)|]; intros [= <-]; auto.
Qed.

Lemma r_rep_of_exn r_item e :
  compare_api.r_rep_of r_item = Raise e → e = ValueError ∨ e = TypeError.
Proof.
  unfold compare_api.r_rep_of. destruct (REPEAT r_item) as [v|]; [|done].
  destruct (PyInt.truthy v); [apply int_exn|done].
Qed.

Lemma scan_exn rname r_title r_text r_item locals st e :
  (compare_api.scan_locals rname r_title r_text r_item locals st).2 = Some e →
  compare_api.r_rep_of r_item = Raise e.
Proof.
  revert st. induction locals as [|l rest IH]; intros st; [done|].
  cbn [compare_api.scan_locals].
  destruct (Qgtb _ (85 # 100)); [|apply IH].
  destruct (compare_api.r_rep_of r_item); [by case_bool_decide|].
  by intros [= ->].
Qed.

(** The outcome of [compare_item] when [l] is the first candidate above
    0.85. *)
Lemma compare_item_matched (rname : pystr) pre l post
    (r_item : RemoteItem) (reports : list compare_api.report_item) :
  let r_text := compare_api.clean_text (default [] (ARABIC_TEXT r_item)) in
  let r_title := default [] (TITLE r_item) in
  let out := compare_api.compare_item rname (pre ++ l :: post) r_item reports in
  Forall (λ x, (score r_text x <= 85 # 100)%Q) pre →
  (85 # 100 < score r_text l)%Q →
  out = compare_api.compare_item rname (pre ++ [l]) r_item reports
  ∧ compare_api.found out.1 = true
  ∧ compare_api.l_item out.1 = Some l
  ∧ match compare_api.r_rep_of r_item with
    | Raise e => out.2 = Some e ∧ compare_api.report_items out.1 = reports
    | Ok n =>
        out.2 = None ∧
        compare_api.report_items out.1
        = reports
          ++ (if bool_decide (n = rmax (repeat l)) then []
              else [compare_api.repeat_mismatch rname r_title r_text
                      (compare_api.clean_text (text l)) n (rmax (repeat l))])
    end.
Proof.
  intros r_text r_title out Hpre Hl.
  unfold out, compare_api.compare_item. fold r_text r_title.
  set (st0 := {| compare_api.found := false; compare_api.best_match := None;
                 compare_api.best_ratio := 0; compare_api.l_item := None;
                 compare_api.report_items := reports |}).
  destruct (scan_matched rname r_title r_text r_item pre l post st0 Hpre Hl)
    as (Hstop & st' & e & Hscan & Hfound & Hitem & Hrep).
  rewrite <- Hstop, Hscan.
  destruct e as [e|]; cbn [fst snd]; rewrite ?Hfound; cbn [negb fst snd].
  - split_and!; [done..|].
    destruct (compare_api.r_rep_of r_item); destruct Hrep as [[=] ?].
    by subst.
  - split_and!; [done..|].
    by destruct (compare_api.r_rep_of r_item); destruct Hrep as [[=] ?].
Qed.

(** C1 - Matcher decision policy.  For every remote item the scan of the
    local collection decides as follows.  (1) If some candidate scores
    above 0.85, the first such candidate [l] wins: [found] is set, the
    loop variable rests on [l], what follows [l] is not looked at, and
    the only finding that can be added is a Repeat Mismatch against [l].
    (2) Otherwise, if the best candidate (the first one of maximal score)
    scores above 0.50, a Potential Mismatch with that candidate and its
    score is reported.  (3) Otherwise Missing is reported. *)
Theorem C1_decision_policy (rname : pystr) (local_all : list TextRecord)
    (r_item : RemoteItem) (reports : list compare_api.report_item) :
  let r_text := compare_api.clean_text (default [] (ARABIC_TEXT r_item)) in
  let r_title := default [] (TITLE r_item) in
  let out := compare_api.compare_item rname local_all r_item reports in
  (∀ pre l post,
     local_all = pre ++ l :: post →
     Forall (λ x, (score r_text x <= 85 # 100)%Q) pre →
     (85 # 100 < score r_text l)%Q →
     compare_api.found out.1 = true
     ∧ compare_api.l_item out.1 = Some l
     ∧ out = compare_api.compare_item rname (pre ++ [l]) r_item reports
     ∧ (compare_api.report_items out.1 = reports
        ∨ ∃ n, compare_api.report_items out.1
               = reports ++ [compare_api.repeat_mismatch rname r_title r_text
                               (compare_api.clean_text (text l)) n
                               (rmax (repeat l))]))
  ∧ (∀ pre best post,
       local_all = pre ++ best :: post →
       Forall (λ x, (score r_text x <= 85 # 100)%Q) local_all →
       Forall (λ x, (score r_text x < score r_text best)%Q) pre →
       Forall (λ x, (score r_text x <= score r_text best)%Q) post →
       (1 # 2 < score r_text best)%Q →
       out.2 = None ∧ compare_api.found out.1 = false
       ∧ compare_api.report_items out.1
         = reports ++ [compare_api.potential_mismatch rname r_title r_text
                         best (score r_text best)])
  ∧ (Forall (λ x, (score r_text x <= 1 # 2)%Q) local_all →
     out.2 = None ∧ compare_api.found out.1 = false
     ∧ compare_api.report_items out.1
       = reports ++ [compare_api.missing rname r_title r_text]).
Proof.
  intros r_text r_title out. unfold out, compare_api.compare_item.
  fold r_text r_title.
  set (st0 := {| compare_api.found := false; compare_api.best_match := None;
                 compare_api.best_ratio := 0; compare_api.l_item := None;
                 compare_api.report_items := reports |}).
  split_and!.
  - intros pre l post -> Hpre Hl.
    destruct (compare_item_matched rname pre l post r_item reports Hpre Hl)
      as (Hstop & Hfound & Hitem & Hrep).
    fold r_text r_title in Hrep. unfold compare_api.compare_item in *.
    fold r_text r_title st0 in Hstop, Hfound, Hitem, Hrep |- *.
    split_and!; [done..|].
    destruct (compare_api.r_rep_of r_item) as [n|]; destruct Hrep as [_ ->].
    + case_bool_decide; [left; apply app_nil_r|right; eauto].
    + by left.
  - intros pre best post -> Hall Hpre Hpost Hhalf.
    destruct (scan_unmatched rname r_title r_text r_item _ st0 Hall)
      as (st' & -> & Hfound & Hrep & Hle
          & [[Hr _]|(pre' & l' & post' & Heq & Hm & Hr & _ & Hpre' & Hpost')]).
    + exfalso. rewrite Hr in Hle. apply Forall_app in Hle as [_ Hle].
      apply Forall_cons in Hle as [Hle _]. cbn in Hle.
      apply (Qlt_not_le _ _ Hhalf). by apply Qle_trans with 0%Q.
    + assert (best = l') as <-
        by (eapply (first_max_unique (score r_text)); eauto).
      rewrite Hfound. cbn [negb st0 compare_api.found].
      rewrite Hr. apply Qgtb_true in Hhalf. rewrite Hhalf, Hm.
      cbn. by rewrite Hrep.
  - intros Hall.
    assert (Forall (λ x, (score r_text x <= 85 # 100)%Q) local_all) as Hall'.
    { eapply Forall_impl; [done|]. intros x Hx. cbn beta in Hx.
      by apply Qle_trans with (1 # 2)%Q. }
    destruct (scan_unmatched rname r_title r_text r_item _ st0 Hall')
      as (st' & -> & Hfound & Hrep & Hle
          & [[Hr _]|(pre' & l' & post' & Heq & Hm & Hr & _ & Hpre' & Hpost')]).
    + rewrite Hfound. cbn [negb st0 compare_api.found].
      rewrite Hr. cbn [st0 compare_api.best_ratio].
      change (Qgtb 0 (1 # 2)) with false. cbn. by rewrite Hrep.
    + rewrite Hfound. cbn [negb st0 compare_api.found].
      assert (Qgtb (compare_api.best_ratio st') (1 # 2) = false) as ->.
      { apply Qgtb_false. rewrite Hr. rewrite Forall_forall in Hall.
        apply Hall. rewrite Heq. apply elem_of_app. right. left. }
      cbn. by rewrite Hrep.
Qed.

(** C1, instantiated: a scan with a match after a non-match, one with a
    best candidate above 0.50, and one with nothing similar. *)
Lemma C1_decision_policy_witness :
  let far := sample_record (py "wxyz") (py "morning") 1 1 in
  let same := sample_record (py "abcd") (py "morning") 2 1 in
  let near := sample_record (py "abcx") (py "evening") 1 1 in
  let r := sample_remote (py "abcd") None in
  compare_api.found (compare_api.compare_item [] [far; same; near] r []).1
  = true
  ∧ compare_api.report_items (compare_api.compare_item [] [far; near] r []).1
    = [compare_api.potential_mismatch [] [] (py "abcd") near (6 # 8)]
  ∧ compare_api.report_items (compare_api.compare_item [] [far] r []).1
    = [compare_api.missing [] [] (py "abcd")].
Proof.
  intros far same near r. split_and!.
  - apply (C1_decision_policy [] [far; same; near] r [])
      with (pre := [far]) (l := same) (post := [near]).
    + reflexivity.
    + apply List.Forall_cons; [Qcompute|apply List.Forall_nil].
    + Qcompute.
  - apply (C1_decision_policy [] [far; near] r [])
      with (pre := [far]) (best := near) (post := []).
    + reflexivity.
    + apply List.Forall_cons; [Qcompute|].
      apply List.Forall_cons; [Qcompute|apply List.Forall_nil].
    + apply List.Forall_cons; [Qcompute|apply List.Forall_nil].
    + apply List.Forall_nil.
    + Qcompute.
  - apply (C1_decision_policy [] [far] r []).
    apply List.Forall_cons; [Qcompute|apply List.Forall_nil].
Defined.

(** C5 - Repeat-mismatch advisory.  When the remote item is matched by
    [l] (the first candidate above 0.85) and its repeat count is [n], a
    Repeat Mismatch finding carrying [n] and the repeat count of [l] is
    added exactly when the two differ, and nothing is added when they are
    equal.  In the scenario of the specification (the same text with
    remote count 1 and local count 3) the finding carries 1 and 3.  The
    matcher only builds the report: the records are arguments of a pure
    function. *)
Theorem C5_repeat_mismatch :
  (∀ (rname : pystr) (local_all : list TextRecord) (r_item : RemoteItem)
     (reports : list compare_api.report_item) pre l post n,
     let r_text := compare_api.clean_text (default [] (ARABIC_TEXT r_item)) in
     let r_title := default [] (TITLE r_item) in
     let out := compare_api.compare_item rname local_all r_item reports in
     local_all = pre ++ l :: post →
     Forall (λ x, (score r_text x <= 85 # 100)%Q) pre →
     (85 # 100 < score r_text l)%Q →
     compare_api.r_rep_of r_item = Ok n →
     out.2 = None ∧ compare_api.found out.1 = true
     ∧ (n ≠ rmax (repeat l) →
        compare_api.report_items out.1
        = reports ++ [compare_api.repeat_mismatch rname r_title r_text
                        (compare_api.clean_text (text l)) n (rmax (repeat l))])
     ∧ (n = rmax (repeat l) → compare_api.report_items out.1 = reports))
  ∧ (∀ rname,
       compare_api.compare_items rname
         [sample_record asbahna (py "morning") 1 3]
         [sample_remote asbahna (Some (JInt 1))] []
       = Ok [compare_api.repeat_mismatch rname [] asbahna asbahna 1 3]).
Proof.
  split.
  - intros rname local_all r_item reports pre l post n r_text r_title out
      -> Hpre Hl Hn.
    destruct (compare_item_matched rname pre l post r_item reports Hpre Hl)
      as (_ & Hfound & _ & Hrep).
    rewrite Hn in Hrep. destruct Hrep as [He Hrep].
    fold r_text r_title out in Hfound, He, Hrep.
    split_and!; [done..| |]; intros Hd; rewrite Hrep.
    + by rewrite bool_decide_eq_false_2.
    + rewrite bool_decide_eq_true_2 by done. apply app_nil_r.
  - intros rname. vm_compute. reflexivity.
Qed.

(** C5 on the scenario of the specification: remote count 1, local
    count 3, identical text. *)
Lemma C5_repeat_mismatch_witness :
  let l := sample_record asbahna (py "morning") 1 3 in
  let r := sample_remote asbahna (Some (JInt 1)) in
  compare_api.report_items (compare_api.compare_item [] [l] r []).1
  = [compare_api.repeat_mismatch [] [] asbahna asbahna 1 3].
Proof.
  intros l r.
  apply (proj1 C5_repeat_mismatch [] [l] r [] [] l [] 1%Z).
  - reflexivity.
  - apply List.Forall_nil.
  - Qcompute.
  - reflexivity.
  - vm_compute. discriminate.
Defined.

(** C10 - The Potential Mismatch branch never meets a missing candidate.
    After the scan, a best ratio above 0.50 comes with a recorded best
    candidate, so the report is built without [AttributeError]; and with
    an empty local collection the item is reported Missing. *)
Theorem C10_potential_mismatch_safe (rname : pystr)
    (local_all : list TextRecord) (r_item : RemoteItem)
    (reports : list compare_api.report_item) :
  let r_text := compare_api.clean_text (default [] (ARABIC_TEXT r_item)) in
  let r_title := default [] (TITLE r_item) in
  let st0 := {| compare_api.found := false; compare_api.best_match := None;
                compare_api.best_ratio := 0; compare_api.l_item := None;
                compare_api.report_items := reports |} in
  let st := (compare_api.scan_locals rname r_title r_text r_item
               local_all st0).1 in
  ((1 # 2 < compare_api.best_ratio st)%Q → is_Some (compare_api.best_match st))
  ∧ (compare_api.compare_item rname local_all r_item reports).2
    ≠ Some AttributeError
  ∧ compare_api.compare_item rname [] r_item reports
    = (compare_api.append_report (compare_api.missing rname r_title r_text) st0,
       None).
Proof.
  intros r_text r_title st0 st.
  assert ((1 # 2 < compare_api.best_ratio st)%Q
          → is_Some (compare_api.best_match st)) as Hsafe.
  { intros Hhalf.
    destruct (compare_api.best_match st) eqn:E; [by eexists|]. exfalso.
    pose proof (scan_best_recorded rname r_title r_text r_item local_all st0)
      as H.
    cbv zeta in H. fold st in H.
    apply (Qlt_not_le _ _ Hhalf).
    apply Qle_trans with 0%Q; [|done]. apply H; [|done].
    intros _. apply Qle_refl. }
  split_and!; [done| |done].
  unfold compare_api.compare_item. fold r_text r_title st0.
  subst st.
  destruct (compare_api.scan_locals rname r_title r_text r_item local_all st0)
    as [st1 [e|]] eqn:Hscan; cbn [fst] in Hsafe.
  - cbn [snd]. intros [= ->].
    assert (compare_api.r_rep_of r_item = Raise AttributeError) as H
      by (eapply scan_exn; by rewrite Hscan).
    by apply r_rep_of_exn in H as [?|?].
  - destruct (negb _); [|done].
    destruct (Qgtb _ _) eqn:Hq; [|done].
    apply Qgtb_true in Hq. destruct (Hsafe Hq) as [best ->]. done.
Qed.

(** C10 on a collection whose best candidate scores 0.75. *)
Lemma C10_potential_mismatch_safe_witness :
  let near := sample_record (py "abcx") (py "evening") 1 1 in
  let r := sample_remote (py "abcd") None in
  let st0 := {| compare_api.found := false; compare_api.best_match := None;
                compare_api.best_ratio := 0; compare_api.l_item := None;
                compare_api.report_items := [] |} in
  is_Some (compare_api.best_match
             (compare_api.scan_locals [] [] (py "abcd") r [near] st0).1).
Proof.
  intros near r st0.
  apply (proj1 (C10_potential_mismatch_safe [] [near] r [])).
  Qcompute.
Defined.

(** C4 - A non-numeric [REPEAT] stops the comparison.  The remote item
    [{ARABIC_TEXT: "abc", REPEAT: "abc"}] against a local record with the
    same text is matched, [int("abc")] raises [ValueError] and nothing
    catches it: the run ends with the exception.  The synchroniser reads
    the same item with repeat 1. *)
Theorem C4_non_numeric_repeat_raises :
  let l := sample_record (py "abc") (py "morning") 1 1 in
  let r := sample_remote (py "abc") (Some (JStr (py "abc"))) in
  (compare_api.compare_item [] [l] r []).2 = Some ValueError
  ∧ compare_api.run_comparison [l] (λ _, Some [r]) = Raise ValueError
  ∧ sync_official_data.rep_val_of r = 1%Z.
Proof. intros l r. split_and!; vm_compute; reflexivity. Qed.

(** C7 - Normalization and perfect-match scoring.  Texts that differ only
    in whitespace runs or occurrences of the marker are cleaned to the same
    string (by both copies of [clean_text]).  When the cleaned remote text
    equals the cleaned text of a local record [l], their ratio is 1; the
    remote item is matched in every collection that contains [l]; and
    against [l] alone, with equal repeat counts, no finding is added. *)
Theorem C7_normalization_and_perfect_match :
  (∀ t1 t2,
     differ_only_ws_marker t1 t2 →
     compare_api.clean_text t1 = compare_api.clean_text t2
     ∧ sync_official_data.clean_text t1 = sync_official_data.clean_text t2)
  ∧ (∀ (rname : pystr) (r_item : RemoteItem) (l : TextRecord)
       (reports : list compare_api.report_item),
       let r_text := compare_api.clean_text (default [] (ARABIC_TEXT r_item)) in
       r_text = compare_api.clean_text (text l) →
       (score r_text l == 1)%Q
       ∧ (∀ local_all,
            l ∈ local_all →
            compare_api.found
              (compare_api.compare_item rname local_all r_item reports).1
            = true)
       ∧ (∀ n,
            compare_api.r_rep_of r_item = Ok n → n = rmax (repeat l) →
            let out := compare_api.compare_item rname [l] r_item reports in
            out.2 = None ∧ compare_api.found out.1 = true
            ∧ compare_api.l_item out.1 = Some l
            ∧ compare_api.report_items out.1 = reports)).
Proof.
  split.
  - intros t1 t2 H. rewrite !clean_text_sync_eq.
    by rewrite (clean_text_differ_only t1 t2 H).
  - intros rname r_item l reports r_text Heq.
    assert (score r_text l == 1)%Q as Hscore.
    { unfold score, compare_api.similar. rewrite <- Heq. apply ratio_self. }
    assert (85 # 100 < score r_text l)%Q as Hgt by (by rewrite Hscore).
    split_and!; [done| |].
    + intros local_all Hin.
      destruct (first_match_exists (score r_text) (85 # 100) local_all)
        as (pre & l' & post & -> & Hpre & Hl').
      { apply Exists_exists. eauto. }
      by destruct (compare_item_matched rname pre l' post r_item reports
                     Hpre Hl') as (_ & ? & _).
    + intros n Hn Hrep out.
      destruct (compare_item_matched rname [] l [] r_item reports)
        as (_ & Hf & Hl & Hr); [constructor|done|].
      rewrite Hn in Hr. destruct Hr as [He Hr].
      rewrite bool_decide_eq_true_2, app_nil_r in Hr by done.
      done.
Qed.

(** C7 on a pair of texts that differ in one run of spaces. *)
Lemma C7_normalization_and_perfect_match_witness :
  compare_api.clean_text (py "a b") = compare_api.clean_text (py "a  b")
  ∧ (score (py "a b") (sample_record (py "a  b") (py "morning") 1 1) == 1)%Q.
Proof.
  split.
  - apply (proj1 C7_normalization_and_perfect_match (py "a b") (py "a  b")).
    apply rtsc_lr.
    apply (step_space_longer (py "a") 32%N 32%N (py "b")); reflexivity.
  - apply (proj2 C7_normalization_and_perfect_match []
             (sample_remote (py "a b") None)
             (sample_record (py "a  b") (py "morning") 1 1) []).
    reflexivity.
Defined.

(** ** convert_adhkar.py *)

Section convert.

Import convert_adhkar.

Lemma classify_cases text :
  let m := Py.any_in MORNING_KEYWORDS text in
  let e := Py.any_in EVENING_KEYWORDS text in
  classify_morning_evening text
  = if m && negb e then [py "morning"]
    else if e && negb m then [py "evening"]
    else [py "morning"; py "evening"].
Proof. done. Qed.

Lemma classify_classes text :
  Forall (λ c, c = py "morning" ∨ c = py "evening")
    (classify_morning_evening text).
Proof.
  unfold classify_morning_evening.
  destruct (_ && _); [|destruct (_ && _)];
    repeat (apply List.Forall_cons; [first [by left|by right]|]);
    apply List.Forall_nil.
Qed.

Lemma seqZ_snoc m (n : nat) :
  seqZ m (Z.of_nat (S n)) = seqZ m (Z.of_nat n) ++ [(m + Z.of_nat n)%Z].
Proof.
  rewrite Nat2Z.inj_succ, <- Z.add_1_r, seqZ_app by lia.
  f_equal.
Qed.

(** The general branch numbers the records of a block 1, 2, ..., n. *)
Lemma convert_items_orderIndex cid name mapping items :
  orderIndex <$> convert_items cid name mapping items
  = seqZ 1 (Z.of_nat (length items)).
Proof.
  destruct mapping as [[src cat] hc]. unfold convert_items.
  apply list_eq. intros i.
  rewrite list_lookup_fmap, list_lookup_imap.
  destruct (items !! i) as [item|] eqn:E; simpl.
  - symmetry. rewrite lookup_seqZ. apply lookup_lt_Some in E. lia.
  - symmetry. apply lookup_seqZ_ge. apply lookup_ge_None in E. lia.
Qed.

Lemma convert_items_lookup cid name src cat hc items idx item :
  items !! idx = Some item →
  convert_items cid name (src, cat, hc) items !! idx
  = Some (convert_item cid name item (Z.of_nat idx) cat hc src).
Proof.
  intros H. unfold convert_items. by rewrite list_lookup_imap, H.
Qed.

Lemma convert_items_length cid name mapping items :
  length (convert_items cid name mapping items) = length items.
Proof.
  destruct mapping as [[src cat] hc]. unfold convert_items.
  apply length_imap.
Qed.

Lemma split_classes_spec cid item clss all mi ei :
  Forall (λ c, c = py "morning" ∨ c = py "evening") clss →
  ∃ new,
    split_classes cid item clss (all, mi, ei)
    = (all ++ new,
       (mi + Z.of_nat (length (branch (py "morning") new)))%Z,
       (ei + Z.of_nat (length (branch (py "evening") new)))%Z)
    ∧ category <$> new = Some <$> clss
    ∧ Forall (split_entry_ok cid item) new
    ∧ orderIndex <$> branch (py "morning") new
      = seqZ (mi + 1) (Z.of_nat (length (branch (py "morning") new)))
    ∧ orderIndex <$> branch (py "evening") new
      = seqZ (ei + 1) (Z.of_nat (length (branch (py "evening") new))).
Proof.
  intros Hcl. revert all mi ei.
  induction Hcl as [|cls clss Hc _ IH]; intros all mi ei.
  - exists []. cbn. rewrite app_nil_r, !Z.add_0_r. done.
  - cbn [split_classes].
    destruct Hc as [-> | ->].
    + rewrite bool_decide_eq_true_2 by done.
      match goal with
      | |- context [split_classes _ _ _ (all ++ [?e], ?m, ?n)] =>
          destruct (IH (all ++ [e]) m n) as (new & -> & Hcat & Hok & Hm & He);
          exists (e :: new)
      end.
      rewrite <- app_assoc. cbn [app].
      unfold branch in *.
      rewrite (filter_cons_True (λ r, category r = Some (py "morning")))
        by done.
      rewrite (filter_cons_False (λ r, category r = Some (py "evening")))
        by done.
      cbn [length fmap list_fmap].
      split_and!.
      * f_equal; try lia; f_equal; lia.
      * by rewrite <- Hcat.
      * constructor; [|done]. repeat split. by eexists.
      * change (list_fmap _ _ orderIndex ?l) with (orderIndex <$> l).
        rewrite Hm. rewrite (seqZ_cons (mi + 1)) by lia.
        cbn. do 2 f_equal; lia.
      * done.
    + rewrite bool_decide_eq_false_2 by done.
      match goal with
      | |- context [split_classes _ _ _ (all ++ [?e], ?m, ?n)] =>
          destruct (IH (all ++ [e]) m n) as (new & -> & Hcat & Hok & Hm & He);
          exists (e :: new)
      end.
      rewrite <- app_assoc. cbn [app].
      unfold branch in *.
      rewrite (filter_cons_False (λ r, category r = Some (py "morning")))
        by done.
      rewrite (filter_cons_True (λ r, category r = Some (py "evening")))
        by done.
      cbn [length fmap list_fmap].
      split_and!.
      * f_equal; try lia; f_equal; lia.
      * by rewrite <- Hcat.
      * constructor; [|done]. repeat split. by eexists.
      * done.
      * change (list_fmap _ _ orderIndex ?l) with (orderIndex <$> l).
        rewrite He. rewrite (seqZ_cons (ei + 1)) by lia.
        cbn. do 2 f_equal; lia.
Qed.

Lemma branch_app c l1 l2 : branch c (l1 ++ l2) = branch c l1 ++ branch c l2.
Proof. apply filter_app. Qed.

(** The split branch, item by item: every item contributes the records
    of its classes, and each of the two branches is numbered from the
    index the block started with. *)
Lemma split_items_fold cid items all mi ei :
  ∃ groups,
    foldl (λ acc item,
             split_classes cid item
               (classify_morning_evening (item_text item)) acc)
          (all, mi, ei) items
    = (all ++ concat groups,
       (mi + Z.of_nat (length (branch (py "morning") (concat groups))))%Z,
       (ei + Z.of_nat (length (branch (py "evening") (concat groups))))%Z)
    ∧ Forall2 (λ item g,
                 category <$> g
                 = Some <$> classify_morning_evening (item_text item)
                 ∧ Forall (split_entry_ok cid item) g) items groups
    ∧ orderIndex <$> branch (py "morning") (concat groups)
      = seqZ (mi + 1)
          (Z.of_nat (length (branch (py "morning") (concat groups))))
    ∧ orderIndex <$> branch (py "evening") (concat groups)
      = seqZ (ei + 1)
          (Z.of_nat (length (branch (py "evening") (concat groups)))).
Proof.
  revert all mi ei. induction items as [|item items IH]; intros all mi ei.
  - exists []. cbn. rewrite app_nil_r, !Z.add_0_r. split_and!; done.
  - cbn [foldl].
    destruct (split_classes_spec cid item
                (classify_morning_evening (item_text item)) all mi ei
                (classify_classes _)) as (new & -> & Hcat & Hok & Hm & He).
    destruct (IH (all ++ new)
                (mi + Z.of_nat (length (branch (py "morning") new)))%Z
                (ei + Z.of_nat (length (branch (py "evening") new)))%Z)
      as (groups & -> & Hall & Hm' & He').
    exists (new :: groups). cbn [concat].
    rewrite !branch_app, !length_app, !fmap_app, !Nat2Z.inj_add.
    split_and!.
    + rewrite <- app_assoc. f_equal; try lia; f_equal; lia.
    + by constructor.
    + rewrite Hm, Hm', seqZ_app by lia. do 2 f_equal. lia.
    + rewrite He, He', seqZ_app by lia. do 2 f_equal. lia.
Qed.

Lemma split_items_spec cid items all :
  ∃ groups,
    (split_items cid items all).1.1 = all ++ concat groups
    ∧ Forall2 (λ item g,
                 category <$> g
                 = Some <$> classify_morning_evening (item_text item)
                 ∧ Forall (split_entry_ok cid item) g) items groups
    ∧ orderIndex <$> branch (py "morning") (concat groups)
      = seqZ 1 (Z.of_nat (length (branch (py "morning") (concat groups))))
    ∧ orderIndex <$> branch (py "evening") (concat groups)
      = seqZ 1 (Z.of_nat (length (branch (py "evening") (concat groups)))).
Proof.
  unfold split_items.
  destruct (split_items_fold cid items all 0 0)
    as (groups & -> & Hall & Hm & He).
  by exists groups.
Qed.

End convert.

Lemma CATEGORY_MAP_1 :
  convert_adhkar.CATEGORY_MAP !! 1%Z = Some (py "daily", None, None).
Proof. vm_compute. reflexivity. Qed.

Lemma CATEGORY_MAP_5 :
  convert_adhkar.CATEGORY_MAP !! 5%Z
  = Some (py "hisn", Some (py "hisn"), Some (py "home")).
Proof. vm_compute. reflexivity. Qed.

Lemma convert_category_general all cat mapping :
  convert_adhkar.CATEGORY_MAP !! convert_adhkar.cat_id cat = Some mapping →
  convert_adhkar.cat_id cat ≠ 1%Z →
  convert_adhkar.convert_category all cat
  = all ++ convert_adhkar.convert_items (convert_adhkar.cat_id cat)
             (convert_adhkar.cat_name cat) mapping (convert_adhkar.array cat).
Proof.
  intros Hm Hne. unfold convert_adhkar.convert_category.
  by rewrite Hm, bool_decide_eq_false_2.
Qed.

Lemma convert_category_split all cat :
  convert_adhkar.cat_id cat = 1%Z →
  convert_adhkar.convert_category all cat
  = (convert_adhkar.split_items 1 (convert_adhkar.array cat) all).1.1.
Proof.
  intros H. unfold convert_adhkar.convert_category.
  by rewrite H, CATEGORY_MAP_1, bool_decide_eq_true_2.
Qed.

(** C6 - Reclassifier totality and verbatim mapping.  For a source block
    whose id is a key of [CATEGORY_MAP] and is not the split id 1, every
    raw item yields exactly one record, at the item's position, with
    source, category and hisnCategory of the mapping entry, the item's
    text, [repeat.min = repeat.max = count] (1 when absent) and
    [orderIndex] one more than the position.  Under the split id 1 every
    item yields one or two records with the item's text and count, tagged
    morning or evening.  In particular entry 5 is (hisn, hisn, home) and a
    block with id 5 and three items gives three records in category hisn,
    hisnCategory home, numbered 1, 2, 3. *)
Theorem C6_reclassifier_total :
  (∀ all cat src c hc,
     convert_adhkar.CATEGORY_MAP !! convert_adhkar.cat_id cat
     = Some (src, c, hc) →
     convert_adhkar.cat_id cat ≠ 1%Z →
     ∃ added,
       convert_adhkar.convert_category all cat = all ++ added
       ∧ length added = length (convert_adhkar.array cat)
       ∧ ∀ idx item,
           convert_adhkar.array cat !! idx = Some item →
           ∃ r, added !! idx = Some r
             ∧ convert_adhkar.source r = src
             ∧ convert_adhkar.category r = c
             ∧ convert_adhkar.hisnCategory r = hc
             ∧ convert_adhkar.text r = convert_adhkar.item_text item
             ∧ rmin (convert_adhkar.repeat r)
               = default 1%Z (convert_adhkar.count item)
             ∧ rmax (convert_adhkar.repeat r)
               = default 1%Z (convert_adhkar.count item)
             ∧ convert_adhkar.orderIndex r = (Z.of_nat idx + 1)%Z)
  ∧ (∀ all cat,
       convert_adhkar.cat_id cat = 1%Z →
       ∃ groups,
         convert_adhkar.convert_category all cat = all ++ concat groups
         ∧ Forall2
             (λ item g,
                (length g = 1 ∨ length g = 2)
                ∧ Forall
                    (λ r,
                       convert_adhkar.text r = convert_adhkar.item_text item
                       ∧ rmin (convert_adhkar.repeat r)
                         = default 1%Z (convert_adhkar.count item)
                       ∧ rmax (convert_adhkar.repeat r)
                         = default 1%Z (convert_adhkar.count item)
                       ∧ (convert_adhkar.category r = Some (py "morning")
                          ∨ convert_adhkar.category r = Some (py "evening")))
                    g)
             (convert_adhkar.array cat) groups)
  ∧ (convert_adhkar.CATEGORY_MAP !! 5%Z
     = Some (py "hisn", Some (py "hisn"), Some (py "home"))
     ∧ ∀ name i1 i2 i3,
         let out :=
           convert_adhkar.main
             [{| convert_adhkar.cat_id := 5; convert_adhkar.cat_name := name;
                 convert_adhkar.array := [i1; i2; i3] |}] in
         convert_adhkar.category <$> out
         = [Some (py "hisn"); Some (py "hisn"); Some (py "hisn")]
         ∧ convert_adhkar.hisnCategory <$> out
           = [Some (py "home"); Some (py "home"); Some (py "home")]
         ∧ convert_adhkar.orderIndex <$> out = [1; 2; 3]%Z).
Proof.
  split_and!.
  - intros all cat src c hc Hm Hne.
    rewrite (convert_category_general all cat _ Hm Hne).
    eexists. split; [done|]. split; [apply convert_items_length|].
    intros idx item Hitem.
    rewrite (convert_items_lookup _ _ _ _ _ _ _ _ Hitem).
    eexists. split; [done|]. by cbn.
  - intros all cat Hid. rewrite (convert_category_split all cat Hid).
    destruct (split_items_spec 1 (convert_adhkar.array cat) all)
      as (groups & -> & Hall & _).
    exists groups. split; [done|].
    eapply Forall2_impl; [exact Hall|].
    intros item g [Hcat Hok]. cbn beta in *. split.
    + apply (f_equal length) in Hcat. rewrite !length_fmap in Hcat.
      rewrite Hcat. unfold convert_adhkar.classify_morning_evening.
      destruct (_ && _); [|destruct (_ && _)]; cbn; auto.
    + apply Forall_forall. intros r Hin.
      rewrite Forall_forall in Hok.
      destruct (Hok r Hin) as (Ht & Hr & _). rewrite Hr.
      split_and!; [done..|].
      assert (convert_adhkar.category r
              ∈ Some <$> convert_adhkar.classify_morning_evening
                           (convert_adhkar.item_text item)) as Hc
        by (rewrite <- Hcat; by apply list_elem_of_fmap_2).
      apply list_elem_of_fmap in Hc as (cls & -> & Hcls).
      pose proof (classify_classes (convert_adhkar.item_text item)) as Hall'.
      rewrite Forall_forall in Hall'.
      destruct (Hall' cls Hcls) as [-> | ->]; auto.
  - apply CATEGORY_MAP_5.
  - intros name i1 i2 i3 out. unfold out, convert_adhkar.main. cbn [foldl].
    rewrite (convert_category_general []
               {| convert_adhkar.cat_id := 5; convert_adhkar.cat_name := name;
                  convert_adhkar.array := [i1; i2; i3] |} _ CATEGORY_MAP_5)
      by done.
    by cbn.
Qed.

(** C6 on the block of the scenario: id 5, three items, the second
    without a count. *)
Lemma C6_reclassifier_total_witness :
  let cat :=
    {| convert_adhkar.cat_id := 5; convert_adhkar.cat_name := py "exit";
       convert_adhkar.array :=
         [sample_item 1 (py "a") (Some 3%Z); sample_item 2 (py "b") None;
          sample_item 3 (py "c") (Some 1%Z)] |} in
  ∃ added,
    convert_adhkar.convert_category [] cat = [] ++ added
    ∧ length added = 3
    ∧ ∀ idx item,
        convert_adhkar.array cat !! idx = Some item →
        ∃ r, added !! idx = Some r
          ∧ convert_adhkar.source r = py "hisn"
          ∧ convert_adhkar.category r = Some (py "hisn")
          ∧ convert_adhkar.hisnCategory r = Some (py "home")
          ∧ convert_adhkar.text r = convert_adhkar.item_text item
          ∧ rmin (convert_adhkar.repeat r)
            = default 1%Z (convert_adhkar.count item)
          ∧ rmax (convert_adhkar.repeat r)
            = default 1%Z (convert_adhkar.count item)
          ∧ convert_adhkar.orderIndex r = (Z.of_nat idx + 1)%Z.
Proof.
  intros cat.
  apply (proj1 C6_reclassifier_total [] cat (py "hisn") (Some (py "hisn"))
           (Some (py "home"))).
  - vm_compute. reflexivity.
  - vm_compute. discriminate.
Defined.

(** ** The split of the two scripts *)

(** X17 - In convert_adhkar.py the split is exhaustive and conservative:
    an item with a morning keyword only gives one morning record, an item
    with an evening keyword only gives one evening record, and an item
    with both or neither gives a morning and an evening record, whose ids
    end in [-m] and [-e] and differ. *)
Lemma convert_split_item cid item all mi ei :
  let m := Py.any_in convert_adhkar.MORNING_KEYWORDS
             (convert_adhkar.item_text item) in
  let e := Py.any_in convert_adhkar.EVENING_KEYWORDS
             (convert_adhkar.item_text item) in
  let base := convert_adhkar.make_id cid (convert_adhkar.item_id item - 1) None in
  ∃ new,
    (convert_adhkar.split_classes cid item
       (convert_adhkar.classify_morning_evening (convert_adhkar.item_text item))
       (all, mi, ei)).1.1 = all ++ new
    ∧ Forall (λ r, convert_adhkar.text r = convert_adhkar.item_text item) new
    ∧ (m = true → e = false →
       ∃ r, new = [r] ∧ convert_adhkar.category r = Some (py "morning"))
    ∧ (e = true → m = false →
       ∃ r, new = [r] ∧ convert_adhkar.category r = Some (py "evening"))
    ∧ (m = e →
       ∃ r1 r2, new = [r1; r2]
         ∧ convert_adhkar.category r1 = Some (py "morning")
         ∧ convert_adhkar.category r2 = Some (py "evening")
         ∧ convert_adhkar.id r1 = base ++ py "-m"
         ∧ convert_adhkar.id r2 = base ++ py "-e"
         ∧ convert_adhkar.id r1 ≠ convert_adhkar.id r2).
Proof.
  intros m e base.
  destruct (split_classes_spec cid item
              (convert_adhkar.classify_morning_evening
                 (convert_adhkar.item_text item)) all mi ei
              (classify_classes _)) as (new & -> & Hcat & Hok & _).
  exists new. split; [done|].
  split; [eapply Forall_impl; [exact Hok|]; by intros r (? & _)|].
  rewrite classify_cases in Hcat. fold m e in Hcat.
  assert (∀ r cls, r ∈ new → convert_adhkar.category r = Some cls →
            convert_adhkar.id r
            = convert_adhkar.make_id cid (convert_adhkar.item_id item - 1)
                (Some (take 1 cls))) as Hid.
  { intros r cls Hin Hc. rewrite Forall_forall in Hok.
    destruct (Hok r Hin) as (_ & _ & _ & _ & cls' & Hc' & ->). congruence. }
  split_and!.
  - intros Hm He. rewrite Hm, He in Hcat. cbn in Hcat.
    destruct new as [|r [|??]]; try done. exists r. by injection Hcat.
  - intros He Hm. rewrite Hm, He in Hcat. cbn in Hcat.
    destruct new as [|r [|??]]; try done. exists r. by injection Hcat.
  - intros Hme. rewrite Hme in Hcat.
    assert (convert_adhkar.category <$> new
            = [Some (py "morning"); Some (py "evening")]) as Hcat'
      by (by destruct e).
    destruct new as [|r1 [|r2 [|??]]]; try done.
    injection Hcat' as H1 H2.
    exists r1, r2.
    rewrite (Hid r1 _ ltac:(left) H1).
    rewrite (Hid r2 _ ltac:(right; left) H2).
    split_and!; [done..|].
    unfold convert_adhkar.make_id. cbn [take].
    intros Heq. apply app_inv_head in Heq. discriminate.
Qed.

(** C2 - In sync_official_data.py a text with a morning and an evening
    marker is not duplicated.  The text "أذكار الصباح والمساء" of an item of
    category 27 contains the morning keyword "صباح" and the evening keyword
    "مسا"; the item yields one record, tagged morning, and none tagged
    evening. *)
Theorem C2_sync_both_markers_single_record :
  let text : pystr :=
    [1571; 1584; 1603; 1575; 1585; 32; 1575; 1604; 1589; 1576; 1575; 1581;
     32; 1608; 1575; 1604; 1605; 1587; 1575; 1569]%N in
  Py.contains sync_official_data.kw_sabah text = true
  ∧ Py.contains sync_official_data.kw_masa text = true
  ∧ ∀ ctitle n idx,
      category <$>
        (sync_official_data.sync_item 27 ctitle n idx
           (sample_remote text None)).1
      = [py "morning"].
Proof.
  intros text. split_and!; [vm_compute; reflexivity..|].
  intros ctitle n idx. reflexivity.
Qed.

(** ** Grouping by text *)

Section dedup.

Import smart_deduplicate.

Lemma add_to_group_keys key item g :
  (add_to_group key item g).*1
  = if bool_decide (key ∈ g.*1) then g.*1 else g.*1 ++ [key].
Proof.
  induction g as [|[k items] g IH]; [done|].
  cbn [add_to_group].
  destruct (decide (k = key)) as [->|Hk].
  - rewrite (bool_decide_eq_true_2 (key = key)) by done.
    rewrite !fmap_cons. cbn [fst].
    rewrite bool_decide_eq_true_2; [done|]. apply elem_of_cons. by left.
  - rewrite (bool_decide_eq_false_2 (k = key)) by done.
    rewrite !fmap_cons. cbn [fst]. rewrite IH.
    destruct (decide (key ∈ g.*1)) as [Hin|Hin].
    + rewrite !bool_decide_eq_true_2; [done| |done].
      apply elem_of_cons. by right.
    + rewrite !bool_decide_eq_false_2; [done| |done].
      intros [?|?]%elem_of_cons; congruence.
Qed.

Lemma add_to_group_elem key item g k items :
  NoDup g.*1 →
  (k, items) ∈ add_to_group key item g →
  (k ≠ key ∧ (k, items) ∈ g)
  ∨ (k = key ∧ ∃ old, items = old ++ [item]
                ∧ ((key, old) ∈ g ∨ (old = [] ∧ key ∉ g.*1))).
Proof.
  induction g as [|[k0 items0] g IH]; intros Hnd Hin.
  - cbn in Hin. apply list_elem_of_singleton in Hin as [= -> ->].
    right. split; [done|]. exists []. split; [done|]. right.
    split; [done|]. apply not_elem_of_nil.
  - cbn [add_to_group] in Hin. cbn [fmap list_fmap fst] in Hnd.
    apply NoDup_cons in Hnd as [Hk0 Hnd].
    destruct (decide (k0 = key)) as [->|Hk].
    + rewrite (bool_decide_eq_true_2 (key = key)) in Hin by done.
      apply elem_of_cons in Hin as [[= -> ->]|Hin].
      * right. split; [done|]. exists items0. split; [done|]. left. left.
      * left. split; [|by right]. intros ->. apply Hk0.
        by apply (list_elem_of_fmap_2 fst) in Hin.
    + rewrite (bool_decide_eq_false_2 (k0 = key)) in Hin by done.
      apply elem_of_cons in Hin as [[= -> ->]|Hin].
      * left. split; [done|left].
      * destruct (IH Hnd Hin) as [[? ?]|[-> (old & -> & [?|[-> ?]])]].
        -- left. split; [done|by right].
        -- right. split; [done|]. exists old. split; [done|]. left. by right.
        -- right. split; [done|]. exists []. split; [done|]. right.
           split; [done|]. cbn. intros [?|?]%elem_of_cons; congruence.
Qed.

Lemma with_key_snoc k l x :
  with_key k (l ++ [x])
  = with_key k l ++ (if bool_decide (text_key x = k) then [x] else []).
Proof.
  unfold with_key. rewrite filter_app. f_equal.
  case_bool_decide; [by rewrite filter_cons_True|by rewrite filter_cons_False].
Qed.

Lemma with_key_nil k l :
  (∀ x, x ∈ l → text_key x ≠ k) → with_key k l = [].
Proof.
  intros H. induction l as [|x l IH]; [done|]. unfold with_key.
  rewrite filter_cons_False by (apply H; left).
  apply IH. intros y Hy. apply H. by right.
Qed.

Lemma group_by_text_spec l : groups_of (group_by_text l) l.
Proof.
  unfold group_by_text.
  induction l as [|x l IH] using rev_ind.
  - split_and!.
    + constructor.
    + intros x Hx. by apply elem_of_nil in Hx.
    + intros k i Hx. by apply elem_of_nil in Hx.
  - rewrite foldl_snoc. set (g := foldl _ [] l) in *.
    destruct IH as (Hnd & Hall & Hg). split_and!.
    + rewrite add_to_group_keys.
      destruct (decide (text_key x ∈ g.*1)) as [Hin|Hin];
        [by rewrite bool_decide_eq_true_2|].
      rewrite bool_decide_eq_false_2 by done.
      apply NoDup_app. split_and!; [done| |apply NoDup_singleton].
      intros k Hk ->%list_elem_of_singleton. done.
    + intros y Hy. rewrite add_to_group_keys.
      apply elem_of_app in Hy as [Hy| ->%list_elem_of_singleton].
      * specialize (Hall y Hy).
        destruct (bool_decide _); [done|]. apply elem_of_app. by left.
      * destruct (decide (text_key x ∈ g.*1)) as [Hin|Hin].
        -- by rewrite bool_decide_eq_true_2.
        -- rewrite bool_decide_eq_false_2 by done.
           apply elem_of_app. right. left.
    + intros k items Hin. rewrite with_key_snoc.
      apply add_to_group_elem in Hin; [|done].
      destruct Hin as [[Hne Hin]|[-> (old & -> & [Hin|[-> Hnew]])]].
      * destruct (Hg k items Hin) as [-> ?].
        rewrite bool_decide_eq_false_2 by done. by rewrite app_nil_r.
      * destruct (Hg _ old Hin) as [-> ?].
        rewrite bool_decide_eq_true_2 by done. split; [done|].
        by destruct (with_key _ l).
      * rewrite bool_decide_eq_true_2 by done.
        rewrite with_key_nil; [done|].
        intros y Hy Heq. apply Hnew. rewrite <- Heq. by apply Hall.
Qed.

Lemma deduplicated_concat l :
  deduplicated l = concat ((λ group, keep group.2) <$> group_by_text l).
Proof.
  unfold deduplicated.
  assert (∀ g acc,
            foldl (λ acc (group : pystr * list TextRecord), acc ++ keep group.2)
              acc g
            = acc ++ concat ((λ group, keep group.2) <$> g)) as H.
  { induction g as [|x g IH]; intros acc; cbn; [by rewrite app_nil_r|].
    by rewrite IH, app_assoc. }
  apply (H _ []).
Qed.

(** A group keeps all its members or one of them. *)
Lemma keep_cases items :
  keep items = items
  ∨ ∃ first rest, items = first :: rest ∧ rest ≠ []
      ∧ is_essential first = false
      ∧ keep items
        = [default first
             (find (λ i, bool_decide (category i = py "morning")) items)].
Proof.
  destruct items as [|first [|second rest]]; [by left..|].
  cbn [keep]. destruct (is_essential first) eqn:E; [by left|].
  right. exists first, (second :: rest). split_and!; [done..|].
  by destruct (find _ _).
Qed.

Lemma find_elem {A} (f : A → bool) (l : list A) x :
  find f l = Some x → x ∈ l.
Proof.
  induction l as [|y l IH]; [done|]. cbn.
  destruct (f y); [intros [= ->]; left|intros H; right; auto].
Qed.

Lemma keep_subset items x : x ∈ keep items → x ∈ items.
Proof.
  destruct (keep_cases items) as [->|(first & rest & -> & _ & _ & ->)];
    [done|].
  intros ->%list_elem_of_singleton.
  destruct (find _ _) as [m|] eqn:E; cbn; [by eapply find_elem|left].
Qed.

Lemma keep_submseteq items : keep items ⊆+ items.
Proof.
  destruct (keep_cases items) as [->|(first & rest & -> & _ & _ & ->)];
    [done|].
  apply singleton_submseteq_l.
  destruct (find _ _) as [m|] eqn:E; cbn; [by eapply find_elem|left].
Qed.

Lemma concat_groups_perm (g : list (pystr * list TextRecord)) l :
  groups_of g l → concat (snd <$> g) ≡ₚ l.
Proof.
  revert l. induction g as [|[k items] g IH]; intros l (Hnd & Hall & Hg).
  - destruct l as [|x l]; [done|].
    specialize (Hall x ltac:(left)). by apply elem_of_nil in Hall.
  - cbn. cbn in Hnd. apply NoDup_cons in Hnd as [Hk Hnd].
    destruct (Hg k items ltac:(left)) as [-> _].
    rewrite (IH (filter (λ x, text_key x ≠ k) l)).
    + apply filter_app_complement.
    + split_and!; [done| |].
      * intros x [Hne Hx]%list_elem_of_filter.
        specialize (Hall x Hx). cbn in Hall.
        apply elem_of_cons in Hall as [?|?]; done.
      * intros k' items' Hin.
        destruct (Hg k' items' ltac:(by right)) as [-> Hne].
        split; [|done]. unfold with_key.
        rewrite list_filter_filter. apply list_filter_iff.
        intros x. split; [|by intros [? ?]]. intros Hx. split; [done|].
        rewrite Hx. intros ->. apply Hk.
        by apply (list_elem_of_fmap_2 fst) in Hin.
Qed.

Lemma group_by_text_perm l : concat (snd <$> group_by_text l) ≡ₚ l.
Proof. apply concat_groups_perm, group_by_text_spec. Qed.

Lemma deduplicated_submseteq l : deduplicated l ⊆+ l.
Proof.
  rewrite deduplicated_concat.
  rewrite <- (group_by_text_perm l) at 2.
  induction (group_by_text l) as [|[k items] g IH]; [done|].
  cbn. apply submseteq_app; [apply keep_submseteq|done].
Qed.

Lemma with_key_all k l :
  Forall (λ x, text_key x = k) l → with_key k l = l.
Proof.
  induction 1 as [|x l Hx _ IH]; [done|].
  unfold with_key. rewrite filter_cons_True by done. f_equal. apply IH.
Qed.

Lemma with_key_other k0 k l :
  Forall (λ x, text_key x = k0) l → k0 ≠ k → with_key k l = [].
Proof.
  intros Hall Hne. apply with_key_nil. intros x Hx.
  rewrite Forall_forall in Hall. by rewrite (Hall x Hx).
Qed.

Lemma elem_of_concat {A} (x : A) (ls : list (list A)) :
  x ∈ concat ls ↔ ∃ l, x ∈ l ∧ l ∈ ls.
Proof.
  induction ls as [|l ls IH]; cbn.
  - split; [by intros ?%elem_of_nil|]. by intros (l & _ & ?%elem_of_nil).
  - rewrite elem_of_app, IH. split.
    + intros [?|(l' & ? & ?)]; [exists l; split; [done|left]|].
      exists l'. split; [done|by right].
    + intros (l' & ? & [->|?]%elem_of_cons); [by left|right; eauto].
Qed.

Lemma with_key_app k l1 l2 :
  with_key k (l1 ++ l2) = with_key k l1 ++ with_key k l2.
Proof. apply filter_app. Qed.

(** The survivors with key [k] are what the group of [k] keeps. *)
Lemma with_key_deduplicated l k items :
  (k, items) ∈ group_by_text l →
  with_key k (deduplicated l) = keep items.
Proof.
  rewrite deduplicated_concat.
  destruct (group_by_text_spec l) as (Hnd & _ & Hg).
  assert (∀ k' items', (k', items') ∈ group_by_text l →
            Forall (λ x, text_key x = k') items') as Hkey.
  { intros k' items' Hin. destruct (Hg _ _ Hin) as [-> _].
    apply Forall_forall. by intros x [? ?]%list_elem_of_filter. }
  clear Hg. revert Hnd Hkey.
  induction (group_by_text l) as [|[k0 items0] g IH]; intros Hnd Hkey Hin;
    [by apply elem_of_nil in Hin|].
  cbn in Hnd. apply NoDup_cons in Hnd as [Hk0 Hnd].
  assert (∀ k' items', (k', items') ∈ (k0, items0) :: g →
            Forall (λ x, text_key x = k') (keep items')) as Hkeep.
  { intros k' items' Hin'. apply Forall_forall. intros x Hx%keep_subset.
    specialize (Hkey k' items' Hin').
    rewrite Forall_forall in Hkey. by apply Hkey. }
  rewrite fmap_cons. cbn [concat snd]. rewrite with_key_app.
  apply elem_of_cons in Hin as [[= -> ->]|Hin].
  - rewrite (with_key_all k0 (keep items0)) by (apply Hkeep; left).
    rewrite with_key_nil; [apply app_nil_r|].
    intros x Hx Heq.
    apply elem_of_concat in Hx as (ys & Hx & Hys).
    apply list_elem_of_fmap in Hys as ([k' items'] & -> & Hin').
    specialize (Hkeep k' items' ltac:(by right)).
    rewrite Forall_forall in Hkeep. rewrite (Hkeep x Hx) in Heq. subst.
    apply Hk0. by apply (list_elem_of_fmap_2 fst) in Hin'.
  - rewrite (with_key_other k0 k (keep items0)).
    + cbn [app]. apply IH; [done| |done].
      intros k' items' Hin'. apply Hkey. by right.
    + apply Hkeep; left.
    + intros ->. apply Hk0. by apply (list_elem_of_fmap_2 fst) in Hin.
Qed.

End dedup.

(** ** The final sort *)

Section sort.

Context {A : Type} (lt : A → A → bool).

Lemma insert_sorted_perm x l : PySort.insert_sorted lt x l ≡ₚ x :: l.
Proof.
  induction l as [|y l IH]; [done|]. cbn.
  destruct (lt y x); [|done]. rewrite IH. apply Permutation_swap.
Qed.

Lemma sort_perm l : PySort.sort lt l ≡ₚ l.
Proof.
  induction l as [|x l IH]; [done|]. cbn.
  rewrite insert_sorted_perm. by f_equiv.
Qed.

Hypothesis lt_asym : ∀ x y, lt x y = true → lt y x = false.
Hypothesis not_after_trans : ∀ x y z,
  (not_after lt) x y → (not_after lt) y z → (not_after lt) x z.

Lemma insert_sorted_sorted x l :
  StronglySorted (not_after lt) l →
  StronglySorted (not_after lt) (PySort.insert_sorted lt x l).
Proof.
  induction 1 as [|y l Hs IH Hall]; cbn; [by repeat constructor|].
  destruct (lt y x) eqn:E.
  - constructor; [done|].
    rewrite insert_sorted_perm. constructor; [|done].
    by apply lt_asym.
  - constructor; [by constructor|].
    constructor; [done|].
    eapply Forall_impl; [exact Hall|]. intros z Hz.
    by apply not_after_trans with y.
Qed.

Lemma sort_sorted l : StronglySorted (not_after lt) (PySort.sort lt l).
Proof.
  induction l as [|x l IH]; cbn; [constructor|].
  by apply insert_sorted_sorted.
Qed.

End sort.

(** ** The order of the sort keys *)

Lemma str_lt_irrefl s : Py.str_lt s s = false.
Proof.
  induction s as [|c s IH]; [done|]. cbn.
  by rewrite N.ltb_irrefl, N.eqb_refl, IH.
Qed.

Lemma str_lt_trichotomy s t :
  Py.str_lt s t = true ∨ s = t ∨ Py.str_lt t s = true.
Proof.
  revert t. induction s as [|c s IH]; intros [|d t]; cbn; auto.
  destruct (N.lt_trichotomy c d) as [H|[->|H]].
  - left. apply N.ltb_lt in H. by rewrite H.
  - rewrite N.ltb_irrefl, N.eqb_refl. cbn.
    destruct (IH t) as [?|[->|?]]; auto.
  - right. right. apply N.ltb_lt in H. by rewrite H.
Qed.

Lemma str_lt_trans s t u :
  Py.str_lt s t = true → Py.str_lt t u = true → Py.str_lt s u = true.
Proof.
  revert t u. induction s as [|c s IH]; intros [|d t] [|e u]; cbn; try done.
  intros H1 H2.
  apply orb_true_iff in H1 as [H1|[H1 H1']%andb_true_iff];
    apply orb_true_iff in H2 as [H2|[H2 H2']%andb_true_iff];
    rewrite ?N.ltb_lt, ?N.eqb_eq in *; subst.
  - replace (c <? e)%N with true; [done|]. symmetry. apply N.ltb_lt. lia.
  - replace (c <? e)%N with true; [done|]. symmetry. by apply N.ltb_lt.
  - replace (d <? e)%N with true; [done|]. symmetry. by apply N.ltb_lt.
  - rewrite N.eqb_refl, (IH t u) by done. cbn. apply orb_true_r.
Qed.

Lemma str_lt_asym s t : Py.str_lt s t = true → Py.str_lt t s = false.
Proof.
  intros H. destruct (Py.str_lt t s) eqn:E; [|done].
  pose proof (str_lt_trans s t s H E) as H'.
  by rewrite str_lt_irrefl in H'.
Qed.

Lemma key_lt_spec x y :
  smart_deduplicate.key_lt x y = true ↔ key_before (sort_key x) (sort_key y).
Proof.
  unfold smart_deduplicate.key_lt, key_before, sort_key. cbn.
  case_bool_decide as Hc.
  - rewrite Hc, str_lt_irrefl, Z.ltb_lt. naive_solver.
  - split; [auto|]. by intros [?|[? _]].
Qed.

Lemma key_before_trichotomy a b : key_before a b ∨ a = b ∨ key_before b a.
Proof.
  destruct a as [c1 o1], b as [c2 o2]. unfold key_before. cbn.
  destruct (str_lt_trichotomy c1 c2) as [?|[->|?]]; auto.
  destruct (Z.lt_trichotomy o1 o2) as [?|[->|?]]; auto.
Qed.

Lemma key_before_trans a b c : key_before a b → key_before b c → key_before a c.
Proof.
  unfold key_before. intros [H1|[H1 H1']] [H2|[H2 H2']].
  - left. by eapply str_lt_trans.
  - left. by rewrite <- H2.
  - left. by rewrite H1.
  - right. split; [congruence|lia].
Qed.

Lemma key_before_irrefl a : ¬ key_before a a.
Proof.
  unfold key_before. intros [H|[_ H]]; [|lia].
  by rewrite str_lt_irrefl in H.
Qed.

Lemma key_lt_asym x y :
  smart_deduplicate.key_lt x y = true → smart_deduplicate.key_lt y x = false.
Proof.
  intros H%key_lt_spec. destruct (smart_deduplicate.key_lt y x) eqn:E; [|done].
  apply key_lt_spec in E. destruct (key_before_irrefl (sort_key x)).
  by eapply key_before_trans.
Qed.

Lemma key_not_after_trans x y z :
  not_after smart_deduplicate.key_lt x y →
  not_after smart_deduplicate.key_lt y z →
  not_after smart_deduplicate.key_lt x z.
Proof.
  unfold not_after. intros Hxy Hyz.
  destruct (smart_deduplicate.key_lt z x) eqn:E; [|done]. exfalso.
  apply key_lt_spec in E.
  destruct (key_before_trichotomy (sort_key x) (sort_key y)) as [H|[H|H]].
  - assert (smart_deduplicate.key_lt z y = true) as H'
      by (apply key_lt_spec; by eapply key_before_trans).
    congruence.
  - assert (smart_deduplicate.key_lt z y = true) as H'
      by (apply key_lt_spec; by rewrite <- H).
    congruence.
  - apply key_lt_spec in H. congruence.
Qed.

Lemma smart_deduplicate_sorted l :
  StronglySorted (not_after smart_deduplicate.key_lt)
    (smart_deduplicate.smart_deduplicate l).
Proof. apply sort_sorted; [apply key_lt_asym|apply key_not_after_trans]. Qed.

Lemma smart_deduplicate_perm l :
  smart_deduplicate.smart_deduplicate l ≡ₚ smart_deduplicate.deduplicated l.
Proof. apply sort_perm. Qed.

Lemma NoDup_fmap_inj_elem {A B} (f : A → B) (l : list A) x y :
  NoDup (f <$> l) → x ∈ l → y ∈ l → f x = f y → x = y.
Proof.
  induction l as [|z l IH]; [by intros _ ?%elem_of_nil|].
  rewrite fmap_cons. intros [Hz Hnd]%NoDup_cons Hx Hy Hf.
  apply elem_of_cons in Hx as [->|Hx]; apply elem_of_cons in Hy as [->|Hy].
  - done.
  - destruct Hz. rewrite Hf. by apply list_elem_of_fmap_2.
  - destruct Hz. rewrite <- Hf. by apply list_elem_of_fmap_2.
  - by apply IH.
Qed.

(** A sorted list with pairwise distinct keys is the only sorted
    arrangement of its elements. *)
Lemma sorted_unique l1 l2 :
  NoDup (sort_key <$> l1) →
  StronglySorted (not_after smart_deduplicate.key_lt) l1 →
  StronglySorted (not_after smart_deduplicate.key_lt) l2 →
  l1 ≡ₚ l2 → l1 = l2.
Proof.
  intros Hnd Hs1 Hs2 Hp.
  apply (StronglySorted_unique_strong (not_after smart_deduplicate.key_lt));
    [|done..].
  intros x1 x2 Hx1 Hx2 H12 H21. rewrite <- Hp in Hx2. unfold not_after in *.
  destruct (key_before_trichotomy (sort_key x1) (sort_key x2)) as [H|[H|H]].
  - apply key_lt_spec in H. congruence.
  - by apply (NoDup_fmap_inj_elem sort_key l1).
  - apply key_lt_spec in H. congruence.
Qed.

(** ** Duplicate reconciliation *)

Lemma group_key_elem l k items :
  (k, items) ∈ smart_deduplicate.group_by_text l →
  items = with_key k l ∧ items ≠ [].
Proof. intros H. by apply (group_by_text_spec l). Qed.

Lemma group_key_exists l x :
  x ∈ l →
  ∃ items, (smart_deduplicate.text_key x, items)
           ∈ smart_deduplicate.group_by_text l.
Proof.
  intros Hx. destruct (group_by_text_spec l) as (_ & Hall & _).
  apply Hall, list_elem_of_fmap in Hx as ([k items] & -> & Hin). eauto.
Qed.

Lemma NoDup_submseteq_inv {A} (l k : list A) : l ⊆+ k → NoDup k → NoDup l.
Proof.
  intros [k' Hk]%submseteq_Permutation Hnd. rewrite Hk in Hnd.
  by apply NoDup_app in Hnd as (? & _).
Qed.

Lemma with_key_perm k l1 l2 : l1 ≡ₚ l2 → with_key k l1 ≡ₚ with_key k l2.
Proof. intros H. unfold with_key. by rewrite H. Qed.

(** C3, as the code has it - The first member of a group decides.  In a
    group of two or more records that share the first 100 characters of
    their text (its members in encounter order), if the first member's
    title or text contains an essential marker, all members survive,
    unmodified; otherwise exactly one survives: the first member tagged
    morning, or the first member when none is. *)
Theorem C3_first_member_decides (athkar : list TextRecord) (key : pystr)
    (items : list TextRecord) :
  (key, items) ∈ smart_deduplicate.group_by_text athkar →
  2 ≤ length items →
  items = with_key key athkar
  ∧ ∃ first rest,
      items = first :: rest
      ∧ with_key key (smart_deduplicate.smart_deduplicate athkar)
        ≡ₚ (if smart_deduplicate.is_essential first then items
            else [default first
                    (find (λ i, bool_decide (category i = py "morning"))
                       items)]).
Proof.
  intros Hin Hlen. destruct (group_key_elem _ _ _ Hin) as [Heq _].
  split; [done|].
  destruct items as [|first [|second rest]]; cbn in Hlen; try lia.
  exists first, (second :: rest). split; [done|].
  rewrite (with_key_perm key _ _ (smart_deduplicate_perm athkar)).
  rewrite (with_key_deduplicated athkar key _ Hin).
  cbn [smart_deduplicate.keep].
  destruct (smart_deduplicate.is_essential first); [done|].
  by destruct (find _ _).
Qed.

(** C3: an essential member that is not the first does not protect the
    group.  The second record carries the title "آية الكرسي"; the first
    carries no marker; only the first survives. *)
Lemma C3_counterexample :
  let a := sample_titled [] (py "x") (py "evening") 1 in
  let b := sample_titled ayat_al_kursi (py "x") (py "evening") 2 in
  smart_deduplicate.group_by_text [a; b] = [(py "x", [a; b])]
  ∧ smart_deduplicate.is_essential b = true
  ∧ smart_deduplicate.smart_deduplicate [a; b] = [a].
Proof. intros a b. split_and!; vm_compute; reflexivity. Qed.

(** C3 on a group whose first member is essential. *)
Lemma C3_first_member_decides_witness :
  let a := sample_titled ayat_al_kursi (py "x") (py "morning") 1 in
  let b := sample_titled [] (py "x") (py "evening") 1 in
  with_key (py "x") (smart_deduplicate.smart_deduplicate [a; b]) ≡ₚ [a; b].
Proof.
  intros a b.
  destruct (C3_first_member_decides [a; b] (py "x") [a; b])
    as (_ & first & rest & Heq & Hperm).
  - vm_compute. left.
  - cbn. lia.
  - injection Heq as <- <-. exact Hperm.
Defined.

(** C8, as the code has it - Reconciliation is idempotent on collections
    in which the records that share their first 100 characters are all
    essential or all not, and no two records share category and
    orderIndex: applied to its own output it returns that output. *)
Theorem C8_idempotent_when_uniform (athkar : list TextRecord) :
  (∀ x y, x ∈ athkar → y ∈ athkar →
          smart_deduplicate.text_key x = smart_deduplicate.text_key y →
          smart_deduplicate.is_essential x = smart_deduplicate.is_essential y) →
  NoDup (sort_key <$> athkar) →
  smart_deduplicate.smart_deduplicate
    (smart_deduplicate.smart_deduplicate athkar)
  = smart_deduplicate.smart_deduplicate athkar.
Proof.
  intros Huni Hnd.
  set (D := smart_deduplicate.smart_deduplicate athkar).
  assert (D ⊆+ athkar) as Hsub.
  { unfold D. rewrite smart_deduplicate_perm. apply deduplicated_submseteq. }
  assert (∀ x, x ∈ D → x ∈ athkar) as Hel
    by (intros x Hx; by apply (elem_of_submseteq D athkar x)).
  assert (smart_deduplicate.deduplicated D ≡ₚ D) as Hperm.
  { rewrite deduplicated_concat.
    rewrite <- (group_by_text_perm D) at 2.
    assert (∀ k items, (k, items) ∈ smart_deduplicate.group_by_text D →
              smart_deduplicate.keep items = items) as Hkeep.
    { intros k items Hin.
      destruct (keep_cases items)
        as [?|(first & rest & -> & Hrest & Hess & _)]; [done|]. exfalso.
      destruct (group_key_elem _ _ _ Hin) as [Heq _].
      assert (first ∈ athkar ∧ smart_deduplicate.text_key first = k)
        as [Hfirst Hk].
      { assert (first ∈ with_key k D) as H by (rewrite <- Heq; left).
        apply list_elem_of_filter in H as [? ?]. auto. }
      destruct (group_key_exists athkar first Hfirst) as (items0 & Hin0).
      rewrite Hk in Hin0.
      assert (first :: rest ≡ₚ smart_deduplicate.keep items0) as Hp.
      { rewrite Heq. unfold D.
        rewrite (with_key_perm k _ _ (smart_deduplicate_perm athkar)).
        by rewrite (with_key_deduplicated athkar k _ Hin0). }
      destruct (group_key_elem _ _ _ Hin0) as [Heq0 _].
      destruct (keep_cases items0)
        as [Hk0|(first0 & rest0 & -> & _ & _ & Hk0)]; rewrite Hk0 in Hp.
      - destruct items0 as [|f0 [|s0 r0]].
        + by apply Permutation_nil_r in Hp.
        + apply Permutation_length in Hp. destruct rest; done.
        + cbn [smart_deduplicate.keep] in Hk0.
          destruct (smart_deduplicate.is_essential f0) eqn:Hf0.
          * assert (f0 ∈ with_key k athkar) as H by (rewrite <- Heq0; left).
            apply list_elem_of_filter in H as [Hkf0 Hf0in].
            rewrite (Huni first f0) in Hess by congruence. congruence.
          * destruct (find _ _); discriminate.
      - apply Permutation_length in Hp. destruct rest; done. }
    induction (smart_deduplicate.group_by_text D) as [|[k items] g IH];
      [done|].
    cbn. rewrite (Hkeep k items) by left.
    f_equiv. apply IH. intros k' items' Hin'. apply (Hkeep k'). by right. }
  unfold D at 1. fold D.
  symmetry. apply sorted_unique.
  - eapply NoDup_submseteq_inv; [|exact Hnd]. by apply fmap_submseteq.
  - apply smart_deduplicate_sorted.
  - apply smart_deduplicate_sorted.
  - symmetry. by rewrite smart_deduplicate_perm.
Qed.

(** C8: a second pass can drop an essential duplicate.  The first pass
    keeps both records (the first member carries the title "آية الكرسي")
    and sorts the evening record to the front; the second pass then meets
    a first member without marker and keeps the morning record only. *)
Lemma C8_counterexample :
  let a := sample_titled ayat_al_kursi (py "x") (py "morning") 1 in
  let b := sample_titled [] (py "x") (py "evening") 1 in
  smart_deduplicate.smart_deduplicate [a; b] = [b; a]
  ∧ smart_deduplicate.smart_deduplicate
      (smart_deduplicate.smart_deduplicate [a; b]) = [a].
Proof. intros a b. split; vm_compute; reflexivity. Qed.

(** C8 on a collection with one essential pair and one plain pair. *)
Lemma C8_idempotent_when_uniform_witness :
  let athkar :=
    [sample_titled ayat_al_kursi (py "x") (py "morning") 1;
     sample_titled ayat_al_kursi (py "x") (py "evening") 1;
     sample_titled [] (py "y") (py "morning") 2;
     sample_titled [] (py "y") (py "evening") 2] in
  smart_deduplicate.smart_deduplicate
    (smart_deduplicate.smart_deduplicate athkar)
  = smart_deduplicate.smart_deduplicate athkar.
Proof.
  intros athkar. apply (C8_idempotent_when_uniform athkar).
  - intros x y Hx Hy.
    apply list_elem_of_In in Hx. apply list_elem_of_In in Hy.
    cbn in Hx, Hy.
    destruct Hx as [<-|[<-|[<-|[<-|[]]]]];
      destruct Hy as [<-|[<-|[<-|[<-|[]]]]];
      vm_compute; intros H; first [reflexivity | discriminate H].
  - apply (bool_decide_unpack _). vm_compute. exact I.
Defined.

(** ** orderIndex *)

(** C9, as the code has it - orderIndex is assigned per source block and
    never renumbered.  The records convert_adhkar.py produces from one
    mapped source block are numbered 1, 2, ..., n in emission order; under
    the split id 1 the morning records of the block and its evening
    records are each numbered 1, 2, ...; and duplicate reconciliation
    returns records of its input, unchanged. *)
Theorem C9_orderIndex_per_block :
  (∀ all cat mapping,
     convert_adhkar.CATEGORY_MAP !! convert_adhkar.cat_id cat = Some mapping →
     convert_adhkar.cat_id cat ≠ 1%Z →
     ∃ added,
       convert_adhkar.convert_category all cat = all ++ added
       ∧ convert_adhkar.orderIndex <$> added
         = seqZ 1 (Z.of_nat (length (convert_adhkar.array cat))))
  ∧ (∀ all cat,
       convert_adhkar.cat_id cat = 1%Z →
       ∃ added,
         convert_adhkar.convert_category all cat = all ++ added
         ∧ convert_adhkar.orderIndex <$> branch (py "morning") added
           = seqZ 1 (Z.of_nat (length (branch (py "morning") added)))
         ∧ convert_adhkar.orderIndex <$> branch (py "evening") added
           = seqZ 1 (Z.of_nat (length (branch (py "evening") added))))
  ∧ (∀ athkar, smart_deduplicate.smart_deduplicate athkar ⊆+ athkar).
Proof.
  split_and!.
  - intros all cat mapping Hm Hne.
    rewrite (convert_category_general all cat _ Hm Hne).
    eexists. split; [done|]. apply convert_items_orderIndex.
  - intros all cat Hid. rewrite (convert_category_split all cat Hid).
    destruct (split_items_spec 1 (convert_adhkar.array cat) all)
      as (groups & -> & _ & Hm & He).
    by exists (concat groups).
  - intros athkar. rewrite smart_deduplicate_perm.
    apply deduplicated_submseteq.
Qed.

(** C9: two source blocks mapped to the same category both start at 1,
    and reconciliation leaves a gap.  Blocks 4 and 5 (both hisn/home) with
    one item each give two hisn records numbered 1 and 1; of three morning
    records numbered 1, 2, 3, the first two being duplicates, 1 and 3
    remain. *)
Lemma C9_counterexample :
  let out :=
    convert_adhkar.main
      [{| convert_adhkar.cat_id := 4; convert_adhkar.cat_name := py "a";
          convert_adhkar.array := [sample_item 1 (py "p") None] |};
       {| convert_adhkar.cat_id := 5; convert_adhkar.cat_name := py "b";
          convert_adhkar.array := [sample_item 1 (py "q") None] |}] in
  let kept :=
    smart_deduplicate.smart_deduplicate
      [sample_record (py "x") (py "morning") 1 1;
       sample_record (py "x") (py "morning") 2 1;
       sample_record (py "y") (py "morning") 3 1] in
  convert_adhkar.orderIndex <$> branch (py "hisn") out = [1; 1]%Z
  ∧ ¬ contiguous_from_1
        (convert_adhkar.orderIndex <$> branch (py "hisn") out)
  ∧ orderIndex <$> filter (λ r, category r = py "morning") kept = [1; 3]%Z
  ∧ ¬ contiguous_from_1
        (orderIndex <$> filter (λ r, category r = py "morning") kept).
Proof.
  intros out kept.
  assert (convert_adhkar.orderIndex <$> branch (py "hisn") out = [1; 1]%Z)
    as H1 by (vm_compute; reflexivity).
  assert (orderIndex <$> filter (λ r, category r = py "morning") kept
          = [1; 3]%Z) as H2 by (vm_compute; reflexivity).
  split_and!; [done| |done|].
  - rewrite H1. unfold contiguous_from_1. intros Hp.
    assert (2%Z ∈ [1; 1]%Z) as Hin
      by (rewrite Hp; vm_compute; right; left).
    apply elem_of_cons in Hin as [?|Hin]; [done|].
    apply elem_of_cons in Hin as [?|Hin]; [done|].
    by apply elem_of_nil in Hin.
  - rewrite H2. unfold contiguous_from_1. intros Hp.
    assert (2%Z ∈ [1; 3]%Z) as Hin
      by (rewrite Hp; vm_compute; right; left).
    apply elem_of_cons in Hin as [?|Hin]; [done|].
    apply elem_of_cons in Hin as [?|Hin]; [done|].
    by apply elem_of_nil in Hin.
Qed.

(** C9 on block 5 with two items. *)
Lemma C9_orderIndex_per_block_witness :
  let cat :=
    {| convert_adhkar.cat_id := 5; convert_adhkar.cat_name := py "b";
       convert_adhkar.array :=
         [sample_item 1 (py "p") None; sample_item 2 (py "q") None] |} in
  ∃ added,
    convert_adhkar.convert_category [] cat = [] ++ added
    ∧ convert_adhkar.orderIndex <$> added = seqZ 1 2.
Proof.
  intros cat.
  apply (proj1 C9_orderIndex_per_block [] cat
           (py "hisn", Some (py "hisn"), Some (py "home"))).
  - vm_compute. reflexivity.
  - vm_compute. discriminate.
Defined.

(** ** The ratio lies between 0 and 1 *)

Lemma block_sum_app l1 l2 : block_sum (l1 ++ l2) = block_sum l1 + block_sum l2.
Proof.
  unfold block_sum. induction l1 as [|x l1 IH]; cbn [app foldr]; [done|].
  rewrite IH. lia.
Qed.

Lemma block_sum_perm l1 l2 : l1 ≡ₚ l2 → block_sum l1 = block_sum l2.
Proof. unfold block_sum. induction 1; cbn [foldr] in *; lia. Qed.

(** The blocks found never cover more than the windows they were found
    in. *)
Lemma gmb_loop_sum (a b : pystr) fuel queue blocks result :
  Forall window_ok queue →
  difflib.gmb_loop a b fuel queue blocks = Some result →
  block_sum result ≤ block_sum blocks + a_width queue
  ∧ block_sum result ≤ block_sum blocks + b_width queue.
Proof.
  revert queue blocks.
  induction fuel as [|fuel IH]; intros queue blocks Hok Hrun.
  - destruct queue as [|[[[alo ahi] blo] bhi] queue]; [|done].
    injection Hrun as <-. cbn. lia.
  - destruct queue as [|[[[alo ahi] blo] bhi] queue].
    { injection Hrun as <-. cbn. lia. }
    apply Forall_cons in Hok as [[Ha Hb] Hok].
    cbn [difflib.gmb_loop] in Hrun.
    pose proof (find_longest_match_window a b alo ahi blo bhi Ha Hb) as Hw.
    destruct (difflib.find_longest_match a b alo ahi blo bhi) as [[i j] k].
    unfold in_window in Hw. cbn [fst snd] in Hw.
    cbn [a_width b_width foldr fst snd].
    fold (a_width queue) (b_width queue).
    destruct (decide (k = 0)) as [->|Hk].
    { cbn [Nat.eqb] in Hrun. apply IH in Hrun; [lia|done]. }
    rewrite (proj2 (Nat.eqb_neq k 0) Hk) in Hrun.
    apply IH in Hrun.
    + rewrite block_sum_app in Hrun. cbn [block_sum foldr snd] in Hrun.
      destruct ((alo <? i) && (blo <? j)) eqn:E1;
        destruct ((i + k <? ahi) && (j + k <? bhi)) eqn:E2;
        cbn [a_width b_width foldr fst snd] in Hrun;
        fold (a_width queue) (b_width queue) in Hrun; lia.
    + destruct ((alo <? i) && (blo <? j)) eqn:E1;
        destruct ((i + k <? ahi) && (j + k <? bhi)) eqn:E2;
        repeat (apply List.Forall_cons); try done.
      all: try (apply andb_prop in E1 as [?%Nat.ltb_lt ?%Nat.ltb_lt]).
      all: try (apply andb_prop in E2 as [?%Nat.ltb_lt ?%Nat.ltb_lt]).
      all: simpl; lia.
Qed.

Lemma collapse_sum blocks cur non_adjacent :
  (difflib.collapse blocks cur non_adjacent).1.2
  + block_sum (difflib.collapse blocks cur non_adjacent).2
  = cur.2 + block_sum non_adjacent + block_sum blocks.
Proof.
  revert cur non_adjacent.
  induction blocks as [|[[i2 j2] k2] blocks IH]; intros [[i1 j1] k1] na;
    cbn [difflib.collapse].
  { unfold block_sum; cbn [foldr fst snd]. lia. }
  destruct (_ && _).
  - rewrite IH. unfold block_sum; cbn [foldr fst snd]. lia.
  - rewrite IH. destruct (Nat.eqb_spec k1 0) as [->|?].
    + unfold block_sum; cbn [foldr fst snd]. lia.
    + rewrite block_sum_app. unfold block_sum; cbn [foldr fst snd]. lia.
Qed.

Lemma get_matching_blocks_sum (a b : pystr) blocks :
  difflib.get_matching_blocks a b = Some blocks →
  block_sum blocks ≤ length a ∧ block_sum blocks ≤ length b.
Proof.
  unfold difflib.get_matching_blocks.
  destruct (difflib.gmb_loop a b _ _ _) as [found|] eqn:Hrun; [|done].
  cbn [mbind option_bind].
  apply gmb_loop_sum in Hrun;
    [|apply List.Forall_cons; [simpl; lia|constructor]].
  unfold block_sum at 2 4 in Hrun.
  cbn [a_width b_width foldr fst snd] in Hrun.
  pose proof (collapse_sum (PySort.sort difflib.match_lt found) (0, 0, 0) [])
    as Hc.
  destruct (difflib.collapse _ _ _) as [cur na].
  rewrite (block_sum_perm _ _ (sort_perm difflib.match_lt found)) in Hc.
  unfold block_sum at 2 in Hc. cbn [foldr fst snd] in Hc.
  intros [= <-]. rewrite block_sum_app.
  assert (block_sum [(length a, length b, 0)] = 0) as -> by done.
  destruct (Nat.eqb_spec cur.2 0) as [E|E].
  - lia.
  - rewrite block_sum_app.
    assert (block_sum [cur] = cur.2) as ->
      by (unfold block_sum; cbn [foldr]; lia).
    lia.
Qed.

(** X1 - The similarity ratio is always defined and lies in [0, 1]: the
    work list of the matching blocks empties within the iterations
    granted, and the blocks never match more elements than either string
    has. *)
Theorem X1_similar_in_unit_interval (a b : pystr) :
  is_Some (difflib.get_matching_blocks a b)
  ∧ (0 <= compare_api.similar a b)%Q ∧ (compare_api.similar a b <= 1)%Q.
Proof.
  split; [apply get_matching_blocks_total|].
  unfold compare_api.similar, difflib.ratio.
  destruct (difflib.get_matching_blocks a b) as [blocks|] eqn:E; [|done].
  apply get_matching_blocks_sum in E as [Ha Hb].
  fold (block_sum blocks). unfold difflib.calculate_ratio.
  destruct (Nat.eqb_spec (length a + length b) 0) as [H0|H0]; [done|].
  unfold Qle. cbn [Qnum Qden]. split.
  - lia.
  - rewrite Z.mul_1_r, Z.mul_1_l.
    rewrite <- (Znat.positive_nat_Z (Pos.of_nat (length a + length b))).
    rewrite Nat2Pos.id by done. lia.
Qed.

(** ** The normal form of [clean_text] *)

Lemma elem_of_rev {A} (x : A) (l : list A) : x ∈ rev l ↔ x ∈ l.
Proof. rewrite !list_elem_of_In. symmetry. apply in_rev. Qed.

Lemma filter_all {A} (P : A → Prop) `{!∀ x, Decision (P x)} (l : list A) :
  Forall P l → filter P l = l.
Proof.
  induction 1 as [|x l Hx Hl IH]; [done|].
  rewrite filter_cons_True by done. by rewrite IH.
Qed.

Lemma split_aux_words cur s :
  Forall (λ c, Py.isspace c = false) cur →
  Forall (λ w, w ≠ [] ∧ Forall (λ c, Py.isspace c = false) w)
         (Py.split_aux cur s).
Proof.
  revert cur. induction s as [|c s IH]; intros cur Hcur; cbn [Py.split_aux].
  - destruct cur as [|x cur]; [constructor|].
    apply List.Forall_cons; [|constructor]. split.
    + intros E. apply (f_equal length) in E.
      rewrite length_rev in E. done.
    + by apply Forall_rev.
  - destruct (Py.isspace c) eqn:Hc.
    + destruct cur as [|x cur]; [by apply IH|].
      apply List.Forall_cons; [|by apply IH]. split.
      * intros E. apply (f_equal length) in E.
        rewrite length_rev in E. done.
      * by apply Forall_rev.
    + apply IH. by constructor.
Qed.

Lemma split_aux_elem cur s w c :
  w ∈ Py.split_aux cur s → c ∈ w → c ∈ cur ∨ c ∈ s.
Proof.
  revert cur. induction s as [|x s IH]; intros cur; cbn [Py.split_aux].
  - destruct cur as [|y cur]; [by intros ?%elem_of_nil|].
    intros ->%list_elem_of_singleton Hc. left. exact (proj1 (elem_of_rev _ _) Hc).
  - destruct (Py.isspace x).
    + destruct cur as [|y cur].
      * intros Hw Hc. destruct (IH [] Hw Hc) as [?%elem_of_nil|?]; [done|].
        right. by constructor.
      * intros [->|Hw]%elem_of_cons Hc.
        -- left. exact (proj1 (elem_of_rev _ _) Hc).
        -- destruct (IH [] Hw Hc) as [?%elem_of_nil|?]; [done|].
           right. by constructor.
    + intros Hw Hc. destruct (IH _ Hw Hc) as [[->|?]%elem_of_cons|?].
      * right. by left.
      * by left.
      * right. by right.
Qed.

Lemma split_clean_words t :
  Forall clean_word (Py.split (Py.remove_char compare_api.marker t)).
Proof.
  pose proof (split_aux_words [] (Py.remove_char compare_api.marker t)
                (Forall_nil_2 _)) as H.
  apply Forall_forall. intros w Hw.
  pose proof (proj1 (Forall_forall _ _) H w Hw) as [Hne Hsp].
  split; [done|]. apply Forall_forall. intros c Hc. split.
  - by apply (proj1 (Forall_forall _ _) Hsp).
  - destruct (split_aux_elem _ _ _ _ Hw Hc) as [?%elem_of_nil|Hin]; [done|].
    unfold Py.remove_char in Hin. by apply list_elem_of_filter in Hin as [? _].
Qed.

Lemma lstrip_id s :
  match s with [] => True | c :: _ => Py.isspace c = false end →
  Py.lstrip s = s.
Proof. destruct s as [|c s]; [done|]. simpl. by intros ->. Qed.

Lemma strip_id s :
  match s with [] => True | c :: _ => Py.isspace c = false end →
  match rev s with [] => True | c :: _ => Py.isspace c = false end →
  Py.strip s = s.
Proof.
  intros H1 H2. unfold Py.strip, Py.rstrip.
  rewrite (lstrip_id s H1), (lstrip_id (rev s) H2). apply rev_involutive.
Qed.

Lemma word_head w :
  clean_word w → ∃ c w', w = c :: w' ∧ Py.isspace c = false.
Proof.
  intros [Hne Hw]. destruct w as [|c w']; [done|].
  apply Forall_cons in Hw as [[Hc _] _]. eauto.
Qed.

Lemma word_last w :
  clean_word w → ∃ c w', w = w' ++ [c] ∧ Py.isspace c = false.
Proof.
  intros [Hne Hw]. destruct (exists_last Hne) as (w' & c & ->).
  apply Forall_app in Hw as [_ Hw].
  apply Forall_cons in Hw as [[Hc _] _]. eauto.
Qed.

Lemma join_cons2 sep w w2 ws :
  Py.join sep (w :: w2 :: ws) = w ++ sep ++ Py.join sep (w2 :: ws).
Proof. done. Qed.

Lemma join_head ws :
  Forall clean_word ws →
  match Py.join [32%N] ws with
  | [] => True
  | c :: _ => Py.isspace c = false
  end.
Proof.
  destruct ws as [|w ws]; [done|]. intros [Hw _]%Forall_cons.
  destruct (word_head w Hw) as (c & w' & -> & Hc).
  destruct ws; simpl; done.
Qed.

Lemma join_last ws :
  Forall clean_word ws →
  match rev (Py.join [32%N] ws) with
  | [] => True
  | c :: _ => Py.isspace c = false
  end.
Proof.
  induction ws as [|w ws IH]; [done|]. intros [Hw Hws]%Forall_cons.
  destruct ws as [|w2 ws].
  - destruct (word_last w Hw) as (c & w' & -> & Hc).
    cbn [Py.join]. by rewrite rev_app_distr.
  - rewrite join_cons2, !rev_app_distr.
    specialize (IH Hws). destruct (rev (Py.join [32%N] (w2 :: ws))) eqn:E.
    + apply (f_equal length) in E. rewrite length_rev in E.
      destruct (word_head w2 (Forall_inv Hws)) as (c & w' & -> & _).
      destruct ws; simpl in E; done.
    + done.
Qed.

(** [.strip()] finds nothing to remove after the join. *)
Lemma clean_text_join t :
  compare_api.clean_text t
  = Py.join [32%N] (Py.split (Py.remove_char compare_api.marker t)).
Proof.
  unfold compare_api.clean_text. fold compare_api.marker.
  apply strip_id; [apply join_head|apply join_last]; apply split_clean_words.
Qed.

Lemma split_aux_word cur w rest :
  Forall (λ c, Py.isspace c = false) w →
  Py.split_aux cur (w ++ rest) = Py.split_aux (rev w ++ cur) rest.
Proof.
  revert cur. induction w as [|c w IH]; intros cur Hw; [done|].
  apply Forall_cons in Hw as [Hc Hw]. cbn [app Py.split_aux]. rewrite Hc.
  rewrite IH by done. cbn [rev]. by rewrite <- app_assoc.
Qed.

Lemma split_join ws :
  Forall clean_word ws → Py.split (Py.join [32%N] ws) = ws.
Proof.
  induction ws as [|w ws IH]; [done|]. intros [Hw Hws]%Forall_cons.
  assert (Forall (λ c, Py.isspace c = false) w) as Hsp.
  { destruct Hw as [_ Hw]. eapply Forall_impl; [exact Hw|]. by intros ? [? _]. }
  destruct (word_head w Hw) as (c & w' & Ew & Hc).
  unfold Py.split. destruct ws as [|w2 ws].
  - cbn [Py.join]. rewrite <- (app_nil_r w) at 1.
    rewrite split_aux_word by done. rewrite app_nil_r. cbn [Py.split_aux].
    rewrite Ew at 1. cbn [rev]. destruct (rev w' ++ [c]) eqn:E.
    + by apply app_eq_nil in E as [_ ?].
    + by rewrite rev_involutive.
  - rewrite join_cons2, split_aux_word by done. rewrite app_nil_r.
    cbn [app Py.split_aux].
    change (Py.isspace 32) with true. cbn match.
    rewrite Ew at 1. cbn [rev]. destruct (rev w' ++ [c]) eqn:E.
    + by apply app_eq_nil in E as [_ ?].
    + rewrite rev_involutive. f_equal. by apply IH.
Qed.

Lemma remove_marker_join ws :
  Forall clean_word ws →
  Py.remove_char compare_api.marker (Py.join [32%N] ws) = Py.join [32%N] ws.
Proof.
  intros Hws. unfold Py.remove_char.
  apply filter_all, Forall_forall. intros c Hc.
  induction ws as [|w ws IH]; [by apply elem_of_nil in Hc|].
  apply Forall_cons in Hws as [Hw Hws]. destruct ws as [|w2 ws].
  - destruct Hw as [_ Hw]. by apply (proj1 (Forall_forall _ _) Hw).
  - rewrite join_cons2 in Hc.
    apply elem_of_app in Hc as [Hc|[Hc|Hc]%elem_of_app].
    + destruct Hw as [_ Hw]. by apply (proj1 (Forall_forall _ _) Hw).
    + by apply list_elem_of_singleton in Hc as ->.
    + by apply IH.
Qed.

(** ** What [clean_text] changes *)

(** Removing the markers is a chain of elementary differences. *)
Lemma differ_remove_marker u t :
  differ_only_ws_marker (u ++ t) (u ++ Py.remove_char compare_api.marker t).
Proof.
  revert u. induction t as [|c t IH]; intros u; [done|].
  unfold Py.remove_char. destruct (decide (c = compare_api.marker)) as [->|Hc].
  - rewrite filter_cons_False by (by intros ?).
    etrans; [|apply IH]. apply rtsc_rl. constructor.
  - rewrite filter_cons_True by done.
    rewrite !(cons_middle c), !app_assoc. apply IH.
Qed.

(** A chain of elementary differences survives behind a whitespace
    character. *)
Lemma differ_behind_space p c s1 s2 :
  Py.isspace c = true →
  differ_only_ws_marker s1 s2 →
  differ_only_ws_marker (p ++ c :: s1) (p ++ c :: s2).
Proof.
  intros Hc H.
  assert (∀ x y, ws_marker_step x y →
                 ws_marker_step (p ++ c :: x) (p ++ c :: y)) as Hstep.
  { intros x y [u v|u w w' v Hw Hw'|u w w' v Hw Hw'|w v Hw|u w Hw].
    - rewrite !(app_comm_cons _ _ c), !app_assoc. constructor.
    - rewrite !(app_comm_cons _ _ c), !app_assoc. by constructor.
    - rewrite !(app_comm_cons _ _ c), !app_assoc. by constructor.
    - by apply step_space_longer.
    - rewrite !(app_comm_cons _ _ c), !app_assoc. by constructor. }
  induction H as [t|t1 t2 t3 [H|H] _ IH]; [done|..].
  - etrans; [|exact IH]. apply rtsc_lr. by apply Hstep.
  - etrans; [|exact IH]. apply rtsc_rl. by apply Hstep.
Qed.

Lemma split_aux_join_nonempty cur s :
  cur ≠ [] → Py.split_aux cur s ≠ [].
Proof.
  revert cur. induction s as [|c s IH]; intros cur Hcur; cbn [Py.split_aux].
  - by destruct cur.
  - destruct (Py.isspace c); [by destruct cur|]. by apply IH.
Qed.

(** Splitting and joining with single spaces is a chain of elementary
    differences. *)
Lemma differ_split_join cur s :
  Forall (λ c, Py.isspace c = false) cur →
  differ_only_ws_marker (rev cur ++ s)
    (Py.join [32%N] (Py.split_aux cur s)).
Proof.
  revert cur. induction s as [|c s IH]; intros cur Hcur; cbn [Py.split_aux].
  - rewrite app_nil_r. by destruct cur.
  - destruct (Py.isspace c) eqn:Hc.
    + destruct cur as [|x cur].
      * cbn [rev app]. etrans; [|apply (IH [] Hcur)].
        apply rtsc_rl. by constructor.
      * set (w := rev (x :: cur)).
        pose proof (IH [] (Forall_nil_2 _)) as Hs. cbn [rev app] in Hs.
        destruct (Py.split_aux [] s) as [|w2 ws] eqn:E.
        -- cbn [Py.join] in *.
           etrans; [apply (differ_behind_space w c s [] Hc Hs)|].
           apply rtsc_rl. by constructor.
        -- rewrite join_cons2.
           etrans; [apply (differ_behind_space w c s _ Hc Hs)|].
           apply rtsc_lr. by apply step_space_kind.
    + rewrite (cons_middle c), app_assoc.
      apply (IH (c :: cur)). by constructor.
Qed.

(** X2 - Cleaning changes nothing but whitespace runs and markers, and it
    separates all other texts: two texts are cleaned to the same string
    exactly when they differ only in whitespace runs and occurrences of
    the marker. *)
Theorem X2_clean_text_exact (t1 t2 : pystr) :
  differ_only_ws_marker t1 (compare_api.clean_text t1)
  ∧ (compare_api.clean_text t1 = compare_api.clean_text t2
     ↔ differ_only_ws_marker t1 t2).
Proof.
  assert (∀ t, differ_only_ws_marker t (compare_api.clean_text t)) as Hclean.
  { intros t. rewrite clean_text_join.
    etrans; [apply (differ_remove_marker [] t)|].
    apply (differ_split_join [] _ (Forall_nil_2 _)). }
  split; [apply Hclean|]. split.
  - intros E. etrans; [apply Hclean|]. rewrite E.
    symmetry. apply Hclean.
  - apply clean_text_differ_only.
Qed.

Lemma clean_text_idempotent t :
  compare_api.clean_text (compare_api.clean_text t)
  = compare_api.clean_text t.
Proof.
  rewrite (clean_text_join (compare_api.clean_text t)).
  rewrite (clean_text_join t).
  rewrite remove_marker_join, split_join; [done|apply split_clean_words..].
Qed.

(** X3 - The normal form of a cleaned text: it is the words of the text
    (non-empty, free of whitespace and of the marker) joined by single
    spaces, so the final [.strip()] removes nothing; cleaning a cleaned
    text changes nothing, and its words are recovered by [split]. *)
Theorem X3_clean_text_normal_form (t : pystr) :
  let words := Py.split (Py.remove_char compare_api.marker t) in
  Forall clean_word words
  ∧ compare_api.clean_text t = Py.join [32%N] words
  ∧ Py.split (compare_api.clean_text t) = words
  ∧ compare_api.clean_text (compare_api.clean_text t)
    = compare_api.clean_text t
  ∧ sync_official_data.clean_text (sync_official_data.clean_text t)
    = sync_official_data.clean_text t.
Proof.
  intros words. pose proof (split_clean_words t) as Hw. fold words in Hw.
  split_and!; [done|apply clean_text_join| |apply clean_text_idempotent|].
  - rewrite clean_text_join. by apply split_join.
  - rewrite !clean_text_sync_eq. apply clean_text_idempotent.
Qed.

(** X2 on a pair of texts that differ in one run of spaces. *)
Lemma X2_clean_text_exact_witness :
  differ_only_ws_marker (py "a  b") (py "a b").
Proof.
  apply (proj1 (proj2 (X2_clean_text_exact (py "a  b") (py "a b")))).
  vm_compute. reflexivity.
Defined.

(** ** The report of a run *)

(** What one remote item does to the report: an exception out of the
    conversion of its [REPEAT], or at most one new row. *)
Lemma compare_item_cases rname local_all r_item reports :
  let out := compare_api.compare_item rname local_all r_item reports in
  match out.2 with
  | Some e =>
      compare_api.r_rep_of r_item = Raise e
      ∧ Exists (matches r_item) local_all
  | None =>
      compare_api.report_items out.1 = reports
      ∨ ∃ r, compare_api.report_items out.1 = reports ++ [r]
          ∧ row_for (rname, r_item) r
  end.
Proof.
  intros out. unfold out, matches.
  set (r_text := compare_api.clean_text (default [] (ARABIC_TEXT r_item))).
  destruct (Forall_Exists_dec (λ l, (score r_text l <= 85 # 100)%Q)
              (λ l, (85 # 100 < score r_text l)%Q)
              (λ l, match Qlt_le_dec (85 # 100) (score r_text l) with
                    | left H => right H
                    | right H => left H
                    end) local_all)
    as [Hall|Hex].
  - unfold compare_api.compare_item. fold r_text.
    set (st0 := {| compare_api.found := false;
                   compare_api.best_match := None;
                   compare_api.best_ratio := 0; compare_api.l_item := None;
                   compare_api.report_items := reports |}).
    pose proof (scan_best_recorded rname (default [] (TITLE r_item)) r_text
                  r_item local_all st0 (λ _, Qle_refl 0)) as Hbest.
    destruct (scan_unmatched rname (default [] (TITLE r_item)) r_text r_item
                local_all st0 Hall) as (st' & E & Hf & Hr & _).
    rewrite E in Hbest |- *. cbn [fst] in Hbest. rewrite Hf.
    change (compare_api.found st0) with false. cbn [negb].
    destruct (Qgtb (compare_api.best_ratio st') (1 # 2)) eqn:Hhalf.
    + destruct (compare_api.best_match st') as [best|].
      * cbn [snd fst compare_api.append_report compare_api.report_items].
        right. eexists. rewrite Hr. split; [done|].
        split_and!; [done|done|]. cbn. set_solver.
      * exfalso. apply Qgtb_true in Hhalf.
        specialize (Hbest eq_refl).
        apply (Qlt_not_le _ _ Hhalf). eapply Qle_trans; [exact Hbest|done].
    + cbn [snd fst compare_api.append_report compare_api.report_items].
      right. eexists. rewrite Hr. split; [done|].
      split_and!; [done|done|]. cbn. set_solver.
  - destruct (first_match_exists (score r_text) (85 # 100) local_all Hex)
      as (pre & l & post & -> & Hpre & Hl).
    destruct (compare_item_matched rname pre l post r_item reports Hpre Hl)
      as (_ & _ & _ & Hrep).
    destruct (compare_api.r_rep_of r_item) as [n|e].
    + destruct Hrep as [-> Hrep]. case_bool_decide.
      * left. by rewrite app_nil_r in Hrep.
      * right. eexists. split; [exact Hrep|].
        split_and!; [done|done|]. cbn. set_solver.
    + destruct Hrep as [-> _]. split; [done|].
      apply Exists_app. right. by left.
Qed.

(** The rows that the items of one category add. *)
Lemma compare_items_rows rname local_all items reports :
  match compare_api.compare_items rname local_all items reports with
  | Ok reports' =>
      ∃ srcs rows,
        reports' = reports ++ rows
        ∧ sublist srcs ((λ i, (rname, i)) <$> items)
        ∧ Forall2 row_for srcs rows
  | Raise e =>
      ∃ r_item,
        r_item ∈ items ∧ compare_api.r_rep_of r_item = Raise e
        ∧ Exists (matches r_item) local_all
  end.
Proof.
  revert reports. induction items as [|r_item items IH]; intros reports.
  - exists [], []. by rewrite app_nil_r.
  - cbn [compare_api.compare_items].
    pose proof (compare_item_cases rname local_all r_item reports) as Hc.
    cbv zeta in Hc.
    destruct (compare_api.compare_item rname local_all r_item reports)
      as [st [e|]]; cbn [fst snd] in Hc.
    + destruct Hc as [He Hex]. exists r_item. split_and!; [by left|done..].
    + specialize (IH (compare_api.report_items st)).
      destruct (compare_api.compare_items rname local_all items
                  (compare_api.report_items st)) as [reports'|e].
      * destruct IH as (srcs & rows & -> & Hsub & Hrows).
        destruct Hc as [->|(r & -> & Hr)].
        -- exists srcs, rows. split_and!; [done| |done].
           cbn [fmap list_fmap]. by apply sublist_cons.
        -- exists ((rname, r_item) :: srcs), (r :: rows).
           split_and!; [by rewrite <- app_assoc| |by constructor].
           cbn [fmap list_fmap]. by apply sublist_skip.
      * destruct IH as (r & Hin & Hr). exists r. split; [by right|done].
Qed.

Lemma fetched_cons fetch rid rname cats :
  fetched fetch ((rid, rname) :: cats)
  = ((λ i, (rname, i)) <$> default [] (fetch rid)) ++ fetched fetch cats.
Proof. done. Qed.

Lemma run_categories_rows local_all fetch cats reports :
  match compare_api.run_categories local_all fetch cats reports with
  | Ok reports' =>
      ∃ srcs rows,
        reports' = reports ++ rows
        ∧ sublist srcs (fetched fetch cats)
        ∧ Forall2 row_for srcs rows
  | Raise e =>
      ∃ rname r_item,
        (rname, r_item) ∈ fetched fetch cats
        ∧ compare_api.r_rep_of r_item = Raise e
        ∧ Exists (matches r_item) local_all
  end.
Proof.
  revert reports.
  induction cats as [|[rid rname] cats IH]; intros reports.
  - exists [], []. by rewrite app_nil_r.
  - cbn [compare_api.run_categories]. rewrite fetched_cons.
    destruct (fetch rid) as [items|]; cbn [default].
    + pose proof (compare_items_rows rname local_all items reports) as Hc.
      destruct (compare_api.compare_items rname local_all items reports)
        as [reports1|e].
      * destruct Hc as (srcs1 & rows1 & -> & Hsub1 & Hrows1).
        specialize (IH (reports ++ rows1)).
        destruct (compare_api.run_categories local_all fetch cats
                    (reports ++ rows1)) as [reports'|e].
        -- destruct IH as (srcs2 & rows2 & -> & Hsub2 & Hrows2).
           exists (srcs1 ++ srcs2), (rows1 ++ rows2).
           split_and!; [by rewrite app_assoc|by apply sublist_app|].
           by apply Forall2_app.
        -- destruct IH as (rn & r & Hin & Hr). exists rn, r.
           split; [|done]. apply elem_of_app. by right.
      * destruct Hc as (r & Hin & Hr). exists rname, r.
        split; [|done]. apply elem_of_app. left.
        apply list_elem_of_fmap. by exists r.
    + specialize (IH reports).
      destruct (compare_api.run_categories local_all fetch cats reports)
        as [reports'|e]; exact IH.
Qed.

(** X4 - The report of a run.  When the run ends normally, the rows it
    added come after the rows that were there, in the order of the remote
    items of the fetched documents, at most one row per item; a row bears
    the display name of the category and the title of its item, and one of
    the three status labels.  Categories whose fetch failed add nothing. *)
Theorem X4_report_rows (local_all : list TextRecord)
    (fetch : Z → option (list RemoteItem)) (cats : list (Z * pystr))
    (reports reports' : list compare_api.report_item) :
  compare_api.run_categories local_all fetch cats reports = Ok reports' →
  ∃ srcs rows,
    reports' = reports ++ rows
    ∧ sublist srcs (fetched fetch cats)
    ∧ Forall2 row_for srcs rows
    ∧ length rows ≤ length (fetched fetch cats).
Proof.
  intros Hrun.
  pose proof (run_categories_rows local_all fetch cats reports) as H.
  rewrite Hrun in H. destruct H as (srcs & rows & ? & Hsub & Hrows).
  exists srcs, rows. split_and!; [done..|].
  rewrite <- (Forall2_length _ _ _ Hrows). by apply sublist_length.
Qed.

(** X4 on a run with one failed fetch and one matched item. *)
Lemma X4_report_rows_witness :
  ∃ srcs rows,
    [] = [] ++ rows
    ∧ sublist srcs
        (fetched (λ rid, if (rid =? 27)%Z
                         then Some [sample_remote (py "abc") None]
                         else None)
           compare_api.mappings)
    ∧ Forall2 row_for srcs rows
    ∧ length rows
      ≤ length
          (fetched (λ rid, if (rid =? 27)%Z
                           then Some [sample_remote (py "abc") None]
                           else None)
             compare_api.mappings).
Proof.
  apply (X4_report_rows [sample_record (py "abc") (py "morning") 1 1]).
  vm_compute. reflexivity.
Defined.



Lemma status_class_cases r :
  compare_api.status r ∈ statuses →
  ∃ c, compare_api.status_class r = Some c
    ∧ (c ∈ compare_api.style_classes
       ↔ compare_api.status r ≠ py "Potential Mismatch").
Proof.
  unfold statuses, compare_api.status_class.
  rewrite !elem_of_cons, elem_of_nil.
  intros [->|[->|[->|[]]]]; eexists; (split; [vm_compute; reflexivity|]).
  - split; [done|]. intros _. apply list_elem_of_In. vm_compute. auto.
  - split; [|done]. intros H%list_elem_of_In. vm_compute in H.
    destruct H as [|[|[|[]]]]; done.
  - split; [done|]. intros _. apply list_elem_of_In. vm_compute. auto.
Qed.

(** X6 - The style class of a report row.  Every row of a report gets a
    class (the status always has a first word), and the class is one the
    style sheet has a rule for exactly when the row is not a Potential
    Mismatch: such a row is given the class of the first word of its
    status, for which no rule exists. *)
Theorem X6_status_class (local_all : list TextRecord)
    (fetch : Z → option (list RemoteItem))
    (reports : list compare_api.report_item) :
  compare_api.run_comparison local_all fetch = Ok reports →
  Forall (λ r, ∃ c, compare_api.status_class r = Some c
                 ∧ (c ∈ compare_api.style_classes
                    ↔ compare_api.status r ≠ py "Potential Mismatch"))
         reports.
Proof.
  intros Hrun. unfold compare_api.run_comparison in Hrun.
  pose proof (run_categories_rows local_all fetch compare_api.mappings [])
    as H.
  rewrite Hrun in H. destruct H as (srcs & rows & -> & _ & Hrows).
  cbn [app].
  clear Hrun.
  induction Hrows as [|src r srcs rows (_ & _ & Hs) _ IH]; [constructor|].
  constructor; [by apply status_class_cases|done].
Qed.

(** X6 on a run that reports one Potential Mismatch. *)
Lemma X6_status_class_witness :
  Forall (λ r, ∃ c, compare_api.status_class r = Some c
                 ∧ (c ∈ compare_api.style_classes
                    ↔ compare_api.status r ≠ py "Potential Mismatch"))
         [compare_api.potential_mismatch (snd (compare_api.mappings !!! 0))
            [] (py "abcd") (sample_record (py "abcx") (py "morning") 1 1)
            (6 # 8)].
Proof.
  apply (X6_status_class [sample_record (py "abcx") (py "morning") 1 1]
           (λ rid, if (rid =? 27)%Z
                   then Some [sample_remote (py "abcd") None] else None)).
  vm_compute. reflexivity.
Defined.

(** ** The two readings of [REPEAT] *)

(** X7 - The matcher and the synchroniser read [REPEAT] alike, with two
    exceptions.  When the matcher's conversion succeeds, the synchroniser
    stores the same count, unless [REPEAT] is the number zero or [false]:
    then the matcher counts 1 and the synchroniser stores 0.  When the
    matcher's conversion raises, the synchroniser stores 1.  An absent
    [REPEAT] is 1 for both. *)
Theorem X7_repeat_readings (item : RemoteItem) :
  match compare_api.r_rep_of item with
  | Ok n =>
      sync_official_data.rep_val_of item = n
      ∨ (n = 1%Z ∧ sync_official_data.rep_val_of item = 0%Z
         ∧ (REPEAT item = Some (JInt 0) ∨ REPEAT item = Some (JBool false)))
  | Raise _ => sync_official_data.rep_val_of item = 1%Z
  end
  ∧ (REPEAT item = None →
     compare_api.r_rep_of item = Ok 1%Z
     ∧ sync_official_data.rep_val_of item = 1%Z).
Proof.
  unfold compare_api.r_rep_of, sync_official_data.rep_val_of.
  destruct (REPEAT item) as [[|[]|z|s]|]; cbn [default from_option Datatypes.id PyInt.truthy PyInt.int].
  - split; [by left|done].
  - split; [by left|done].
  - split; [|done]. right. auto.
  - split; [|done]. destruct (Z.eqb_spec z 0) as [->|Hz]; cbn [negb].
    + right. auto.
    + by left.
  - split; [|done]. destruct (bool_decide (s = [])) eqn:Es; cbn [negb].
    + apply bool_decide_eq_true in Es. subst s. left. by vm_compute.
    + destruct (PyInt.int_of_str s); [by left|done].
  - split; [by left|done].
Qed.

(** X7 on an item without [REPEAT]. *)
Lemma X7_repeat_readings_witness :
  compare_api.r_rep_of (sample_remote (py "abc") None) = Ok 1%Z
  ∧ sync_official_data.rep_val_of (sample_remote (py "abc") None) = 1%Z.
Proof.
  apply (proj2 (X7_repeat_readings (sample_remote (py "abc") None))).
  reflexivity.
Defined.

(** ** The output of [main], block by block *)

Section convert_blocks.

Import convert_adhkar.

Lemma split_classes_prefix cid item clss pre all mi ei :
  split_classes cid item clss (pre ++ all, mi, ei)
  = let r := split_classes cid item clss (all, mi, ei) in
    (pre ++ r.1.1, r.1.2, r.2).
Proof.
  revert all mi ei. induction clss as [|cls clss IH]; intros all mi ei.
  - done.
  - cbn [split_classes]. destruct (bool_decide (cls = py "morning"));
      rewrite <- app_assoc; apply IH.
Qed.

Lemma split_fold_prefix cid items pre all mi ei :
  foldl (λ acc item,
           split_classes cid item
             (classify_morning_evening (item_text item)) acc)
        (pre ++ all, mi, ei) items
  = let r := foldl (λ acc item,
                      split_classes cid item
                        (classify_morning_evening (item_text item)) acc)
                   (all, mi, ei) items in
    (pre ++ r.1.1, r.1.2, r.2).
Proof.
  revert all mi ei. induction items as [|item items IH]; intros all mi ei.
  - done.
  - cbn [foldl]. rewrite split_classes_prefix. cbv zeta.
    rewrite IH. cbv zeta.
    by destruct (split_classes cid item _ (all, mi, ei)) as [[??]?].
Qed.

Lemma convert_category_prefix all cat :
  convert_category all cat = all ++ convert_category [] cat.
Proof.
  unfold convert_category.
  destruct (CATEGORY_MAP !! cat_id cat) as [mapping|];
    [|by rewrite app_nil_r].
  case_bool_decide; [|done].
  unfold split_items. rewrite <- (app_nil_r all) at 1.
  by rewrite split_fold_prefix.
Qed.

Lemma main_fold acc source_data :
  foldl convert_category acc source_data
  = acc ++ concat (convert_category [] <$> source_data).
Proof.
  revert acc. induction source_data as [|cat rest IH]; intros acc.
  - by rewrite app_nil_r.
  - cbn [foldl fmap list_fmap concat]. rewrite IH, convert_category_prefix.
    by rewrite app_assoc.
Qed.

Lemma main_concat source_data :
  main source_data = concat (convert_category [] <$> source_data).
Proof. apply main_fold. Qed.

End convert_blocks.

(** X8 - The conversion works block by block.  The output for a list of
    source blocks is the output for its first part followed by the output
    for the rest: what a block contributes does not depend on the blocks
    before it.  A block whose id is not a key of [CATEGORY_MAP]
    contributes nothing, wherever it stands. *)
Theorem X8_main_blockwise (l1 l2 : list convert_adhkar.SourceCategory) :
  convert_adhkar.main (l1 ++ l2)
  = convert_adhkar.main l1 ++ convert_adhkar.main l2
  ∧ ∀ cat,
      convert_adhkar.CATEGORY_MAP !! convert_adhkar.cat_id cat = None →
      convert_adhkar.main (l1 ++ cat :: l2)
      = convert_adhkar.main l1 ++ convert_adhkar.main l2.
Proof.
  rewrite !main_concat. split.
  - by rewrite fmap_app, concat_app.
  - intros cat Hcat. rewrite main_concat, fmap_app, concat_app.
    cbn [fmap list_fmap concat]. f_equal.
    unfold convert_adhkar.convert_category at 1. by rewrite Hcat.
Qed.

(** X8 on a block with the unknown id 0 between no other blocks. *)
Lemma X8_main_blockwise_witness :
  convert_adhkar.main
    ([] ++ [{| convert_adhkar.cat_id := 0; convert_adhkar.cat_name := [];
               convert_adhkar.array := [sample_item 1 (py "abc") None] |}])
  = convert_adhkar.main [] ++ convert_adhkar.main [].
Proof.
  apply (proj2 (X8_main_blockwise [] [])). vm_compute. reflexivity.
Defined.

(** The split of convert_adhkar.py on an item without any keyword. *)
Lemma convert_split_item_witness :
  ∃ r1 r2,
    (convert_adhkar.split_classes 1 (sample_item 7 (py "abc") None)
       (convert_adhkar.classify_morning_evening (py "abc")) ([], 0%Z, 0%Z)).1.1
    = [r1; r2]
    ∧ convert_adhkar.id r1 = py "adhkar-1-006-m"
    ∧ convert_adhkar.id r2 = py "adhkar-1-006-e".
Proof.
  destruct (convert_split_item 1 (sample_item 7 (py "abc") None) [] 0%Z 0%Z)
    as (new & Hnew & _ & _ & _ & Hboth).
  destruct Hboth as (r1 & r2 & -> & _ & _ & H1 & H2 & _);
    [vm_compute; reflexivity|].
  exists r1, r2. split_and!; [exact Hnew|exact H1|exact H2].
Defined.

(** ** Numerals and ids *)

Lemma str_of_N_digits n : Py.str_of_N n = digits_of_uint (N.to_uint n).
Proof. reflexivity. Qed.

Lemma digits_of_uint_digit u : Forall is_digit (digits_of_uint u).
Proof.
  induction u; cbn [digits_of_uint]; constructor; try done;
    unfold is_digit; lia.
Qed.

Lemma uint_of_digits_of u : uint_of_digits (digits_of_uint u) = u.
Proof. induction u; cbn; by f_equal. Qed.

Lemma of_digits_zeros k s :
  N.of_uint (uint_of_digits (replicate k 48%N ++ s))
  = N.of_uint (uint_of_digits s).
Proof. induction k as [|k IH]; [done|]. exact IH. Qed.

(** Zero padding loses nothing. *)
Lemma pad_inj k1 k2 n1 n2 :
  replicate k1 48%N ++ Py.str_of_N n1 = replicate k2 48%N ++ Py.str_of_N n2 →
  n1 = n2.
Proof.
  intros E. apply (f_equal (λ s, N.of_uint (uint_of_digits s))) in E.
  rewrite !of_digits_zeros, !str_of_N_digits, !uint_of_digits_of in E.
  by rewrite !DecimalN.Unsigned.of_to in E.
Qed.

Lemma str_of_N_nonempty n : Py.str_of_N n ≠ [].
Proof.
  rewrite str_of_N_digits. intros E.
  apply (f_equal uint_of_digits) in E. rewrite uint_of_digits_of in E.
  cbn in E. destruct n as [|p]; [done|].
  apply (f_equal N.of_uint) in E.
  change (N.to_uint (N.pos p)) with (N.to_uint (N.pos p)) in E.
  rewrite DecimalN.Unsigned.of_to in E. done.
Qed.

Lemma pad_digits k n :
  replicate k 48%N ++ Py.str_of_N n ≠ []
  ∧ Forall is_digit (replicate k 48%N ++ Py.str_of_N n).
Proof.
  split.
  - intros [_ E]%app_eq_nil. by apply str_of_N_nonempty in E.
  - apply Forall_app. split.
    + apply Forall_replicate. unfold is_digit. lia.
    + rewrite str_of_N_digits. apply digits_of_uint_digit.
Qed.

Lemma str_of_int_numeral z : numeral (Py.str_of_int z).
Proof.
  unfold Py.str_of_int.
  destruct (pad_digits 0 (Z.abs_N z)) as [Hne Hd]. cbn [replicate app] in *.
  destruct (z <? 0)%Z.
  - exists [45%N], (Py.str_of_N (Z.abs_N z)). split_and!; auto.
  - exists [], (Py.str_of_N (Z.abs_N z)). split_and!; auto.
Qed.

Lemma format_03d_numeral z : numeral (Py.format_03d z).
Proof.
  unfold Py.format_03d.
  destruct (z <? 0)%Z.
  - destruct (pad_digits (2 - length (Py.str_of_N (Z.abs_N z))) (Z.abs_N z))
      as [Hne Hd].
    eexists [45%N], _. split_and!; [reflexivity|auto|exact Hne|exact Hd].
  - destruct (pad_digits (3 - length (Py.str_of_N (Z.abs_N z))) (Z.abs_N z))
      as [Hne Hd].
    eexists [], _. split_and!; [reflexivity|auto|exact Hne|exact Hd].
Qed.

(** A run of digits ends where the digits end. *)
Lemma digits_prefix_unique d1 r1 d2 r2 :
  Forall is_digit d1 → Forall is_digit d2 →
  no_digit_ahead r1 → no_digit_ahead r2 →
  d1 ++ r1 = d2 ++ r2 → d1 = d2 ∧ r1 = r2.
Proof.
  intros H1. revert d2. induction H1 as [|c d1 Hc _ IH]; intros d2 H2 Hr1 Hr2.
  - destruct H2 as [|c d2 Hc _]; [done|].
    cbn [app]. intros ->. by destruct Hr1.
  - destruct H2 as [|c2 d2 Hc2 H2].
    + cbn [app]. intros <-. by destruct Hr2.
    + cbn [app]. intros [= <- E]. destruct (IH d2 H2 Hr1 Hr2 E) as [-> ->].
      done.
Qed.

(** A numeral ends where its digits end. *)
Lemma numeral_prefix_unique s1 r1 s2 r2 :
  numeral s1 → numeral s2 → no_digit_ahead r1 → no_digit_ahead r2 →
  s1 ++ r1 = s2 ++ r2 → s1 = s2 ∧ r1 = r2.
Proof.
  intros (sg1 & d1 & -> & Hsg1 & Hne1 & Hd1) (sg2 & d2 & -> & Hsg2 & Hne2 & Hd2)
    Hr1 Hr2 E.
  assert (∀ d, d ≠ [] → Forall is_digit d →
            ∃ c d', d = c :: d' ∧ c ≠ 45%N) as Hhead.
  { intros [|c d'] Hne Hd; [done|]. exists c, d'. split; [done|].
    apply Forall_cons in Hd as [Hc _]. unfold is_digit in Hc. lia. }
  destruct Hsg1 as [->| ->], Hsg2 as [->| ->]; cbn [app] in *.
  - by apply digits_prefix_unique.
  - destruct (Hhead d1 Hne1 Hd1) as (c & d' & -> & Hc). by injection E.
  - destruct (Hhead d2 Hne2 Hd2) as (c & d' & -> & Hc). by injection E.
  - injection E as E.
    destruct (digits_prefix_unique d1 r1 d2 r2 Hd1 Hd2 Hr1 Hr2 E) as [-> ->].
    done.
Qed.

Lemma abs_N_sign_inj z1 z2 :
  (z1 <? 0)%Z = (z2 <? 0)%Z → Z.abs_N z1 = Z.abs_N z2 → z1 = z2.
Proof.
  intros Hs Ha.
  destruct (Z.ltb_spec z1 0), (Z.ltb_spec z2 0); try done; lia.
Qed.

Lemma str_of_int_inj z1 z2 : Py.str_of_int z1 = Py.str_of_int z2 → z1 = z2.
Proof.
  unfold Py.str_of_int. intros E.
  destruct (pad_digits 0 (Z.abs_N z1)) as [Hne1 Hd1].
  destruct (pad_digits 0 (Z.abs_N z2)) as [Hne2 Hd2].
  cbn [replicate app] in *.
  destruct (z1 <? 0)%Z eqn:E1, (z2 <? 0)%Z eqn:E2.
  - injection E as E. apply (pad_inj 0 0) in E.
    apply abs_N_sign_inj; congruence.
  - exfalso. destruct (Py.str_of_N (Z.abs_N z2)) as [|c d]; [done|].
    injection E as <- _. apply Forall_cons in Hd2 as [Hc _].
    unfold is_digit in Hc. lia.
  - exfalso. destruct (Py.str_of_N (Z.abs_N z1)) as [|c d]; [done|].
    injection E as -> _. apply Forall_cons in Hd1 as [Hc _].
    unfold is_digit in Hc. lia.
  - apply (pad_inj 0 0) in E. apply abs_N_sign_inj; congruence.
Qed.

Lemma format_03d_inj z1 z2 : Py.format_03d z1 = Py.format_03d z2 → z1 = z2.
Proof.
  unfold Py.format_03d. intros E.
  destruct (z1 <? 0)%Z eqn:E1, (z2 <? 0)%Z eqn:E2.
  - injection E as E. apply pad_inj in E.
    apply abs_N_sign_inj; congruence.
  - exfalso.
    destruct (pad_digits (3 - length (Py.str_of_N (Z.abs_N z2))) (Z.abs_N z2))
      as [Hne Hd].
    rewrite <- E in Hd. apply Forall_cons in Hd as [Hc _].
    unfold is_digit in Hc. lia.
  - exfalso.
    destruct (pad_digits (3 - length (Py.str_of_N (Z.abs_N z1))) (Z.abs_N z1))
      as [Hne Hd].
    rewrite E in Hd. apply Forall_cons in Hd as [Hc _].
    unfold is_digit in Hc. lia.
  - apply pad_inj in E. apply abs_N_sign_inj; congruence.
Qed.

Lemma make_id_eq c i s :
  convert_adhkar.make_id c i s
  = py "adhkar-" ++ Py.str_of_int c ++ 45%N :: Py.format_03d i ++ id_suffix s.
Proof.
  unfold convert_adhkar.make_id, id_suffix.
  destruct s as [[|x sfx]|]; rewrite <- ?app_assoc; cbn [app];
    rewrite ?app_nil_r; done.
Qed.

Lemma id_suffix_no_digit s : no_digit_ahead (id_suffix s).
Proof.
  destruct s as [[|x sfx]|]; cbn; try done. unfold is_digit. lia.
Qed.

(** The block id and the index are read off an id without loss. *)
Lemma id_body_inj c1 i1 r1 c2 i2 r2 :
  no_digit_ahead r1 → no_digit_ahead r2 →
  Py.str_of_int c1 ++ 45%N :: Py.format_03d i1 ++ r1
  = Py.str_of_int c2 ++ 45%N :: Py.format_03d i2 ++ r2 →
  c1 = c2 ∧ i1 = i2 ∧ r1 = r2.
Proof.
  intros Hr1 Hr2 E.
  assert (∀ r, no_digit_ahead (45%N :: r)) as Hminus
    by (intros r; unfold no_digit_ahead, is_digit; lia).
  destruct (numeral_prefix_unique _ _ _ _ (str_of_int_numeral c1)
              (str_of_int_numeral c2) (Hminus _) (Hminus _) E) as [Ec E'].
  injection E' as E'.
  destruct (numeral_prefix_unique _ _ _ _ (format_03d_numeral i1)
              (format_03d_numeral i2) Hr1 Hr2 E') as [Ei Es].
  split_and!; [by apply str_of_int_inj|by apply format_03d_inj|done].
Qed.

(** [make_id] tells apart any two blocks, any two indices, any two
    suffixes. *)
Lemma make_id_inj c1 i1 s1 c2 i2 s2 :
  convert_adhkar.make_id c1 i1 s1 = convert_adhkar.make_id c2 i2 s2 →
  c1 = c2 ∧ i1 = i2 ∧ id_suffix s1 = id_suffix s2.
Proof.
  rewrite !make_id_eq. intros E. apply app_inv_head in E.
  apply id_body_inj in E; [done|apply id_suffix_no_digit..].
Qed.

(** ** The ids of the output *)

Section convert_ids.

Import convert_adhkar.

Lemma general_ids cid name mapping items :
  id <$> convert_items cid name mapping items
  = (λ idx, make_id cid (Z.of_nat idx) None) <$> seq 0 (length items).
Proof.
  unfold convert_items. destruct mapping as [[src cat] hc].
  rewrite fmap_imap.
  apply (imap_seq_0 items (λ idx, make_id cid (Z.of_nat idx) None)).
Qed.

Lemma general_ids_NoDup cid name mapping items :
  NoDup (id <$> convert_items cid name mapping items).
Proof.
  rewrite general_ids. apply NoDup_fmap_2_strong; [|apply NoDup_seq].
  intros x y _ _ E. apply make_id_inj in E as (_ & E & _). lia.
Qed.

Lemma split_group_ids cid item g :
  category <$> g = Some <$> classify_morning_evening (item_text item) →
  Forall (split_entry_ok cid item) g →
  NoDup (id <$> g)
  ∧ Forall (λ r, ∃ s, id r = make_id cid (item_id item - 1) s) g.
Proof.
  intros Hcat Hok. split.
  - rewrite classify_cases in Hcat.
    destruct (Py.any_in MORNING_KEYWORDS (item_text item)),
      (Py.any_in EVENING_KEYWORDS (item_text item));
      cbn [andb negb fmap list_fmap] in Hcat;
      destruct g as [|r1 [|r2 [|??]]]; try done;
      try (cbn; apply NoDup_singleton).
    all: injection Hcat as H1 H2;
      apply Forall_cons in Hok as [(_ & _ & _ & _ & c1 & Hc1 & Hi1) Hok];
      apply Forall_cons in Hok as [(_ & _ & _ & _ & c2 & Hc2 & Hi2) _];
      cbn [fmap list_fmap]; rewrite Hi1, Hi2;
      assert (c1 = py "morning") as -> by congruence;
      assert (c2 = py "evening") as -> by congruence;
      apply NoDup_cons; (split; [|apply NoDup_singleton]);
      intros E%list_elem_of_singleton;
      apply make_id_inj in E as (_ & _ & E); discriminate.
  - eapply Forall_impl; [exact Hok|].
    intros r (_ & _ & _ & _ & cls & _ & Hi). eauto.
Qed.

Lemma split_groups_ids cid items groups :
  NoDup (item_id <$> items) →
  Forall2 (λ item g,
             category <$> g
             = Some <$> classify_morning_evening (item_text item)
             ∧ Forall (split_entry_ok cid item) g) items groups →
  NoDup (id <$> concat groups)
  ∧ Forall (λ r, ∃ item s, item ∈ items
                          ∧ id r = make_id cid (item_id item - 1) s)
           (concat groups).
Proof.
  intros Hnd H. induction H as [|item g items groups [Hcat Hok] _ IH].
  - split; [constructor|constructor].
  - cbn [fmap list_fmap] in Hnd. apply NoDup_cons in Hnd as [Hnew Hnd].
    destruct (IH Hnd) as [IHnd IHall].
    destruct (split_group_ids cid item g Hcat Hok) as [Hg Hgall].
    cbn [concat]. split.
    + rewrite fmap_app. apply NoDup_app. split_and!; [done| |done].
      intros x (r & -> & Hr)%list_elem_of_fmap (r' & E & Hr')%list_elem_of_fmap.
      apply (proj1 (Forall_forall _ _) Hgall) in Hr as [s Hs].
      apply (proj1 (Forall_forall _ _) IHall) in Hr'
        as (item' & s' & Hin & Hs').
      rewrite Hs, Hs' in E. apply make_id_inj in E as (_ & E & _).
      apply Hnew. apply list_elem_of_fmap. exists item'. split; [lia|done].
    + apply Forall_app. split.
      * eapply Forall_impl; [exact Hgall|]. intros r [s Hs].
        exists item, s. split; [by left|done].
      * eapply Forall_impl; [exact IHall|]. intros r (item' & s & Hin & Hs).
        exists item', s. split; [by right|done].
Qed.

(** The ids of one block. *)
Lemma block_ids cat :
  (cat_id cat = 1%Z → NoDup (item_id <$> array cat)) →
  NoDup (id <$> convert_category [] cat)
  ∧ Forall (from_block (cat_id cat)) (convert_category [] cat).
Proof.
  intros Hitems. unfold convert_category.
  destruct (CATEGORY_MAP !! cat_id cat) as [mapping|];
    [|split; constructor].
  case_bool_decide as H1.
  - destruct (split_items_spec (cat_id cat) (array cat) [])
      as (groups & -> & Hall & _).
    cbn [app].
    destruct (split_groups_ids (cat_id cat) (array cat) groups (Hitems H1)
                Hall) as [Hnd Hfrom].
    split; [done|]. eapply Forall_impl; [exact Hfrom|].
    intros r (item & s & _ & Hs). by exists (item_id item - 1)%Z, s.
  - cbn [app]. split; [apply general_ids_NoDup|].
    apply Forall_forall. intros r Hr.
    assert (id r ∈ id <$> convert_items (cat_id cat) (cat_name cat) mapping
                            (array cat)) as Hid
      by (apply list_elem_of_fmap; eauto).
    rewrite general_ids in Hid.
    apply list_elem_of_fmap in Hid as (idx & Hid & _).
    by exists (Z.of_nat idx), None.
Qed.

End convert_ids.

(** X9 - The ids of the output are unique.  When no two source blocks
    share an id, and the items of a block with the split id 1 have
    pairwise distinct ids, no two records of the output of [main] share
    an id: the id spells the block id and a zero-padded index without
    loss, and the suffixes [-m] and [-e] keep the two records of one item
    apart. *)
Theorem X9_ids_unique (source_data : list convert_adhkar.SourceCategory) :
  NoDup (convert_adhkar.cat_id <$> source_data) →
  (∀ cat, cat ∈ source_data → convert_adhkar.cat_id cat = 1%Z →
          NoDup (convert_adhkar.item_id <$> convert_adhkar.array cat)) →
  NoDup (convert_adhkar.id <$> convert_adhkar.main source_data).
Proof.
  rewrite main_concat.
  induction source_data as [|cat rest IH]; intros Hnd Hitems; [constructor|].
  cbn [fmap list_fmap] in Hnd. apply NoDup_cons in Hnd as [Hnew Hnd].
  cbn [fmap list_fmap concat]. rewrite fmap_app.
  destruct (block_ids cat (Hitems cat ltac:(left))) as [Hb Hfrom].
  apply NoDup_app. split_and!; [done| |].
  - intros x (r & -> & Hr)%list_elem_of_fmap (r' & E & Hr')%list_elem_of_fmap.
    apply (proj1 (Forall_forall _ _) Hfrom) in Hr as (i & s & Hs).
    apply elem_of_concat in Hr' as (l & Hr' & Hl).
    apply list_elem_of_fmap in Hl as (cat' & -> & Hcat').
    destruct (block_ids cat' (Hitems cat' ltac:(by right))) as [_ Hfrom'].
    apply (proj1 (Forall_forall _ _) Hfrom') in Hr' as (i' & s' & Hs').
    rewrite Hs, Hs' in E. apply make_id_inj in E as (E & _).
    apply Hnew. apply list_elem_of_fmap. by exists cat'.
  - apply IH; [done|]. intros cat' Hin. apply Hitems. by right.
Qed.

(** X9 on a split block with an item without keywords and a block with
    id 5. *)
Lemma X9_ids_unique_witness :
  NoDup
    (convert_adhkar.id <$>
     convert_adhkar.main
       [{| convert_adhkar.cat_id := 1; convert_adhkar.cat_name := [];
           convert_adhkar.array := [sample_item 1 (py "abc") None] |};
        {| convert_adhkar.cat_id := 5; convert_adhkar.cat_name := [];
           convert_adhkar.array := [sample_item 1 (py "abc") None] |}]).
Proof.
  apply X9_ids_unique.
  - cbn. apply NoDup_cons. split; [|apply NoDup_singleton].
    by intros ?%list_elem_of_singleton.
  - intros cat Hin _.
    apply elem_of_cons in Hin as [->|Hin];
      [|apply list_elem_of_singleton in Hin as ->];
      cbn; apply NoDup_singleton.
Defined.

(** ** sync_official_data.py: the run, category by category *)

Section sync.

Import sync_official_data.

Lemma sync_category_app out cat :
  sync_category out cat
  = {| final_daily := final_daily out ++ final_daily (category_output cat);
       final_hisn_duas :=
         final_hisn_duas out ++ final_hisn_duas (category_output cat);
       final_hisn_categories :=
         final_hisn_categories out
         ++ final_hisn_categories (category_output cat) |}.
Proof.
  unfold category_output, sync_category.
  destruct (content cat) as [items|].
  - destruct (daily_mapping !! cid cat); cbn; by rewrite ?app_nil_r.
  - cbn. rewrite !app_nil_r. by destruct out.
Qed.

Lemma run_sync_fold out cats :
  foldl sync_category out cats
  = {| final_daily :=
         final_daily out ++ concat ((final_daily ∘ category_output) <$> cats);
       final_hisn_duas :=
         final_hisn_duas out
         ++ concat ((final_hisn_duas ∘ category_output) <$> cats);
       final_hisn_categories :=
         final_hisn_categories out
         ++ concat ((final_hisn_categories ∘ category_output) <$> cats) |}.
Proof.
  revert out. induction cats as [|cat cats IH]; intros out.
  - cbn. rewrite !app_nil_r. by destruct out.
  - cbn [foldl]. rewrite IH, sync_category_app. cbn.
    by rewrite <- !app_assoc.
Qed.

Lemma run_sync_concat cats :
  run_sync cats
  = {| final_daily := concat ((final_daily ∘ category_output) <$> cats);
       final_hisn_duas :=
         concat ((final_hisn_duas ∘ category_output) <$> cats);
       final_hisn_categories :=
         concat ((final_hisn_categories ∘ category_output) <$> cats) |}.
Proof. unfold run_sync. by rewrite run_sync_fold. Qed.

Lemma category_output_failed cat :
  content cat = None → category_output cat = no_output.
Proof. unfold category_output, sync_category. by intros ->. Qed.

Lemma category_output_fetched cat items :
  content cat = Some items →
  final_daily (category_output cat)
  = concat (fst <$> imap (sync_item (cid cat) (ctitle cat) (length items))
                      items)
  ∧ final_hisn_duas (category_output cat)
    = concat (snd <$> imap (sync_item (cid cat) (ctitle cat) (length items))
                        items)
  ∧ final_hisn_categories (category_output cat)
    = match daily_mapping !! cid cat with
      | Some _ => []
      | None => [hisn_category_of cat]
      end.
Proof.
  unfold category_output, sync_category. intros ->. cbn.
  by destruct (daily_mapping !! cid cat).
Qed.

(** The daily ids and their targets. *)
Lemma daily_mapping_cases c :
  daily_mapping !! c
  = if bool_decide (c = 27%Z) then Some [py "morning"; py "evening"]
    else if bool_decide (c = 28%Z) then Some [py "sleep"]
    else if bool_decide (c = 1%Z) then Some [py "waking"]
    else if bool_decide (c = 25%Z) then Some [py "after_prayer"]
    else None.
Proof.
  unfold daily_mapping. cbn [list_to_map foldr uncurry fst snd].
  do 4 (case_bool_decide;
        [subst c; by vm_compute|rewrite lookup_insert_ne by congruence]).
  apply lookup_empty.
Qed.

Lemma dhikr_obj_ok c t n idx item :
  sync_record_ok (dhikr_obj_of c t n idx item)
  ∧ id (dhikr_obj_of c t n idx item) = sync_id c idx [].
Proof.
  unfold sync_record_ok, dhikr_obj_of, sync_id. cbn.
  split_and!; try done; try lia.
  - rewrite !clean_text_sync_eq. apply clean_text_idempotent.
  - by rewrite app_nil_r.
Qed.

Lemma with_category_ok c r :
  sync_record_ok r → sync_record_ok (with_category c r).
Proof. by destruct r. Qed.

Lemma with_id_ok i r : sync_record_ok r → sync_record_ok (with_id i r).
Proof. by destruct r. Qed.

Lemma sync_id_suffix c idx sfx : sync_id c idx [] ++ sfx = sync_id c idx sfx.
Proof.
  unfold sync_id. by rewrite app_nil_r, <- !app_assoc.
Qed.

Lemma sync_id_inj c1 i1 s1 c2 i2 s2 :
  no_digit_ahead s1 → no_digit_ahead s2 →
  sync_id c1 i1 s1 = sync_id c2 i2 s2 → c1 = c2 ∧ i1 = i2 ∧ s1 = s2.
Proof.
  unfold sync_id. intros H1 H2 E. apply app_inv_head in E.
  apply id_body_inj in E as (? & ? & ?); [|done..].
  split_and!; [done|lia|done].
Qed.

(** The records of one item. *)
Lemma sync_item_spec c t n idx item :
  let out := sync_item c t n idx item in
  Forall (λ r, sync_record_ok r ∧ sync_record_of c idx r) (out.1 ++ out.2)
  ∧ NoDup (id <$> out.1 ++ out.2)
  ∧ match daily_mapping !! c with
    | Some _ =>
        out.2 = [] ∧ Forall (λ r, category r ∈ daily_categories) out.1
    | None =>
        out.1 = []
        ∧ Forall (λ r, category r = py "cat-" ++ Py.str_of_int c) out.2
    end.
Proof.
  destruct (dhikr_obj_ok c t n idx item) as [Hok Hid].
  assert (sync_record_of c idx (dhikr_obj_of c t n idx item)) as Hof
    by (by exists []).
  assert (∀ cat, sync_record_of c idx
                   (with_category cat (dhikr_obj_of c t n idx item)))
    as Hofc by (by intros cat; exists []).
  assert (∀ x, x ∈ daily_categories → Forall (λ r, category r ∈ daily_categories)
                 [with_category x (dhikr_obj_of c t n idx item)]) as Hcat.
  { intros x Hx. apply List.Forall_cons; [exact Hx|constructor]. }
  assert (∀ x, NoDup (id <$> [with_category x (dhikr_obj_of c t n idx item)]
                        ++ [])) as Hone by (intros x; apply NoDup_singleton).
  assert (∀ x, Forall (λ r, sync_record_ok r ∧ sync_record_of c idx r)
                 ([with_category x (dhikr_obj_of c t n idx item)] ++ []))
    as Hall.
  { intros x. apply List.Forall_cons; [|constructor].
    split; [by apply with_category_ok|done]. }
  assert (py "morning" ∈ daily_categories) as Hm
    by (apply list_elem_of_In; vm_compute; auto).
  assert (py "evening" ∈ daily_categories) as He
    by (apply list_elem_of_In; vm_compute; auto).
  unfold sync_item. cbv zeta. rewrite daily_mapping_cases.
  case_bool_decide as H27.
  { unfold split_27.
    destruct (_ || _); [|destruct (_ || _)]; cbn [fst snd].
    - split_and!; [apply Hall|apply Hone|done|by apply Hcat].
    - split_and!; [apply Hall|apply Hone|done|by apply Hcat].
    - rewrite app_nil_r. split_and!; [| |done|].
      + apply List.Forall_cons; [|apply List.Forall_cons; [|constructor]].
        * split; [by apply with_id_ok, with_category_ok|].
          exists (py "-m"). cbn [id with_id]. rewrite Hid.
          split; [apply sync_id_suffix|]. cbn. unfold is_digit. lia.
        * split; [by apply with_id_ok, with_category_ok|].
          exists (py "-e"). cbn [id with_id]. rewrite Hid.
          split; [apply sync_id_suffix|]. cbn. unfold is_digit. lia.
      + cbn [fmap list_fmap id with_id].
        apply NoDup_cons. split; [|apply NoDup_singleton].
        intros E%list_elem_of_singleton. apply app_inv_head in E. done.
      + apply List.Forall_cons; [exact Hm|].
        apply List.Forall_cons; [exact He|constructor]. }
  assert (∀ x, x ∈ daily_categories →
            let out := ([with_category x (dhikr_obj_of c t n idx item)],
                        @nil TextRecord) in
            Forall (λ r, sync_record_ok r ∧ sync_record_of c idx r)
                   (out.1 ++ out.2)
            ∧ NoDup (id <$> out.1 ++ out.2)
            ∧ out.2 = [] ∧ Forall (λ r, category r ∈ daily_categories) out.1)
    as Hdaily.
  { intros x Hx. cbn [fst snd].
    split_and!; [apply Hall|apply Hone|done|by apply Hcat]. }
  case_bool_decide as H28.
  { apply Hdaily.
    apply list_elem_of_In; vm_compute; auto. }
  case_bool_decide as H1.
  { apply Hdaily.
    apply list_elem_of_In; vm_compute; auto 10. }
  case_bool_decide as H25.
  { apply Hdaily.
    apply list_elem_of_In; vm_compute; auto 10. }
  cbn [fst snd app]. split_and!; [|apply NoDup_singleton|done|].
  - apply List.Forall_cons; [|constructor].
    split; [by apply with_category_ok|done].
  - apply List.Forall_cons; [done|constructor].
Qed.

Lemma Forall2_seq_imap {A B} (P : nat → B → Prop) (f : nat → A → B) l k :
  (∀ i x, l !! i = Some x → P (k + i) (f i x)) →
  Forall2 P (seq k (length l)) (imap f l).
Proof.
  revert k f. induction l as [|x l IH]; intros k f H; [constructor|].
  cbn [length seq imap]. constructor.
  - specialize (H 0 x eq_refl). by rewrite Nat.add_0_r in H.
  - apply IH. intros i y Hy. specialize (H (S i) y Hy).
    by rewrite Nat.add_succ_r in H.
Qed.

Lemma NoDup_concat_tagged {A T} (f : A → pystr) (R : T → A → Prop)
    (ts : list T) (ls : list (list A)) :
  (∀ t1 t2 x y, R t1 x → R t2 y → f x = f y → t1 = t2) →
  NoDup ts →
  Forall2 (λ t l, NoDup (f <$> l) ∧ Forall (R t) l) ts ls →
  NoDup (f <$> concat ls).
Proof.
  intros Hinj Hnd H.
  induction H as [|t l ts ls [Hl HR] H IH]; [constructor|].
  apply NoDup_cons in Hnd as [Hnew Hnd]. cbn [concat].
  rewrite fmap_app. apply NoDup_app. split_and!; [done| |by apply IH].
  intros x (a & -> & Ha)%list_elem_of_fmap (b & E & Hb)%list_elem_of_fmap.
  apply elem_of_concat in Hb as (l' & Hb & Hl').
  apply list_elem_of_lookup in Hl' as [i Hi].
  destruct (Forall2_lookup_r _ _ _ _ _ H Hi) as (t' & Ht' & _ & HR').
  apply Hnew. rewrite (Hinj t t' a b); [by eapply list_elem_of_lookup_2| |
                                         |done].
  - by apply (proj1 (Forall_forall _ _) HR).
  - by apply (proj1 (Forall_forall _ _) HR').
Qed.

Lemma Forall_concat {A} (P : A → Prop) (ls : list (list A)) :
  Forall (Forall P) ls → Forall P (concat ls).
Proof.
  induction 1 as [|l ls Hl _ IH]; [constructor|].
  cbn [concat]. by apply Forall_app.
Qed.

Lemma record_of_inj c i1 i2 x y :
  sync_record_of c i1 x → sync_record_of c i2 y → id x = id y → i1 = i2.
Proof.
  intros (s1 & -> & H1) (s2 & -> & H2) E.
  by apply sync_id_inj in E as (_ & ? & _).
Qed.

(** The records of one category of the index. *)
Lemma category_records cat :
  let o := category_output cat in
  Forall (λ r, sync_record_ok r ∧ category r ∈ daily_categories
               ∧ is_Some (daily_mapping !! cid cat)
               ∧ ∃ idx, sync_record_of (cid cat) idx r) (final_daily o)
  ∧ Forall (λ r, sync_record_ok r
                 ∧ category r = py "cat-" ++ Py.str_of_int (cid cat)
                 ∧ library_category cat = true
                 ∧ ∃ idx, sync_record_of (cid cat) idx r) (final_hisn_duas o)
  ∧ NoDup (id <$> final_daily o) ∧ NoDup (id <$> final_hisn_duas o)
  ∧ final_hisn_categories o
    = (if library_category cat then [hisn_category_of cat] else []).
Proof.
  cbv zeta. unfold library_category.
  destruct (content cat) as [items|] eqn:Hc.
  2:{ rewrite (category_output_failed cat Hc). cbn.
      split_and!; constructor. }
  destruct (category_output_fetched cat items Hc) as (-> & -> & ->).
  set (f := sync_item (cid cat) (ctitle cat) (length items)).
  assert (∀ i x, items !! i = Some x →
            Forall (λ r, sync_record_ok r ∧ sync_record_of (cid cat) i r)
                   ((f i x).1 ++ (f i x).2)
            ∧ NoDup (id <$> (f i x).1 ++ (f i x).2)
            ∧ match daily_mapping !! cid cat with
              | Some _ =>
                  (f i x).2 = []
                  ∧ Forall (λ r, category r ∈ daily_categories) (f i x).1
              | None =>
                  (f i x).1 = []
                  ∧ Forall (λ r, category r
                                 = py "cat-" ++ Py.str_of_int (cid cat))
                           (f i x).2
              end) as Hitem
    by (intros i x _; apply sync_item_spec).
  split_and!.
  - apply Forall_concat, Forall_fmap, Forall_forall.
    intros p (i & x & -> & Hx)%elem_of_lookup_imap.
    destruct (Hitem i x Hx) as (Hall & _ & Hm). unfold compose.
    apply Forall_app in Hall as [Hall _].
    destruct (daily_mapping !! cid cat) as [tc|].
    + destruct Hm as [_ Hm]. apply Forall_forall. intros r Hr.
      pose proof (proj1 (Forall_forall _ _) Hall r Hr) as [? ?].
      pose proof (proj1 (Forall_forall _ _) Hm r Hr).
      split_and!; [done|done|by apply (mk_is_Some _ tc)|by exists i].
    + destruct Hm as [-> _]. constructor.
  - apply Forall_concat, Forall_fmap, Forall_forall.
    intros p (i & x & -> & Hx)%elem_of_lookup_imap.
    destruct (Hitem i x Hx) as (Hall & _ & Hm). unfold compose.
    apply Forall_app in Hall as [_ Hall].
    destruct (daily_mapping !! cid cat) as [tc|].
    + destruct Hm as [-> _]. constructor.
    + destruct Hm as [_ Hm]. apply Forall_forall. intros r Hr.
      pose proof (proj1 (Forall_forall _ _) Hall r Hr) as [? ?].
      pose proof (proj1 (Forall_forall _ _) Hm r Hr).
      split_and!; [done|done|done|by exists i].
  - apply (NoDup_concat_tagged id (sync_record_of (cid cat))
             (seq 0 (length items)));
      [apply record_of_inj|apply NoDup_seq|].
    rewrite fmap_imap. apply Forall2_seq_imap.
    intros i x Hx. destruct (Hitem i x Hx) as (Hall & Hnd & _). unfold compose.
    rewrite fmap_app in Hnd. apply NoDup_app in Hnd as (Hnd & _ & _).
    apply Forall_app in Hall as [Hall _]. split; [done|].
    eapply Forall_impl; [exact Hall|]. by intros r [_ ?].
  - apply (NoDup_concat_tagged id (sync_record_of (cid cat))
             (seq 0 (length items)));
      [apply record_of_inj|apply NoDup_seq|].
    rewrite fmap_imap. apply Forall2_seq_imap.
    intros i x Hx. destruct (Hitem i x Hx) as (Hall & Hnd & _). unfold compose.
    rewrite fmap_app in Hnd. apply NoDup_app in Hnd as (_ & _ & Hnd).
    apply Forall_app in Hall as [_ Hall]. split; [done|].
    eapply Forall_impl; [exact Hall|]. by intros r [_ ?].
  - by destruct (daily_mapping !! cid cat).
Qed.

End sync.

(** X10 - What every run of the synchroniser writes.  Every record of
    both output lists has [repeat.min = repeat.max], no note, an
    [orderIndex] of at least 1, a text in cleaned form, and the fixed
    grading.  The daily records carry one of the five daily categories;
    a library record carries [cat-N], where N is the id of a fetched
    category of the index that is not a daily one; and the category list
    holds one entry [hisn-cat-N] for each such category, in the order of
    the index. *)
Theorem X10_sync_invariants
    (categories : list sync_official_data.IndexEntry) :
  let out := sync_official_data.run_sync categories in
  Forall (λ r, sync_record_ok r ∧ category r ∈ daily_categories)
         (sync_official_data.final_daily out)
  ∧ Forall (λ r, sync_record_ok r
                 ∧ ∃ cat, cat ∈ categories ∧ library_category cat = true
                        ∧ category r
                          = py "cat-"
                            ++ Py.str_of_int (sync_official_data.cid cat))
           (sync_official_data.final_hisn_duas out)
  ∧ sync_official_data.final_hisn_categories out
    = hisn_category_of
        <$> filter (λ cat, library_category cat = true) categories.
Proof.
  cbv zeta. rewrite run_sync_concat. cbn. split_and!.
  - apply Forall_concat, Forall_fmap, Forall_forall. intros cat _.
    destruct (category_records cat) as (Hd & _). unfold compose.
    eapply Forall_impl; [exact Hd|]. by intros r (? & ? & _).
  - apply Forall_concat, Forall_fmap, Forall_forall. intros cat Hcat.
    destruct (category_records cat) as (_ & Hh & _). unfold compose.
    eapply Forall_impl; [exact Hh|]. intros r (? & ? & ? & _).
    split; [done|]. by exists cat.
  - induction categories as [|cat cats IH]; [done|].
    cbn [fmap list_fmap concat]. rewrite IH.
    destruct (category_records cat) as (_ & _ & _ & _ & Hc). unfold compose.
    rewrite Hc. destruct (library_category cat) eqn:E.
    + by rewrite filter_cons_True by done.
    + rewrite filter_cons_False; [done|]. by rewrite E.
Qed.

(** X11 - The synchroniser works category by category.  The three lists
    for a list of categories are those for its first part followed by
    those for the rest; a category whose content could not be fetched
    adds nothing to any of them, and the run goes on. *)
Theorem X11_sync_blockwise (l1 l2 : list sync_official_data.IndexEntry) :
  let out1 := sync_official_data.run_sync l1 in
  let out2 := sync_official_data.run_sync l2 in
  let both :=
    {| sync_official_data.final_daily :=
         sync_official_data.final_daily out1
         ++ sync_official_data.final_daily out2;
       sync_official_data.final_hisn_duas :=
         sync_official_data.final_hisn_duas out1
         ++ sync_official_data.final_hisn_duas out2;
       sync_official_data.final_hisn_categories :=
         sync_official_data.final_hisn_categories out1
         ++ sync_official_data.final_hisn_categories out2 |} in
  sync_official_data.run_sync (l1 ++ l2) = both
  ∧ ∀ cat, sync_official_data.content cat = None →
           sync_official_data.run_sync (l1 ++ cat :: l2) = both.
Proof.
  cbv zeta. rewrite !run_sync_concat. cbn. split.
  - by rewrite !fmap_app, !concat_app.
  - intros cat Hc. rewrite run_sync_concat, !fmap_app, !concat_app.
    cbn [fmap list_fmap concat compose].
    by rewrite (category_output_failed cat Hc).
Qed.

(** X11 on a category whose fetch failed, between no others. *)
Lemma X11_sync_blockwise_witness :
  sync_official_data.run_sync
    ([] ++ [{| sync_official_data.cid := 5;
               sync_official_data.ctitle := py "abc";
               sync_official_data.content := None |}])
  = no_output.
Proof.
  apply (proj2 (X11_sync_blockwise [] [])). reflexivity.
Defined.

(** X12 - The ids of a synchronisation are unique.  When no two
    categories of the index share an id, no two records of the two
    output lists share an id: the id spells the category id and the
    zero-padded position of the item without loss, and the two records
    of an undecided item of category 27 end in [-m] and [-e]. *)
Theorem X12_sync_ids_unique
    (categories : list sync_official_data.IndexEntry) :
  NoDup (sync_official_data.cid <$> categories) →
  let out := sync_official_data.run_sync categories in
  NoDup (id <$> sync_official_data.final_daily out
                ++ sync_official_data.final_hisn_duas out).
Proof.
  intros Hnd. cbv zeta. rewrite run_sync_concat. cbn.
  assert (∀ c1 c2 (x y : TextRecord),
            (∃ idx, sync_record_of c1 idx x) →
            (∃ idx, sync_record_of c2 idx y) → id x = id y → c1 = c2)
    as Hinj.
  { intros c1 c2 x y (i1 & s1 & -> & H1) (i2 & s2 & -> & H2) E.
    by apply sync_id_inj in E as (? & _). }
  rewrite fmap_app. apply NoDup_app. split_and!.
  - apply (NoDup_concat_tagged id (λ c r, ∃ idx, sync_record_of c idx r)
             (sync_official_data.cid <$> categories)); [done..|].
    apply Forall2_fmap, Forall_Forall2_diag, Forall_forall. intros cat _.
    destruct (category_records cat) as (Hd & _ & Hn & _). unfold compose.
    split; [done|]. eapply Forall_impl; [exact Hd|].
    by intros r (_ & _ & _ & ?).
  - intros x (r & -> & Hr)%list_elem_of_fmap (r' & E & Hr')%list_elem_of_fmap.
    apply elem_of_concat in Hr as (l & Hr & Hl).
    apply list_elem_of_fmap in Hl as (cat & -> & _).
    apply elem_of_concat in Hr' as (l' & Hr' & Hl').
    apply list_elem_of_fmap in Hl' as (cat' & -> & _).
    destruct (category_records cat) as (Hd & _).
    destruct (category_records cat') as (_ & Hh & _).
    apply (proj1 (Forall_forall _ _) Hd) in Hr as (_ & _ & Hdaily & Hof).
    apply (proj1 (Forall_forall _ _) Hh) in Hr' as (_ & _ & Hlib & Hof').
    pose proof (Hinj _ _ _ _ Hof Hof' E) as Ec.
    unfold library_category in Hlib. rewrite <- Ec in Hlib.
    destruct Hdaily as [tc Htc]. rewrite Htc in Hlib.
    by destruct (sync_official_data.content cat').
  - apply (NoDup_concat_tagged id (λ c r, ∃ idx, sync_record_of c idx r)
             (sync_official_data.cid <$> categories)); [done..|].
    apply Forall2_fmap, Forall_Forall2_diag, Forall_forall. intros cat _.
    destruct (category_records cat) as (_ & Hh & _ & Hn & _). unfold compose.
    split; [done|]. eapply Forall_impl; [exact Hh|].
    by intros r (_ & _ & _ & ?).
Qed.

(** X12 on an index with the split category and a library category. *)
Lemma X12_sync_ids_unique_witness :
  NoDup (id <$>
         sync_official_data.final_daily
           (sync_official_data.run_sync
              [{| sync_official_data.cid := 27;
                  sync_official_data.ctitle := py "abc";
                  sync_official_data.content :=
                    Some [sample_remote (py "abc") None] |};
               {| sync_official_data.cid := 5;
                  sync_official_data.ctitle := py "abc";
                  sync_official_data.content :=
                    Some [sample_remote (py "abc") None] |}])
         ++ sync_official_data.final_hisn_duas
              (sync_official_data.run_sync
                 [{| sync_official_data.cid := 27;
                     sync_official_data.ctitle := py "abc";
                     sync_official_data.content :=
                       Some [sample_remote (py "abc") None] |};
                  {| sync_official_data.cid := 5;
                     sync_official_data.ctitle := py "abc";
                     sync_official_data.content :=
                       Some [sample_remote (py "abc") None] |}])).
Proof.
  apply X12_sync_ids_unique. cbn.
  apply NoDup_cons. split; [|apply NoDup_singleton].
  by intros ?%list_elem_of_singleton.
Defined.

(** ** generate_revision_html.py on the output of the synchroniser *)








(** ** What the reconciliation pass keeps *)

Lemma keep_nonempty items : items ≠ [] → smart_deduplicate.keep items ≠ [].
Proof.
  intros Hne.
  destruct (keep_cases items) as [->|(first & rest & _ & _ & _ & ->)]; done.
Qed.

Lemma with_key_unique k l :
  NoDup (smart_deduplicate.text_key <$> l) → length (with_key k l) ≤ 1.
Proof.
  induction l as [|x l IH]; [cbn; lia|].
  rewrite fmap_cons. intros [Hx Hnd]%NoDup_cons. unfold with_key.
  destruct (decide (smart_deduplicate.text_key x = k)) as [E|E].
  - rewrite filter_cons_True by done. cbn [length].
    fold (with_key k l). rewrite (with_key_nil k l); [cbn; lia|].
    intros y Hy Ey. apply Hx. rewrite E, <- Ey.
    by apply list_elem_of_fmap_2.
  - rewrite filter_cons_False by done. by apply IH.
Qed.

Lemma keep_short items : length items ≤ 1 → smart_deduplicate.keep items = items.
Proof. destruct items as [|x [|y items]]; cbn [length]; [done..|lia]. Qed.

(** X14 - What the reconciliation pass returns.  The output is sorted by
    (category, orderIndex); it is taken from the input, record by record
    (nothing is invented, nothing is doubled); every text key of the
    input is still the text key of some record; and when no two records
    of the input share a text key, nothing is dropped: the output is the
    input, sorted. *)
Theorem X14_dedup_output (athkar : list TextRecord) :
  let out := smart_deduplicate.smart_deduplicate athkar in
  StronglySorted (not_after smart_deduplicate.key_lt) out
  ∧ out ⊆+ athkar
  ∧ (∀ x, x ∈ athkar →
          ∃ y, y ∈ out
             ∧ smart_deduplicate.text_key y = smart_deduplicate.text_key x)
  ∧ (NoDup (smart_deduplicate.text_key <$> athkar) →
     out = PySort.sort smart_deduplicate.key_lt athkar).
Proof.
  cbv zeta. split_and!.
  - apply smart_deduplicate_sorted.
  - rewrite smart_deduplicate_perm. apply deduplicated_submseteq.
  - intros x Hx. destruct (group_key_exists athkar x Hx) as [items Hin].
    destruct (group_key_elem athkar _ items Hin) as [_ Hne].
    pose proof (with_key_deduplicated athkar _ items Hin) as Hk.
    apply keep_nonempty in Hne. rewrite <- Hk in Hne.
    destruct (with_key (smart_deduplicate.text_key x)
                (smart_deduplicate.deduplicated athkar)) as [|y rest] eqn:E;
      [done|].
    assert (y ∈ with_key (smart_deduplicate.text_key x)
                  (smart_deduplicate.deduplicated athkar)) as Hy
      by (rewrite E; left).
    apply list_elem_of_filter in Hy as [Hkey Hy].
    exists y. split; [|done]. by rewrite smart_deduplicate_perm.
  - intros Hnd. unfold smart_deduplicate.smart_deduplicate. f_equal.
    rewrite deduplicated_concat.
    assert (Forall (λ group : pystr * list TextRecord,
                      smart_deduplicate.keep group.2 = group.2)
                   (smart_deduplicate.group_by_text athkar)) as Hall.
    { apply Forall_forall. intros [k items] Hin.
      destruct (group_key_elem athkar k items Hin) as [-> _].
      apply keep_short. by apply with_key_unique. }
    rewrite (Forall_fmap_ext_1 _ snd _ Hall).
    clear Hall.
    assert (∀ l, NoDup (smart_deduplicate.text_key <$> l) →
              smart_deduplicate.group_by_text l
              = (λ x, (smart_deduplicate.text_key x, [x])) <$> l) as Hg.
    { clear. intros l.
      induction l as [|x l IH] using rev_ind; [done|].
      rewrite fmap_app. intros [Hl [Hx _]]%NoDup_app.
      unfold smart_deduplicate.group_by_text in *.
      rewrite foldl_snoc, (IH Hl), fmap_app. cbn [fmap list_fmap].
      assert (smart_deduplicate.text_key x
              ∉ smart_deduplicate.text_key <$> l) as Hnew.
      { intros Hin. apply (Hx _ Hin). cbn. left. }
      clear IH Hl Hx. induction l as [|y l IH]; [done|].
      cbn [fmap list_fmap smart_deduplicate.add_to_group app].
      rewrite fmap_cons in Hnew. apply not_elem_of_cons in Hnew as [Hne Hnew].
      rewrite bool_decide_eq_false_2 by done. f_equal. by apply IH. }
    rewrite (Hg athkar Hnd). rewrite <- list_fmap_compose.
    clear. induction athkar as [|x l IH]; [done|]. cbn. by f_equal.
Qed.

(** X14 on two records with different texts. *)
Lemma X14_dedup_output_witness :
  smart_deduplicate.smart_deduplicate
    [sample_record (py "b") (py "morning") 2 1;
     sample_record (py "a") (py "morning") 1 1]
  = PySort.sort smart_deduplicate.key_lt
      [sample_record (py "b") (py "morning") 2 1;
       sample_record (py "a") (py "morning") 1 1].
Proof.
  apply (proj2 (proj2 (proj2 (X14_dedup_output
           [sample_record (py "b") (py "morning") 2 1;
            sample_record (py "a") (py "morning") 1 1])))).
  cbn. apply NoDup_cons. split; [|apply NoDup_singleton].
  by intros ?%list_elem_of_singleton.
Defined.

(** ** The comparison looks at 200 characters *)

(** X15 - Only the first 200 characters of the cleaned texts are
    compared.  A remote item whose cleaned text agrees with the cleaned
    text of a local record on the first 200 characters scores 1 against
    it, whatever follows, and is matched in every collection that
    contains the record: no Missing and no Potential Mismatch row is
    written for it. *)
Theorem X15_match_on_first_200 (rname : pystr) (r_item : RemoteItem)
    (l : TextRecord) (local_all : list TextRecord)
    (reports : list compare_api.report_item) :
  let r_text := compare_api.clean_text (default [] (ARABIC_TEXT r_item)) in
  let out := compare_api.compare_item rname local_all r_item reports in
  take 200 r_text = take 200 (compare_api.clean_text (text l)) →
  l ∈ local_all →
  (score r_text l == 1)%Q
  ∧ compare_api.found out.1 = true
  ∧ Forall (λ r, compare_api.status r = py "Repeat Mismatch")
           (drop (length reports) (compare_api.report_items out.1)).
Proof.
  intros r_text out Heq Hin.
  assert (score r_text l == 1)%Q as Hscore.
  { unfold score, compare_api.similar. rewrite <- Heq. apply ratio_self. }
  split; [done|].
  destruct (first_match_exists (score r_text) (85 # 100) local_all)
    as (pre & l' & post & -> & Hpre & Hl').
  { apply Exists_exists. exists l. split; [done|]. by rewrite Hscore. }
  destruct (compare_item_matched rname pre l' post r_item reports Hpre Hl')
    as (_ & Hf & _ & Hrep).
  split; [done|]. fold out in Hrep.
  destruct (compare_api.r_rep_of r_item) as [n|e].
  - destruct Hrep as [_ ->]. rewrite drop_app_length.
    case_bool_decide; [constructor|]. by repeat constructor.
  - destruct Hrep as [_ ->]. rewrite drop_all. constructor.
Qed.

(** X15 on two texts of 201 characters that differ in the last one. *)
Lemma X15_match_on_first_200_witness :
  compare_api.found
    (compare_api.compare_item []
       [sample_record (replicate 200 97%N ++ [98%N]) (py "morning") 1 1]
       (sample_remote (replicate 200 97%N ++ [99%N]) None) []).1
  = true.
Proof.
  apply (X15_match_on_first_200 []
           (sample_remote (replicate 200 97%N ++ [99%N]) None)
           (sample_record (replicate 200 97%N ++ [98%N]) (py "morning") 1 1)).
  - vm_compute. reflexivity.
  - left.
Defined.

(** ** Texts without a common character *)

Section disjoint.

Variables a b : pystr.
Hypothesis Hdis : no_common a b.

Lemma disjoint_b2j i :
  (x ← a !! i; difflib.b2j b !! x) = None.
Proof.
  destruct (a !! i) as [x|] eqn:Hx; [|done]. cbn.
  destruct (difflib.b2j b !! x) as [idxs|] eqn:Hb; [|done].
  exfalso. apply b2j_lookup_Some in Hb as (Hne & _ & Hj).
  destruct idxs as [|j idxs]; [done|].
  apply (Hdis x); [by eapply list_elem_of_lookup_2|].
  eapply list_elem_of_lookup_2. apply Hj. left.
Qed.

Lemma disjoint_elt_eq i j : difflib.elt_eq a b i j = false.
Proof.
  unfold difflib.elt_eq.
  destruct (a !! i) as [x|] eqn:Hx; [|done].
  destruct (b !! j) as [y|] eqn:Hy; [|done].
  apply bool_decide_eq_false_2. intros ->.
  apply (Hdis y); by eapply list_elem_of_lookup_2.
Qed.

Lemma disjoint_scan alo ahi blo bhi :
  (difflib.flm_scan a b alo ahi blo bhi).2 = (alo, blo, 0).
Proof.
  unfold difflib.flm_scan.
  generalize (∅ : gmap nat nat) at 2. generalize (seq alo (ahi - alo)).
  intros idxs. induction idxs as [|i idxs IH]; intros m; [done|].
  cbn [foldl]. rewrite disjoint_b2j. cbn [default difflib.flm_row].
  apply IH.
Qed.

Lemma disjoint_extend_left junk alo blo besti bestj k :
  difflib.extend_left a b junk alo blo besti bestj k = (besti, bestj, k).
Proof.
  destruct besti as [|i']; [done|]. cbn [difflib.extend_left].
  by rewrite disjoint_elt_eq, andb_false_r.
Qed.

Lemma disjoint_extend_right junk bhi besti bestj room k :
  difflib.extend_right a b junk bhi besti bestj room k = k.
Proof.
  destruct room as [|room']; [done|]. cbn [difflib.extend_right].
  by rewrite disjoint_elt_eq, andb_false_r.
Qed.

Lemma disjoint_find_longest_match alo ahi blo bhi :
  difflib.find_longest_match a b alo ahi blo bhi = (alo, blo, 0).
Proof.
  unfold difflib.find_longest_match. rewrite disjoint_scan.
  by rewrite !disjoint_extend_left, !disjoint_extend_right.
Qed.

Lemma disjoint_ratio : a ≠ [] → (difflib.ratio a b == 0)%Q.
Proof.
  intros Ha. unfold difflib.ratio, difflib.get_matching_blocks, difflib.gmb_fuel.
  replace (2 * (length a + length b) + 1) with (S (2 * (length a + length b)))
    by lia.
  cbn [difflib.gmb_loop]. rewrite disjoint_find_longest_match.
  cbn [Nat.eqb]. destruct (2 * (length a + length b)); cbn;
    unfold difflib.calculate_ratio;
    (destruct (Nat.eqb_spec (length a + length b) 0) as [E|E];
     [destruct a; [done|cbn in E; lia]|done]).
Qed.

End disjoint.

(** X16 - No common character, no counterpart.  When the cleaned text of
    a remote item is not empty and its first 200 characters share no
    character with the first 200 characters of any cleaned local text,
    every score is 0 and the item is reported Missing: exactly that row
    is added. *)
Theorem X16_missing_when_disjoint (rname : pystr) (r_item : RemoteItem)
    (local_all : list TextRecord) (reports : list compare_api.report_item) :
  let r_text := compare_api.clean_text (default [] (ARABIC_TEXT r_item)) in
  let out := compare_api.compare_item rname local_all r_item reports in
  r_text ≠ [] →
  Forall (λ l, no_common (take 200 r_text)
                 (take 200 (compare_api.clean_text (text l)))) local_all →
  Forall (λ l, (score r_text l == 0)%Q) local_all
  ∧ out.2 = None
  ∧ compare_api.report_items out.1
    = reports
      ++ [compare_api.missing rname (default [] (TITLE r_item)) r_text].
Proof.
  intros r_text out Hne Hall.
  assert (Forall (λ l, (score r_text l == 0)%Q) local_all) as Hzero.
  { eapply Forall_impl; [exact Hall|]. intros l Hl.
    apply disjoint_ratio; [done|]. by destruct r_text. }
  split; [done|].
  unfold out, compare_api.compare_item. fold r_text.
  set (st0 := {| compare_api.found := false;
                 compare_api.best_match := None;
                 compare_api.best_ratio := 0; compare_api.l_item := None;
                 compare_api.report_items := reports |}).
  destruct (scan_unmatched rname (default [] (TITLE r_item)) r_text r_item
              local_all st0) as (st' & E & Hf & Hr & _ & Hbest).
  { eapply Forall_impl; [exact Hzero|]. intros l ->. done. }
  rewrite E, Hf. change (compare_api.found st0) with false. cbn [negb].
  assert (compare_api.best_ratio st' == 0)%Q as Hb.
  { destruct Hbest as [[-> _]|(pre & l & post & -> & _ & -> & Hlt & _)];
      [done|].
    apply Forall_app in Hzero as [_ Hz]. by apply Forall_cons in Hz as [? _]. }
  assert (Qgtb (compare_api.best_ratio st') (1 # 2) = false) as ->.
  { apply Qgtb_false. by rewrite Hb. }
  cbn [fst snd compare_api.append_report compare_api.report_items].
  by rewrite Hr.
Qed.

(** X16 on a remote text and a local text without a common letter. *)
Lemma X16_missing_when_disjoint_witness :
  (compare_api.compare_item []
     [sample_record (py "xyz") (py "morning") 1 1]
     (sample_remote (py "abc") None) []).2 = None.
Proof.
  apply (X16_missing_when_disjoint []
           (sample_remote (py "abc") None)
           [sample_record (py "xyz") (py "morning") 1 1] []).
  - vm_compute. discriminate.
  - apply List.Forall_cons; [|constructor].
    intros c Hc Hc'. vm_compute in Hc, Hc'.
    apply list_elem_of_In in Hc, Hc'. cbn in Hc, Hc'.
    destruct Hc as [<-|[<-|[<-|[]]]]; destruct Hc' as [|[|[|[]]]]; done.
Defined.
